(** * Booteh backend: data-store lifecycle, schema reconciliation and services

    A shallow embedding of [app/database.py], [app/services.py],
    [app/auth.py] and the request handlers of [app/main.py] that call them.

    - [Store]: the relational store the code talks to through aiomysql, as a
      finite map from table names to tables, with the meaning of the statement
      shapes the repository issues.
    - [Runtime]: the process state (pool, borrowed connections, committed and
      uncommitted store contents, log) and a state-and-exception monad in which
      the [async] methods are written.
    - [Database]: [DatabaseManager] — pool, scoped connection, query helpers,
      [create_tables] and [_initialize_schema].
    - [Services]: [SelfAssessmentService], [BlogService] and the [/api] handler.
    - [PoolRace]: the interleavings of concurrent [get_pool] calls.
    - [Aux]: the notions the statements are written with (the pure meaning of
      the schema script, balance of borrows, issued statement texts);
      [Examples]: concrete stores, seeds and answer dictionaries.
    - [Auth]: [app/auth.py] -- tokens, sessions and the admin check;
      [Lifecycle]: [close] and [test_connection]; [Endpoints]:
      [PersonalityService], [HealthService] and the handlers of [app/main.py]
      for the listings, health and set-up; [Derived] and [Samples]: further
      notions and inputs.
    - [StoreFacts], [SeedFacts], [RunFacts], [ServiceFacts]: lemmas;
      [Connection], [Reconciler], [ServiceTheorems], [PoolTheorems]: the
      properties of the specification, each checked against the code.
    - [AuthTheorems], [HelperTheorems], [ListingTheorems], [HealthTheorems],
      [SubmissionTheorems], [SchemaTheorems] (with their [...Facts]): further
      properties of the code.

    Modelling choices: the store is MySQL or MariaDB: changes to rows belong
    to the open transaction, a data definition statement commits implicitly
    and is not undone by a rollback; the values of timestamp columns are not
    modelled; driver failures ([begin], [commit] and [rollback] included) are
    injected through a plan the world carries; [PERSONALITY_TEST_SEED] and
    [json.dumps] are parameters. *)

From stdpp Require Import gmap strings list fin_maps.
From Stdlib Require Import ZArith Ascii.

Open Scope string_scope.
Open Scope Z_scope.
Open Scope list_scope.

(* ===================================================================== *)
(** * The relational store *)
(* ===================================================================== *)

Module Store.

(** Values that cross the driver boundary: Python [None], [int], [str] and
    [bool] on one side, SQL cells on the other. *)
Inductive value :=
| VNull
| VInt (z : Z)
| VStr (s : string)
| VBool (b : bool).

#[global] Instance value_eq_dec : EqDecision value.
Proof. solve_decision. Defined.

(** A row maps column names to cells. *)
Abbreviation row := (gmap string value).

Record coldef := Col { col_name : string; col_default : value }.

(** [FOREIGN KEY (fk_col) REFERENCES fk_table(fk_ref)]. *)
Record fkey := FK { fk_col : string; fk_table : string; fk_ref : string }.

(** One [ADD COLUMN IF NOT EXISTS c ... [AFTER a]] clause. *)
Record addcol := Add { add_def : coldef; add_after : option string }.

Record table := Table {
  t_cols : list coldef;
  t_rows : list row;
  t_auto : Z            (* next AUTO_INCREMENT value *)
}.

Abbreviation DB := (gmap string table).

(** The statement shapes issued by the repository.  Bound parameters ([%s])
    are not part of the statement: they travel next to it. *)
Inductive stmt :=
| CreateTable (name : string) (cols : list coldef) (fks : list fkey)
    (* CREATE TABLE IF NOT EXISTS name (cols, fks) *)
| AlterAdd (tbl : string) (adds : list addcol)
    (* ALTER TABLE tbl ADD COLUMN IF NOT EXISTS ..., ... *)
| SelectCount (tbl : string)
    (* SELECT COUNT( * ) as count FROM tbl *)
| Insert (tbl : string) (cols : list string) (tuples : nat)
    (* INSERT INTO tbl (cols) VALUES (%s, ...), ... -- [tuples] groups *)
| Update (tbl : string) (set_cols : list string) (where_col : string)
    (* UPDATE tbl SET c = %s, ... WHERE where_col = %s *)
| Select (tbl : string) (cond : option (string * value)) (limited : bool).
    (* SELECT ... FROM tbl [WHERE c = v] [LIMIT %s] *)

(** Data definition statements, as opposed to statements on rows. *)
Definition is_ddl (s : stmt) : bool :=
  match s with
  | CreateTable _ _ _ | AlterAdd _ _ => true
  | _ => false
  end.

(** What a cursor holds after [execute]. *)
Record result := Result { lastrowid : Z; fetched : list row }.

Definition no_result : result := Result 0 [].

Definition col_names (T : table) : list string := col_name <$> t_cols T.

Definition has_col (T : table) (c : string) : bool :=
  bool_decide (c ∈ col_names T).

Definition has_cols (T : table) (cs : list string) : bool :=
  forallb (has_col T) cs.

(** [SET k1 = v1, k2 = v2, ...] on one row, left to right. *)
Definition assign (kvs : list (string * value)) (r : row) : row :=
  foldl (fun r kv => <[kv.1 := kv.2]> r) r kvs.

Definition defaults (T : table) : row :=
  assign ((fun c => (col_name c, col_default c)) <$> t_cols T) ∅.

(** ** CREATE TABLE IF NOT EXISTS *)

Definition fk_ok (d : DB) (cols : list coldef) (k : fkey) : bool :=
  bool_decide (fk_col k ∈ col_name <$> cols) &&
  match d !! fk_table k with
  | Some T => has_col T (fk_ref k)
  | None => false
  end.

Definition create_table (d : DB) (name : string) (cols : list coldef)
    (fks : list fkey) : option DB :=
  match d !! name with
  | Some _ => Some d
  | None =>
      if forallb (fk_ok d cols) fks
      then Some (<[name := Table cols [] 1]> d)
      else None
  end.

(** ** ALTER TABLE ... ADD COLUMN IF NOT EXISTS *)

Fixpoint insert_after (anchor : string) (c : coldef) (cols : list coldef)
    : list coldef :=
  match cols with
  | [] => []
  | x :: rest =>
      if bool_decide (col_name x = anchor) then x :: c :: rest
      else x :: insert_after anchor c rest
  end.

Definition add_column (T : table) (a : addcol) : option table :=
  let c := add_def a in
  if has_col T (col_name c) then Some T
  else
    let rows := (fun r => <[col_name c := col_default c]> r) <$> t_rows T in
    match add_after a with
    | None => Some (Table (t_cols T ++ [c]) rows (t_auto T))
    | Some anchor =>
        if has_col T anchor
        then Some (Table (insert_after anchor c (t_cols T)) rows (t_auto T))
        else None
    end.

Fixpoint add_columns (T : table) (adds : list addcol) : option table :=
  match adds with
  | [] => Some T
  | a :: rest =>
      match add_column T a with
      | Some T' => add_columns T' rest
      | None => None
      end
  end.

(** ** INSERT *)

(** The flat parameter list is cut into [tuples] groups of [width] values;
    a parameter count that does not match the placeholders is an error. *)
Fixpoint split_tuples (width : nat) (tuples : nat) (params : list value)
    : option (list (list value)) :=
  match tuples with
  | O => match params with [] => Some [] | _ => None end
  | S n =>
      if bool_decide (length params < width)%nat then None
      else
        match split_tuples width n (drop width params) with
        | Some rest => Some (take width params :: rest)
        | None => None
        end
  end.

Definition new_row (T : table) (cols : list string) (vals : list value) : row :=
  let r := assign (zip cols vals) (defaults T) in
  if has_col T "id" && negb (bool_decide ("id" ∈ cols))
  then <["id" := VInt (t_auto T)]> r
  else r.

Definition insert_row (T : table) (cols : list string) (vals : list value)
    : table :=
  Table (t_cols T) (t_rows T ++ [new_row T cols vals]) (t_auto T + 1).

Definition insert_rows (T : table) (cols : list string)
    (tuples : list (list value)) : table :=
  foldl (fun T vals => insert_row T cols vals) T tuples.

(** ** UPDATE ... WHERE c = %s *)

Definition matches (where_col : string) (key : value) (r : row) : bool :=
  negb (bool_decide (key = VNull)) && bool_decide (r !! where_col = Some key).

Definition update_rows (set_cols : list string) (where_col : string)
    (vals : list value) (key : value) (rows : list row) : list row :=
  (fun r => if matches where_col key r then assign (zip set_cols vals) r else r)
    <$> rows.

(** ** The meaning of one statement with its bound parameters.

    [None] is the store raising.  Timestamps ([CURRENT_TIMESTAMP] defaults) and
    the [ORDER BY] of a [Select] are not part of the model. *)
Definition exec_stmt (d : DB) (s : stmt) (params : list value)
    : option (DB * result) :=
  match s with
  | CreateTable name cols fks =>
      match params with
      | [] => d' ← create_table d name cols fks; Some (d', no_result)
      | _ => None
      end
  | AlterAdd tbl adds =>
      match params with
      | [] =>
          T ← d !! tbl;
          T' ← add_columns T adds;
          Some (<[tbl := T']> d, no_result)
      | _ => None
      end
  | SelectCount tbl =>
      match params with
      | [] =>
          T ← d !! tbl;
          Some (d, Result 0 [ {["count" := VInt (Z.of_nat (length (t_rows T)))]} ])
      | _ => None
      end
  | Insert tbl cols tuples =>
      T ← d !! tbl;
      if has_cols T cols && negb (bool_decide (tuples = O)) then
        groups ← split_tuples (length cols) tuples params;
        Some (<[tbl := insert_rows T cols groups]> d,
              Result (if has_col T "id" then t_auto T else 0) [])
      else None
  | Update tbl set_cols where_col =>
      T ← d !! tbl;
      if has_cols T set_cols && has_col T where_col
         && bool_decide (length params = S (length set_cols))
      then
        let vals := take (length set_cols) params in
        let key := default VNull (last params) in
        Some (<[tbl := Table (t_cols T)
                         (update_rows set_cols where_col vals key (t_rows T))
                         (t_auto T)]> d,
              no_result)
      else None
  | Select tbl cond limited =>
      T ← d !! tbl;
      let hits :=
        match cond with
        | Some (c, v) => filter (fun r => r !! c = Some v) (t_rows T)
        | None => t_rows T
        end in
      match limited, params with
      | false, [] => Some (d, Result 0 hits)
      | true, [VInt n] => Some (d, Result 0 (take (Z.to_nat n) hits))
      | _, _ => None
      end
  end.

End Store.

(* ===================================================================== *)
(** * Process state and the effect monad *)
(* ===================================================================== *)

Module Runtime.
Import Store.

Inductive exn :=
| MySQLError                                     (* raised by the driver / store *)
| KeyError (key : string)
| AssertionError
| ValueError
| ServiceError (message : string) (status_code : Z).

Inductive log_record :=
| LogInfo (msg : string)
| LogError (msg : string) (cause : exn)          (* logger.error(msg, exc) *)
| LogException (msg : string) (cause : exn).     (* logger.exception(msg) *)

(** A query as handed to [cursor.execute]: the text, and how the store reads
    it. *)
Record Query := Q { q_text : string; q_ast : stmt }.

(** What the process does to the outside, in order. *)
Inductive event :=
| EvCreatePool
| EvAcquire (conn : nat)
| EvPing (conn : nat)
| EvRelease (conn : nat)
| EvBegin (conn : nat)
| EvCommit (conn : nat)
| EvRollback (conn : nat)
| EvExecute (text : string) (params : list value).

(** [DatabaseConfig] (database.py, lines 17-43). *)
Record DatabaseConfig := {
  host : string;
  user : string;
  password : string;
  db : option string;
  port : Z;
  minsize : nat;
  maxsize : nat;
  autocommit : bool;
  charset : string;
  pool_recycle : Z
}.

(** An aiomysql pool: at most [pool_maxsize] connections are out at a time. *)
Record Pool := {
  pool_id : nat;
  pool_maxsize : nat;
  pool_used : list nat;      (* connections currently borrowed *)
  pool_next : nat            (* next fresh connection handle *)
}.

Record World := {
  w_config : DatabaseConfig;      (* self.config *)
  w_pool : option Pool;           (* self._pool *)
  w_created : nat;                (* pools created so far *)
  w_db : DB;                      (* committed contents of the store *)
  w_work : DB;                    (* contents as seen inside the open transaction *)
  w_faults : list bool;           (* which of the coming driver calls fail *)
  w_trace : list event;
  w_log : list log_record
}.

Definition set_pool (p : option Pool) (n : nat) (w : World) : World :=
  {| w_config := w_config w; w_pool := p; w_created := n; w_db := w_db w;
     w_work := w_work w; w_faults := w_faults w; w_trace := w_trace w;
     w_log := w_log w |}.

Definition set_store (committed work : DB) (w : World) : World :=
  {| w_config := w_config w; w_pool := w_pool w; w_created := w_created w;
     w_db := committed; w_work := work; w_faults := w_faults w;
     w_trace := w_trace w; w_log := w_log w |}.

Definition set_faults (fs : list bool) (w : World) : World :=
  {| w_config := w_config w; w_pool := w_pool w; w_created := w_created w;
     w_db := w_db w; w_work := w_work w; w_faults := fs; w_trace := w_trace w;
     w_log := w_log w |}.

Definition add_event (e : event) (w : World) : World :=
  {| w_config := w_config w; w_pool := w_pool w; w_created := w_created w;
     w_db := w_db w; w_work := w_work w; w_faults := w_faults w;
     w_trace := w_trace w ++ [e]; w_log := w_log w |}.

Definition add_log (l : log_record) (w : World) : World :=
  {| w_config := w_config w; w_pool := w_pool w; w_created := w_created w;
     w_db := w_db w; w_work := w_work w; w_faults := w_faults w;
     w_trace := w_trace w; w_log := w_log w ++ [l] |}.

(** How a call ends: it returns, it raises, or it never resumes (a borrower
    waiting on an exhausted pool that nobody will release). *)
Inductive outcome (A : Type) :=
| Ok (a : A)
| Raise (e : exn)
| Hang.
Arguments Ok {A} a.
Arguments Raise {A} e.
Arguments Hang {A}.

Definition M (A : Type) : Type := World -> outcome A * World.

Definition ret {A} (a : A) : M A := fun w => (Ok a, w).

Definition bind {A B} (m : M A) (k : A -> M B) : M B :=
  fun w =>
    match m w with
    | (Ok a, w') => k a w'
    | (Raise e, w') => (Raise e, w')
    | (Hang, w') => (Hang, w')
    end.

#[global] Instance M_ret : MRet M := @ret.
#[global] Instance M_bind : MBind M := fun A B k m => bind m k.

Definition raise {A} (e : exn) : M A := fun w => (Raise e, w).

(** [try: body / except Exception as exc: handler exc]. *)
Definition try_except {A} (body : M A) (handler : exn -> M A) : M A :=
  fun w =>
    match body w with
    | (Raise e, w') => handler e w'
    | r => r
    end.

(** [try: body / finally: cleanup]; an exception raised by [cleanup] replaces
    the pending result. *)
Definition try_finally {A} (body : M A) (cleanup : M unit) : M A :=
  fun w =>
    match body w with
    | (Hang, w') => (Hang, w')
    | (r, w') =>
        match cleanup w' with
        | (Ok _, w'') => (r, w'')
        | (Raise e, w'') => (Raise e, w'')
        | (Hang, w'') => (Hang, w'')
        end
    end.

Fixpoint for_each {A} (l : list A) (body : A -> M unit) : M unit :=
  match l with
  | [] => ret tt
  | x :: rest => bind (body x) (fun _ => for_each rest body)
  end.

Definition get_world : M World := fun w => (Ok w, w).
Definition emit (e : event) : M unit := fun w => (Ok tt, add_event e w).
Definition log (l : log_record) : M unit := fun w => (Ok tt, add_log l w).

(** A call into the driver: it fails when the next entry of the fault plan
    says so. *)
Definition fallible : M unit :=
  fun w =>
    match w_faults w with
    | [] => (Ok tt, w)
    | true :: fs => (Raise MySQLError, set_faults fs w)
    | false :: fs => (Ok tt, set_faults fs w)
    end.

(** ** The driver: pool, connection, cursor *)

(** [aiomysql.create_pool( **kwargs )]. *)
Definition create_pool (cfg : DatabaseConfig) : M Pool :=
  emit EvCreatePool;;
  fallible;;
  w ← get_world;
  ret {| pool_id := w_created w; pool_maxsize := maxsize cfg;
         pool_used := []; pool_next := 0 |}.

(** [pool.acquire()]: suspends while every connection is out. *)
Definition pool_acquire (pool : nat) : M nat :=
  fun w =>
    match w_pool w with
    | None => (Raise AssertionError, w)
    | Some p =>
        if bool_decide (length (pool_used p) < pool_maxsize p)%nat then
          match fallible w with
          | (Ok _, w') =>
              let c := pool_next p in
              (Ok c,
               add_event (EvAcquire c)
                 (set_pool (Some {| pool_id := pool_id p;
                                    pool_maxsize := pool_maxsize p;
                                    pool_used := c :: pool_used p;
                                    pool_next := S c |})
                           (w_created w') w'))
          | (Raise e, w') => (Raise e, w')
          | (Hang, w') => (Hang, w')
          end
        else (Hang, w)
    end.

(** [pool.release(conn)] asserts that [conn] is borrowed. *)
Definition pool_release (pool : nat) (conn : nat) : M unit :=
  fun w =>
    match w_pool w with
    | None => (Raise AssertionError, w)
    | Some p =>
        if bool_decide (conn ∈ pool_used p) then
          (Ok tt,
           add_event (EvRelease conn)
             (set_pool (Some {| pool_id := pool_id p;
                                pool_maxsize := pool_maxsize p;
                                pool_used := filter (fun c => c ≠ conn) (pool_used p);
                                pool_next := pool_next p |})
                       (w_created w) w))
        else (Raise AssertionError, w)
    end.

(** [conn.ping(reconnect=True)]. *)
Definition conn_ping (conn : nat) : M unit :=
  emit (EvPing conn);; fallible.

(** ** Transactions

    The store is MySQL or MariaDB behind aiomysql.  Changes to rows belong to
    the open transaction until it is committed; a data definition statement
    commits implicitly: the open transaction is committed before the
    statement runs, whether it then goes through or not, and what the
    statement does is committed with it and cannot be rolled back.

    [begin], [commit] and [rollback] are round trips to the server and fail
    like any other driver call.  A commit that raises has committed nothing;
    a rollback drops the changes of the transaction whether the call returns
    or raises (a lost connection ends the transaction on the server). *)
Definition store_begin : M unit :=
  fun w => (Ok tt, set_store (w_db w) (w_db w) w).

Definition store_commit : M unit :=
  fun w => (Ok tt, set_store (w_work w) (w_work w) w).

Definition store_rollback : M unit :=
  fun w => (Ok tt, set_store (w_db w) (w_db w) w).

Definition conn_begin (conn : nat) : M unit :=
  emit (EvBegin conn);; fallible;; store_begin.

Definition conn_commit (conn : nat) : M unit :=
  emit (EvCommit conn);; fallible;; store_commit.

Definition conn_rollback (conn : nat) : M unit :=
  emit (EvRollback conn);; store_rollback;; fallible.

(** The statement reaches the store. *)
Definition store_execute (s : stmt) (params : list value) : M result :=
  fun w =>
    if is_ddl s then
      match exec_stmt (w_work w) s params with
      | Some (d, r) => (Ok r, set_store d d w)
      | None => (Raise MySQLError, set_store (w_work w) (w_work w) w)
      end
    else
      match exec_stmt (w_work w) s params with
      | Some (d, r) => (Ok r, set_store (w_db w) d w)
      | None => (Raise MySQLError, w)
      end.

(** [cursor.execute(query, params)]. *)
Definition cursor_execute (q : Query) (params : list value) : M result :=
  emit (EvExecute (q_text q) params);;
  fallible;;
  store_execute (q_ast q) params.

(** [cursor.fetchone()]. *)
Definition fetchone (r : result) : option row := head (fetched r).

(** Connections currently out of the pool. *)
Definition borrowed (w : World) : list nat :=
  match w_pool w with
  | Some p => pool_used p
  | None => []
  end.

End Runtime.

(* ===================================================================== *)
(** * database.py: [DatabaseManager] *)
(* ===================================================================== *)

Module Database.
Import Store Runtime.

(** A statement written as a literal in the source: its text is fixed, and is
    kept here in a normalised rendering of its reading (column types and
    layout dropped). *)
Definition sql_of (s : stmt) : string :=
  match s with
  | CreateTable n _ _ => "CREATE TABLE IF NOT EXISTS " +:+ n
  | AlterAdd t adds =>
      "ALTER TABLE " +:+ t +:+ " " +:+
      String.concat ", "
        ((fun a => "ADD COLUMN IF NOT EXISTS " +:+ col_name (add_def a)) <$> adds)
  | SelectCount t => "SELECT COUNT(" +:+ "*" +:+ ") as count FROM " +:+ t
  | Insert t cols n =>
      "INSERT INTO " +:+ t +:+ " (" +:+ String.concat ", " cols +:+ ") VALUES " +:+
      String.concat ", "
        (replicate n
           ("(" +:+ String.concat ", " (replicate (length cols) "%s") +:+ ")"))
  | Update t cols k =>
      "UPDATE " +:+ t +:+ " SET " +:+
      String.concat ", " ((fun c => c +:+ " = %s") <$> cols) +:+
      " WHERE " +:+ k +:+ " = %s"
  | Select t _ limited =>
      "SELECT * FROM " +:+ t +:+ (if limited then " LIMIT %s" else "")
  end.

Definition literal (s : stmt) : Query := Q (sql_of s) s.

(** ** Pool and scoped connection (lines 51-70) *)

Definition read_pool : M (option Pool) := fun w => (Ok (w_pool w), w).
Definition read_config : M DatabaseConfig := fun w => (Ok (w_config w), w).

(** [self._pool = pool]: a pool has come into existence. *)
Definition store_pool (p : Pool) : M unit :=
  fun w => (Ok tt, set_pool (Some p) (S (w_created w)) w).

Definition get_pool : M nat :=
  cur ← read_pool;
  match cur with
  | None =>
      config_dict ← read_config;
      log (LogInfo "Creating MySQL connection pool: host=%s db=%s");;
      p ← create_pool config_dict;
      store_pool p;;
      ret (pool_id p)
  | Some p => ret (pool_id p)
  end.

(** The context manager [connection]: [body] is the block under
    [async with self.connection() as conn]. *)
Definition connection {A} (body : nat -> M A) : M A :=
  pool ← get_pool;
  conn ← pool_acquire pool;
  try_finally
    (conn_ping conn;; body conn)
    (pool_release pool conn).

(** ** Query helpers (lines 78-115) *)

(** [async with pool.acquire() as conn]: released when the block is left. *)
Definition with_acquired {A} (body : nat -> M A) : M A :=
  pool ← get_pool;
  conn ← pool_acquire pool;
  try_finally (body conn) (pool_release pool conn).

Definition fetch_all (query : Query) (params : list value) : M (list row) :=
  with_acquired (fun conn =>
    r ← cursor_execute query params;
    ret (fetched r)).

Definition fetch_one (query : Query) (params : list value) : M (option row) :=
  with_acquired (fun conn =>
    r ← cursor_execute query params;
    ret (fetchone r)).

Definition execute (query : Query) (params : list value) : M Z :=
  with_acquired (fun conn =>
    r ← cursor_execute query params;
    conn_commit conn;;
    ret (lastrowid r)).

Definition executemany (query : Query) (params_seq : list (list value))
    : M unit :=
  with_acquired (fun conn =>
    for_each params_seq (fun params => cursor_execute query params;; ret tt);;
    conn_commit conn).

(** ** The schema (lines 142-545) *)

Definition c (name : string) : coldef := Col name VNull.
Definition cd (name : string) (dflt : value) : coldef := Col name dflt.

Definition users_cols : list coldef :=
  [ c "id"; c "username"; c "email"; c "password_hash"; c "first_name";
    c "last_name"; c "phone_number"; c "age"; c "education_level";
    c "work_experience"; cd "is_active" (VBool true); c "created_at";
    c "updated_at" ].

Definition admins_cols : list coldef :=
  [ c "id"; c "username"; c "password_hash"; c "created_at" ].

Definition questionnaires_cols : list coldef :=
  [ c "id"; c "name"; c "description"; c "initial_prompt"; c "persona_prompt";
    c "analysis_prompt"; cd "has_narrator" (VBool false);
    cd "character_count" (VInt 1); cd "has_timer" (VBool true);
    cd "timer_duration" (VInt 15); cd "min_questions" (VInt 5);
    cd "max_questions" (VInt 8); cd "display_order" (VInt 0);
    cd "category" (VStr "مهارت‌های ارتباطی"); c "next_mystery_slug";
    c "created_at"; c "updated_at" ].

Definition default_persona_name : value := VStr "کوچ شخصیت".

Definition personality_assessments_cols : list coldef :=
  [ c "id"; c "name"; c "slug"; c "tagline"; c "description"; c "report_name";
    c "highlights"; cd "persona_name" default_persona_name;
    c "initial_prompt"; c "persona_prompt"; c "analysis_prompt";
    cd "has_timer" (VBool false); c "timer_duration"; c "model";
    cd "is_active" (VBool true); c "created_at"; c "updated_at" ].

Definition personality_sessions_cols : list coldef :=
  [ c "id"; c "user_id"; c "personality_assessment_id"; c "session_uuid";
    cd "status" (VStr "in-progress"); c "results"; c "created_at";
    c "updated_at" ].

Definition personality_assessment_applications_cols : list coldef :=
  [ c "id"; c "personality_assessment_id"; c "slug"; c "full_name"; c "email";
    c "phone"; c "organization"; c "notes"; c "created_at" ].

Definition assessments_cols : list coldef :=
  [ c "id"; c "user_id"; c "questionnaire_id"; c "session_id";
    cd "status" (VStr "pending"); c "results"; cd "current_phase" (VInt 1);
    cd "phase_total" (VInt 1); c "score"; cd "max_score" (VInt 100);
    c "description"; c "supplementary_answers"; c "created_at";
    c "updated_at"; c "completed_at" ].

Definition chat_messages_cols : list coldef :=
  [ c "id"; c "assessment_id"; c "user_id"; c "message_type"; c "content";
    c "character_name"; c "created_at" ].

Definition organizations_cols : list coldef :=
  [ c "id"; c "name"; c "slug"; c "created_at"; c "updated_at" ].

Definition organization_questionnaires_cols : list coldef :=
  [ c "organization_id"; c "questionnaire_id" ].

Definition organization_users_cols : list coldef :=
  [ c "organization_id"; c "user_id" ].

Definition blog_posts_cols : list coldef :=
  [ c "id"; c "title"; c "slug"; c "excerpt"; c "content";
    c "cover_image_url"; c "author"; cd "is_published" (VBool true);
    c "published_at"; c "created_at"; c "updated_at" ].

Definition mystery_assessments_cols : list coldef :=
  [ c "id"; c "name"; c "slug"; c "short_description"; c "intro_message";
    cd "guide_name" (VStr "رازمَستر"); c "system_prompt"; c "analysis_prompt";
    c "bubble_prompt"; cd "is_active" (VBool true); c "created_at";
    c "updated_at" ].

Definition mystery_assessment_images_cols : list coldef :=
  [ c "id"; c "mystery_assessment_id"; c "image_url"; c "title";
    c "description"; c "ai_notes"; cd "display_order" (VInt 0);
    c "created_at"; c "updated_at" ].

Definition mystery_sessions_cols : list coldef :=
  [ c "id"; c "user_id"; c "mystery_assessment_id"; c "session_uuid";
    cd "status" (VStr "in-progress"); c "conversation"; c "summary";
    c "created_at"; c "updated_at" ].

(** One step of [_initialize_schema]. *)
Inductive action :=
| Execute (s : stmt)        (* await cursor.execute(<literal>) *)
| Info (msg : string)       (* logger.info(msg) *)
| ReconcileSeed.            (* lines 266-336 *)

Definition created (tbl : string) : string :=
  "  - جدول '" +:+ tbl +:+ "' ایجاد شد.".

Definition PA : string := "personality_assessments".

(** The body of [_initialize_schema], statement by statement, in source
    order. *)
Definition schema_script : list action :=
  [ Execute (CreateTable "users" users_cols []);
    Info (created "users");
    Execute (CreateTable "admins" admins_cols []);
    Info (created "admins");
    Execute (CreateTable "questionnaires" questionnaires_cols []);
    Info (created "questionnaires");
    Execute (AlterAdd "questionnaires"
      [ Add (c "next_mystery_slug") (Some "category") ]);
    Execute (AlterAdd "questionnaires"
      [ Add (cd "total_phases" (VInt 1)) (Some "next_mystery_slug");
        Add (c "phase_two_persona_name") (Some "total_phases");
        Add (c "phase_two_persona_prompt") (Some "phase_two_persona_name");
        Add (c "phase_two_analysis_prompt") (Some "phase_two_persona_prompt");
        Add (c "phase_two_welcome_message") (Some "phase_two_analysis_prompt") ]);
    Execute (CreateTable PA personality_assessments_cols []);
    Info (created PA);
    Execute (AlterAdd PA [ Add (cd "persona_name" default_persona_name) None ]);
    Execute (AlterAdd PA [ Add (c "initial_prompt") None ]);
    Execute (AlterAdd PA [ Add (c "persona_prompt") None ]);
    Execute (AlterAdd PA [ Add (c "analysis_prompt") None ]);
    Execute (AlterAdd PA [ Add (cd "has_timer" (VBool false)) None ]);
    Execute (AlterAdd PA [ Add (c "timer_duration") None ]);
    Execute (AlterAdd PA [ Add (c "model") None ]);
    ReconcileSeed;
    Execute (CreateTable "personality_sessions" personality_sessions_cols
      [ FK "user_id" "users" "id";
        FK "personality_assessment_id" PA "id" ]);
    Info (created "personality_sessions");
    Execute (CreateTable "personality_assessment_applications"
      personality_assessment_applications_cols
      [ FK "personality_assessment_id" PA "id" ]);
    Info (created "personality_assessment_applications");
    Execute (CreateTable "assessments" assessments_cols
      [ FK "user_id" "users" "id";
        FK "questionnaire_id" "questionnaires" "id" ]);
    Info (created "assessments");
    Execute (AlterAdd "assessments"
      [ Add (cd "current_phase" (VInt 1)) (Some "results");
        Add (cd "phase_total" (VInt 1)) (Some "current_phase") ]);
    Execute (CreateTable "chat_messages" chat_messages_cols
      [ FK "assessment_id" "assessments" "id";
        FK "user_id" "users" "id" ]);
    Info (created "chat_messages");
    Execute (CreateTable "organizations" organizations_cols []);
    Info (created "organizations");
    Execute (CreateTable "organization_questionnaires"
      organization_questionnaires_cols
      [ FK "organization_id" "organizations" "id";
        FK "questionnaire_id" "questionnaires" "id" ]);
    Info (created "organization_questionnaires");
    Execute (CreateTable "organization_users" organization_users_cols
      [ FK "organization_id" "organizations" "id";
        FK "user_id" "users" "id" ]);
    Info (created "organization_users");
    Execute (CreateTable "blog_posts" blog_posts_cols []);
    Info (created "blog_posts");
    Execute (CreateTable "mystery_assessments" mystery_assessments_cols []);
    Info (created "mystery_assessments");
    Execute (CreateTable "mystery_assessment_images"
      mystery_assessment_images_cols
      [ FK "mystery_assessment_id" "mystery_assessments" "id" ]);
    Info (created "mystery_assessment_images");
    Execute (CreateTable "mystery_sessions" mystery_sessions_cols
      [ FK "user_id" "users" "id";
        FK "mystery_assessment_id" "mystery_assessments" "id" ]);
    Info (created "mystery_sessions");
    Execute (AlterAdd "mystery_assessments"
      [ Add (c "bubble_prompt") (Some "analysis_prompt") ]) ].

(** The create-table statements of a script, in the order they are issued:
    the table's name and the tables its foreign keys point to. *)
Definition creations (script : list action) : list (string * list string) :=
  omap (fun a =>
          match a with
          | Execute (CreateTable n _ fks) => Some (n, fk_table <$> fks)
          | _ => None
          end) script.

(** ** Seed reconciliation (lines 266-336) *)

(** An entry of [PERSONALITY_TEST_SEED]: the keys read with [test[...]] are
    required, those read with [test.get(...)] may be missing. *)
Record SeedTest (H : Type) := {
  seed_name : string;
  seed_slug : string;
  seed_tagline : string;
  seed_description : string;
  seed_report_name : string;
  seed_highlights : H;
  seed_persona_name : option value;
  seed_initial_prompt : option value;
  seed_persona_prompt : option value;
  seed_analysis_prompt : option value;
  seed_has_timer : option value;
  seed_timer_duration : option value;
  seed_model : option value;
  seed_is_active : option value
}.
Arguments seed_name {H}.
Arguments seed_slug {H}.
Arguments seed_tagline {H}.
Arguments seed_description {H}.
Arguments seed_report_name {H}.
Arguments seed_highlights {H}.
Arguments seed_persona_name {H}.
Arguments seed_initial_prompt {H}.
Arguments seed_persona_prompt {H}.
Arguments seed_analysis_prompt {H}.
Arguments seed_has_timer {H}.
Arguments seed_timer_duration {H}.
Arguments seed_model {H}.
Arguments seed_is_active {H}.

Definition insert_cols : list string :=
  [ "name"; "slug"; "tagline"; "description"; "report_name"; "highlights";
    "persona_name"; "initial_prompt"; "persona_prompt"; "analysis_prompt";
    "has_timer"; "timer_duration"; "model"; "is_active" ].

Definition update_cols : list string :=
  [ "tagline"; "description"; "report_name"; "highlights"; "persona_name";
    "initial_prompt"; "persona_prompt"; "analysis_prompt"; "has_timer";
    "timer_duration"; "model"; "is_active" ].

Section Seed.

(** [app/personality_seed.py] is not among the sources: the seed list and the
    JSON encoder are parameters. *)
Variable Highlights : Type.
Variable json_dumps : Highlights -> string.
Variable PERSONALITY_TEST_SEED : list (SeedTest Highlights).

(** The twelve values both statements bind for the mutable columns. *)
Definition mutable_values (test : SeedTest Highlights) : list value :=
  [ VStr (seed_tagline test);
    VStr (seed_description test);
    VStr (seed_report_name test);
    VStr (json_dumps (seed_highlights test));
    default default_persona_name (seed_persona_name test);
    default VNull (seed_initial_prompt test);
    default VNull (seed_persona_prompt test);
    default VNull (seed_analysis_prompt test);
    default (VBool false) (seed_has_timer test);
    default VNull (seed_timer_duration test);
    default VNull (seed_model test);
    default (VBool true) (seed_is_active test) ].

Definition insert_values (test : SeedTest Highlights) : list value :=
  VStr (seed_name test) :: VStr (seed_slug test) :: mutable_values test.

Definition update_values (test : SeedTest Highlights) : list value :=
  mutable_values test ++ [ VStr (seed_slug test) ].

Definition placeholder_group : string :=
  "(%s, %s, %s, %s, %s, %s, %s, %s, %s, %s, %s, %s, %s, %s)".

Definition seed_insert_query (placeholders : string) : Query :=
  Q ("INSERT INTO personality_assessments (" +:+ String.concat ", " insert_cols
       +:+ ") VALUES " +:+ placeholders)
    (Insert PA insert_cols (length PERSONALITY_TEST_SEED)).

Definition seed_update_query : Query :=
  literal (Update PA update_cols "slug").

Definition reconcile_seed : M unit :=
  r ← cursor_execute (literal (SelectCount PA)) [];
  let count_row := fetchone r in
  count ← match count_row with
          | Some row1 =>
              match row1 !! "count" with
              | Some v => ret v
              | None => raise (KeyError "count")
              end
          | None => ret (VInt 0)
          end;
  if bool_decide (count = VInt 0) then
    let placeholders :=
      String.concat ", "
        (replicate (length PERSONALITY_TEST_SEED) placeholder_group) in
    let values := mjoin (insert_values <$> PERSONALITY_TEST_SEED) in
    if bool_decide (placeholders ≠ "") then
      cursor_execute (seed_insert_query placeholders) values;;
      log (LogInfo "  - داده‌های اولیه آزمون‌های شخصیتی اضافه شد.")
    else ret tt
  else
    for_each PERSONALITY_TEST_SEED (fun test =>
      cursor_execute seed_update_query (update_values test);; ret tt).

Definition run_action (a : action) : M unit :=
  match a with
  | Execute s => cursor_execute (literal s) [];; ret tt
  | Info msg => log (LogInfo msg)
  | ReconcileSeed => reconcile_seed
  end.

Definition run_script (script : list action) : M unit :=
  for_each script run_action.

Definition _initialize_schema : M unit := run_script schema_script.

(** [create_tables] (lines 128-140). *)
Definition create_tables : M bool :=
  connection (fun conn =>
    try_except
      (conn_begin conn;;
       _initialize_schema;;
       conn_commit conn;;
       log (LogInfo "✅ فرآیند ایجاد جداول با موفقیت به پایان رسید.");;
       ret true)
      (fun exc =>
         conn_rollback conn;;
         log (LogError "❌ خطا در هنگام ایجاد جداول: %s" exc);;
         ret false)).

End Seed.

End Database.

(* ===================================================================== *)
(** * services.py and the [/api] handler of main.py *)
(* ===================================================================== *)

Module Services.
Import Store Runtime Database.

(** A Python [dict] with string keys, in insertion order. *)
Abbreviation answers_dict := (list (string * value)).

(** [isinstance(value, int)]: [bool] is a subclass of [int]. *)
Definition isinstance_int (v : value) : bool :=
  match v with
  | VInt _ | VBool _ => true
  | _ => false
  end.

Definition int_value (v : value) : Z :=
  match v with
  | VInt z => z
  | VBool true => 1
  | _ => 0
  end.

(** [(not isinstance(value, int)) or value < 1 or value > 5]. *)
Definition out_of_range (v : value) : bool :=
  negb (isinstance_int v) || (int_value v <? 1) || (int_value v >? 5).

(** The guard of line 32. *)
Definition invalid_answers (answers : answers_dict) : bool :=
  bool_decide (length answers ≠ 22%nat) || existsb out_of_range (answers.*2).

Definition SELF_ASSESSMENT : string := "soft_skills_self_assessment".

Definition insert_query : Query :=
  Q "INSERT INTO soft_skills_self_assessment (user_id) VALUES (%s)"
    (Insert SELF_ASSESSMENT ["user_id"] 1).

(** [", ".join(f"{key} = %s" for key in answers.keys())]. *)
Definition set_clause (answers : answers_dict) : string :=
  String.concat ", " ((fun key => key +:+ " = %s") <$> answers.*1).

(** [f"UPDATE soft_skills_self_assessment SET {set_clause} WHERE id = %s"]. *)
Definition update_query (answers : answers_dict) : Query :=
  Q ("UPDATE soft_skills_self_assessment SET " +:+ set_clause answers
       +:+ " WHERE id = %s")
    (Update SELF_ASSESSMENT (answers.*1) "id").

(** The JSON object a service returns or a handler sends. *)
Record Payload := {
  success : bool;
  message : string;
  assessmentId : option Z       (* data.assessmentId *)
}.

(** [SelfAssessmentService.submit_answers] (lines 28-64). *)
Definition submit_answers (user_id : Z) (answers : answers_dict) : M Payload :=
  if bool_decide (user_id = 0) then
    raise (ServiceError "دسترسی غیرمجاز" 401)
  else if invalid_answers answers then
    raise (ServiceError "داده‌های ارسالی نامعتبر است" 400)
  else
    connection (fun conn =>
      try_except
        (conn_begin conn;;
         r ← cursor_execute insert_query [VInt user_id];
         let assessment_id := lastrowid r in
         let values := answers.*2 in
         cursor_execute (update_query answers) (values ++ [VInt assessment_id]);;
         conn_commit conn;;
         ret {| success := true;
                message := "پاسخ‌های شما با موفقیت ثبت شد.";
                assessmentId := Some assessment_id |})
        (fun exc =>
           conn_rollback conn;;
           log (LogException "Submit Self-Assessment Error" exc);;
           raise (ServiceError "خطای داخلی سرور" 500))).

(** ** main.py, lines 50-63 *)

Record User := { userId : option Z }.
Record Session := { session_user : option User }.      (* {"user": ...} *)
Record Response := { status_code : Z; body : Payload }.

(** [get_session] (token decoding) is the caller's business: the handler gets
    its result. *)
Definition submit_self_assessment (session : Session) (payload_answers : answers_dict)
    : M Response :=
  let user := session_user session in
  let user_id := match user with Some u => userId u | None => None end in
  let answers := payload_answers in
  try_except
    (result ← submit_answers (default 0 user_id) answers;
     ret {| status_code := 200; body := result |})
    (fun exc =>
       match exc with
       | ServiceError msg code =>
           ret {| status_code := code;
                  body := {| success := false; message := msg;
                             assessmentId := None |} |}
       | _ =>
           log (LogException "Submit Self-Assessment Unexpected Error: %s" exc);;
           ret {| status_code := 500;
                  body := {| success := false; message := "خطای داخلی سرور";
                             assessmentId := None |} |}
       end).

(** ** BlogService (lines 67-93) *)

(** Python's [int(str)] on ASCII input: surrounding whitespace, an optional
    sign, decimal digits with single underscores between them. *)
Definition is_space (a : ascii) : bool :=
  let n := nat_of_ascii a in
  ((9 <=? n) && (n <=? 13) || (28 <=? n) && (n <=? 32))%nat.

Definition is_digit (a : ascii) : bool :=
  let n := nat_of_ascii a in ((48 <=? n) && (n <=? 57))%nat.

Definition digit_value (a : ascii) : Z := Z.of_nat (nat_of_ascii a) - 48.

Fixpoint lstrip (s : string) : string :=
  match s with
  | String a rest => if is_space a then lstrip rest else s
  | EmptyString => EmptyString
  end.

Definition strip (s : string) : string :=
  String.rev (lstrip (String.rev (lstrip s))).

Fixpoint digits (s : string) (acc : Z) (after_digit : bool) : option Z :=
  match s with
  | EmptyString => if after_digit then Some acc else None
  | String a rest =>
      if is_digit a then digits rest (10 * acc + digit_value a) true
      else if Ascii.eqb a "_" && after_digit then digits rest acc false
      else None
  end.

Definition py_int (s : string) : option Z :=
  match strip s with
  | String "+" rest => digits rest 0 false
  | String "-" rest => Z.opp <$> digits rest 0 false
  | t => digits t 0 false
  end.

Section Blog.

(** The builtin [int]: [None] stands for [ValueError]. *)
Variable int_of_str : string -> option Z.

Definition builtin_int (s : string) : outcome Z :=
  match int_of_str s with
  | Some n => Ok n
  | None => Raise ValueError
  end.

(** [BlogService._sanitize_limit] (lines 71-81). *)
Definition _sanitize_limit (limit : option string) : outcome (option Z) :=
  match limit with
  | None => Ok None
  | Some text =>
      match builtin_int text with
      | Ok parsed =>
          if parsed <=? 0 then Ok None
          else Ok (Some (Z.min parsed 50))
      | Raise ValueError => Ok None
      | Raise e => Raise e
      | Hang => Hang
      end
  end.

Definition base_query : string :=
  "SELECT id, title, slug, excerpt, cover_image_url, author, published_at, created_at "
  +:+ "FROM blog_posts "
  +:+ "WHERE is_published = 1 "
  +:+ "ORDER BY COALESCE(published_at, created_at) DESC".

Definition published : option (string * value) := Some ("is_published", VBool true).

(** The call [list_posts] makes: query and bound parameters. *)
Definition list_posts_call (sanitized : option Z) : Query * list value :=
  match sanitized with
  | Some n =>
      if bool_decide (n ≠ 0)
      then (Q (base_query +:+ " LIMIT %s") (Select "blog_posts" published true),
            [VInt n])
      else (Q base_query (Select "blog_posts" published false), [])
  | None => (Q base_query (Select "blog_posts" published false), [])
  end.

(** [BlogService.list_posts] (lines 83-93). *)
Definition list_posts (limit : option string) : M (list row) :=
  match _sanitize_limit limit with
  | Ok sanitized =>
      let call := list_posts_call sanitized in
      fetch_all call.1 call.2
  | Raise e => raise e
  | Hang => fun w => (Hang, w)
  end.

End Blog.

End Services.

(* ===================================================================== *)
(** * Concurrent callers of [get_pool] *)
(* ===================================================================== *)

Module PoolRace.

(** [get_pool] has one suspension point, the [await] on [create_pool].  A
    caller is before its test of [self._pool], suspended in [create_pool], or
    has returned a pool. *)
Inductive task :=
| Start
| Creating
| Returned (pool : nat).

Record shared := {
  pool_ref : option nat;      (* self._pool *)
  created : nat               (* pools created so far *)
}.

Definition state : Type := shared * list task.

(** The event loop resumes caller [i], which runs to its next suspension or
    to its return. *)
Definition step (i : nat) (s : state) : option state :=
  match s.2 !! i with
  | Some Start =>
      match pool_ref s.1 with
      | Some p => Some (s.1, <[i := Returned p]> s.2)
      | None => Some (s.1, <[i := Creating]> s.2)
      end
  | Some Creating =>
      let p := created s.1 in
      Some ({| pool_ref := Some p; created := S p |}, <[i := Returned p]> s.2)
  | _ => None
  end.

Fixpoint run (schedule : list nat) (s : state) : option state :=
  match schedule with
  | [] => Some s
  | i :: rest =>
      match step i s with
      | Some s' => run rest s'
      | None => None
      end
  end.

(** [n] callers on a manager that has no pool yet. *)
Definition init (n : nat) : state :=
  ({| pool_ref := None; created := 0 |}, replicate n Start).

End PoolRace.

(* ===================================================================== *)
(** * Derived notions used by the statements *)
(* ===================================================================== *)

Module Aux.
Import Store Runtime Database Services.

(** The part of the world that only the pool touches; and no failure is
    injected where none was planned. *)
Definition frame (w w' : World) : Prop :=
  w_pool w' = w_pool w /\
  w_created w' = w_created w /\ w_config w' = w_config w /\
  (w_faults w = [] -> w_faults w' = []).

(** A computation that commits nothing: it has no data definition statement
    and no [commit]. *)
Definition keeps_committed {A} (m : M A) : Prop :=
  forall w r w', m w = (r, w') -> w_db w' = w_db w.

(** Borrowed handles are older than the next fresh one. *)
Definition pool_wf (w : World) : Prop :=
  match w_pool w with
  | Some p => Forall (fun c => c < pool_next p)%nat (pool_used p)
  | None => True
  end.

(** A connection can be handed out without waiting. *)
Definition has_capacity (w : World) : Prop :=
  match w_pool w with
  | Some p => (length (pool_used p) < pool_maxsize p)%nat
  | None => (0 < maxsize (w_config w))%nat
  end.

(** Statement texts handed to [cursor.execute], in order. *)
Definition issued_sql (w : World) : list string :=
  omap (fun e => match e with EvExecute text _ => Some text | _ => None end)
       (w_trace w).

(** The table a statement works on. *)
Definition target (s : stmt) : string :=
  match s with
  | CreateTable n _ _ => n
  | AlterAdd t _ => t
  | SelectCount t => t
  | Insert t _ _ => t
  | Update t _ _ => t
  | Select t _ _ => t
  end.

(** ** What [_initialize_schema] does to the store contents *)

Section Denotation.

Variable Highlights : Type.
Variable json_dumps : Highlights -> string.
Variable PERSONALITY_TEST_SEED : list (SeedTest Highlights).

Fixpoint update_all (tests : list (SeedTest Highlights)) (d : DB) : option DB :=
  match tests with
  | [] => Some d
  | test :: rest =>
      match exec_stmt d (Update PA update_cols "slug")
                      (update_values Highlights json_dumps test) with
      | Some (d', _) => update_all rest d'
      | None => None
      end
  end.

Definition seed_db (d : DB) : option DB :=
  match exec_stmt d (SelectCount PA) [] with
  | Some (d1, r) =>
      match (match fetchone r with
             | Some row1 => row1 !! "count"
             | None => Some (VInt 0)
             end) with
      | Some count =>
          if bool_decide (count = VInt 0) then
            if bool_decide
                 (String.concat ", "
                    (replicate (length PERSONALITY_TEST_SEED)
                               placeholder_group) ≠ "")
            then
              fst <$> exec_stmt d1
                (Insert PA insert_cols (length PERSONALITY_TEST_SEED))
                (mjoin (insert_values Highlights json_dumps
                          <$> PERSONALITY_TEST_SEED))
            else Some d1
          else update_all PERSONALITY_TEST_SEED d1
      | None => None
      end
  | None => None
  end.

Definition action_db (a : action) (d : DB) : option DB :=
  match a with
  | Execute s => fst <$> exec_stmt d s []
  | Info _ => Some d
  | ReconcileSeed => seed_db d
  end.

Fixpoint script_db (script : list action) (d : DB) : option DB :=
  match script with
  | [] => Some d
  | a :: rest =>
      match action_db a d with
      | Some d' => script_db rest d'
      | None => None
      end
  end.

(** How far a script gets: the contents after the last step the store
    accepts. *)
Fixpoint script_reach (script : list action) (d : DB) : DB :=
  match script with
  | [] => d
  | a :: rest =>
      match action_db a d with
      | Some d' => script_reach rest d'
      | None => d
      end
  end.

(** One pass of the seed's [UPDATE]s over a row. *)
Definition update_row (test : SeedTest Highlights) (r : row) : row :=
  if matches "slug" (VStr (seed_slug test)) r
  then assign (zip update_cols (mutable_values Highlights json_dumps test)) r
  else r.

Definition update_pass (tests : list (SeedTest Highlights)) (r : row) : row :=
  foldl (fun r test => update_row test r) r tests.

(** The seed entry whose [UPDATE] is the last to hit a row. *)
Definition last_match (tests : list (SeedTest Highlights)) (r : row)
    : option (SeedTest Highlights) :=
  foldl (fun acc test =>
           if matches "slug" (VStr (seed_slug test)) r then Some test else acc)
        None tests.

(** Seed reconciliation, seen from the seeded table. *)
Definition seed_table (T : table) : option table :=
  match PERSONALITY_TEST_SEED with
  | [] => Some T
  | _ :: _ =>
      match t_rows T with
      | [] =>
          if has_cols T insert_cols
          then Some (insert_rows T insert_cols
                       (insert_values Highlights json_dumps
                          <$> PERSONALITY_TEST_SEED))
          else None
      | _ :: _ =>
          if has_cols T update_cols && has_col T "slug"
          then Some (Table (t_cols T)
                       (update_pass PERSONALITY_TEST_SEED <$> t_rows T)
                       (t_auto T))
          else None
      end
  end.

End Denotation.

(** An action whose effect is already in place. *)
Definition settled {H} (jd : H -> string) (seed : list (SeedTest H))
    (a : action) (d : DB) : Prop :=
  match a with
  | Execute (CreateTable n _ _) => is_Some (d !! n)
  | Execute (AlterAdd t adds) =>
      exists T, d !! t = Some T /\
        Forall (fun a => has_col T (col_name (add_def a)) = true) adds
  | Execute _ => False
  | Info _ => True
  | ReconcileSeed =>
      exists T, d !! PA = Some T /\ seed_table H jd seed T = Some T
  end.

(** The steps that commit: the data definition statements. *)
Definition commits (a : action) : bool :=
  match a with
  | Execute s => is_ddl s
  | Info _ | ReconcileSeed => false
  end.

(** The steps a schema script is made of. *)
Definition is_schema_step (a : action) : bool :=
  match a with
  | Execute (CreateTable _ _ _) | Execute (AlterAdd _ _) => true
  | Execute _ => false
  | Info _ | ReconcileSeed => true
  end.

(** [b] may follow [a]: nothing after the seed step reshapes the seeded
    table or seeds again. *)
Definition may_follow (a b : action) : bool :=
  match a, b with
  | ReconcileSeed, Execute (CreateTable _ _ _) => true
  | ReconcileSeed, Execute s => negb (bool_decide (target s = PA))
  | ReconcileSeed, Info _ => true
  | ReconcileSeed, ReconcileSeed => false
  | _, _ => true
  end.

Fixpoint well_ordered (script : list action) : bool :=
  match script with
  | [] => true
  | a :: rest =>
      is_schema_step a && forallb (may_follow a) rest && well_ordered rest
  end.


(** A computation that only works on the open transaction: [f] is what it
    does to the store contents. *)
Definition denotes {A} (m : M A) (f : DB -> option (DB * A)) : Prop :=
  (forall w r w', m w = (r, w') ->
     frame w w' /\
     match r with
     | Ok a => f (w_work w) = Some (w_work w', a)
     | Raise _ => True
     | Hang => False
     end)
  /\ (forall w d' a, w_faults w = [] -> f (w_work w) = Some (d', a) ->
        exists w', m w = (Ok a, w') /\ w_work w' = d' /\ w_faults w' = []).


(** The world in which the block under [async with self.connection() as conn]
    starts: pool obtained, connection borrowed and probed. *)
Definition entered (w : World) : option (nat * nat * World) :=
  match get_pool w with
  | (Ok pool, w1) =>
      match pool_acquire pool w1 with
      | (Ok conn, w2) =>
          match conn_ping conn w2 with
          | (Ok _, w3) => Some (pool, conn, w3)
          | _ => None
          end
      | _ => None
      end
  | _ => None
  end.

(** Pool operations neither touch the store nor issue statements. *)
Definition untouched (w w' : World) : Prop :=
  w_db w' = w_db w /\ w_work w' = w_work w /\ w_config w' = w_config w /\
  issued_sql w' = issued_sql w.


(** How many [acquire]s and [release]s have happened. *)
Definition is_acquire (e : event) : bool :=
  match e with EvAcquire _ => true | _ => false end.

Definition is_release (e : event) : bool :=
  match e with EvRelease _ => true | _ => false end.

Definition acquired (w : World) : nat :=
  length (List.filter is_acquire (w_trace w)).

Definition released (w : World) : nat :=
  length (List.filter is_release (w_trace w)).

(** A block that gives back what it borrows, on every path on which it ends. *)
Definition balanced {A} (body : nat -> M A) : Prop :=
  forall c w r w', pool_wf w -> body c w = (r, w') -> r ≠ Hang ->
    borrowed w' = borrowed w /\ pool_wf w' /\
    (acquired w' + released w = acquired w + released w')%nat.

(** [n] borrows held at the same time, the innermost block failing with [e]. *)
Fixpoint overlapping (n : nat) (e : exn) : M unit :=
  match n with
  | O => raise e
  | S k => connection (fun _ => overlapping k e)
  end.

(** The driver call that comes next goes through. *)
Definition next_call_ok (w : World) : bool :=
  match w_faults w with
  | true :: _ => false
  | _ => true
  end.

(** The statement texts [submit_answers] issues for a dictionary with the
    given keys, for any user and any values. *)
Definition submit_texts (w : World) (keys : list string) : list string :=
  match entered w with
  | None => []
  | Some (_, conn, w3) =>
      match conn_begin conn w3 with
      | (Ok _, wb) =>
          q_text insert_query ::
          (if next_call_ok wb &&
              bool_decide (is_Some (exec_stmt (w_db w3)
                                      (Insert SELF_ASSESSMENT ["user_id"] 1)
                                      [VNull]))
           then [ "UPDATE soft_skills_self_assessment SET " +:+
                  String.concat ", " ((fun key => key +:+ " = %s") <$> keys)
                  +:+ " WHERE id = %s" ]
           else [])
      | _ => []
      end
  end.

(** Once a pool is stored and nobody is creating one, every caller gets that
    pool and none is created. *)
Definition memoized (s : PoolRace.state) : Prop :=
  PoolRace.created s.1 = 1%nat /\ PoolRace.pool_ref s.1 = Some 0%nat /\
  Forall (fun t => t = PoolRace.Start \/ t = PoolRace.Returned 0) s.2.

(** Every foreign key points to a table created earlier. *)
Fixpoint references_earlier (seen : list string)
    (l : list (string * list string)) : bool :=
  match l with
  | [] => true
  | (n, refs) :: rest =>
      forallb (fun t => bool_decide (t ∈ seen)) refs
      && references_earlier (seen ++ [n]) rest
  end.

End Aux.

(* ===================================================================== *)
(** * Concrete worlds and inputs *)
(* ===================================================================== *)

Module Examples.
Import Store Runtime Database Services.

Definition config : DatabaseConfig :=
  {| host := "localhost"; user := "root"; password := ""; db := Some "booteh";
     port := 3306; minsize := 1; maxsize := 15; autocommit := false;
     charset := "utf8mb4"; pool_recycle := 3600 |}.

(** A fresh process on a store with contents [d]. *)
Definition boot (d : DB) : World :=
  {| w_config := config; w_pool := None; w_created := 0; w_db := d;
     w_work := d; w_faults := []; w_trace := []; w_log := [] |}.

(** The same process with a connection that is lost at the ninth driver
    call. *)
Definition ninth_call_fails : list bool := replicate 8 false ++ [true].

Definition boot_with (plan : list bool) (d : DB) : World :=
  set_faults plan (boot d).

(** Seed entries whose highlights are already JSON text. *)
Definition test (name slug tagline : string) : SeedTest string :=
  {| seed_name := name; seed_slug := slug; seed_tagline := tagline;
     seed_description := "description of " +:+ name;
     seed_report_name := "report"; seed_highlights := "[]";
     seed_persona_name := None; seed_initial_prompt := None;
     seed_persona_prompt := None; seed_analysis_prompt := None;
     seed_has_timer := None; seed_timer_duration := Some (VInt 20);
     seed_model := None; seed_is_active := None |}.

Definition seed_ABC : list (SeedTest string) :=
  [ test "Alpha" "A" "new tagline A";
    test "Beta" "B" "new tagline B";
    test "Gamma" "C" "tagline C" ].

Definition old_row (id : Z) (name slug : string) : row :=
  list_to_map
    [ ("id", VInt id); ("name", VStr name); ("slug", VStr slug);
      ("tagline", VStr "old tagline"); ("description", VStr "old");
      ("report_name", VStr "old report"); ("highlights", VStr "[]");
      ("persona_name", default_persona_name); ("initial_prompt", VNull);
      ("persona_prompt", VNull); ("analysis_prompt", VNull);
      ("has_timer", VBool false); ("timer_duration", VNull);
      ("model", VNull); ("is_active", VBool true) ].

(** The reference table holding rows keyed A and B. *)
Definition table_AB : table :=
  Table personality_assessments_cols
        [ old_row 1 "Alpha" "A"; old_row 2 "Beta" "B" ] 3.

Definition store_AB : DB := {[ PA := table_AB ]}.

(** A store left by an older deployment: [questionnaires] lacks the column
    the first [ALTER TABLE] anchors on. *)
Definition store_legacy : DB :=
  {[ "questionnaires" := Table [ c "id"; c "name" ] [] 1 ]}.

(** The self-assessment table with one column per question. *)
Definition question_cols : list string :=
  [ "q1"; "q2"; "q3"; "q4"; "q5"; "q6"; "q7"; "q8"; "q9"; "q10"; "q11";
    "q12"; "q13"; "q14"; "q15"; "q16"; "q17"; "q18"; "q19"; "q20"; "q21";
    "q22" ].

Definition self_assessment_table : table :=
  Table (c "id" :: c "user_id" :: (c <$> question_cols)) [] 1.

Definition store_self : DB := {[ SELF_ASSESSMENT := self_assessment_table ]}.

(** 22 answers, all 3, keyed by the question columns. *)
Definition answers_ok : answers_dict := (fun k => (k, VInt 3)) <$> question_cols.

(** The same answers with the first key replaced. *)
Definition answers_other_key : answers_dict :=
  ("favourite_colour", VInt 3) :: drop 1 answers_ok.

Definition answers_21 : answers_dict := drop 1 answers_ok.

Definition answers_with_6 : answers_dict := ("q1", VInt 6) :: drop 1 answers_ok.

End Examples.

(* ===================================================================== *)
(** * auth.py: tokens, sessions and the admin check *)
(* ===================================================================== *)

Module Auth.
Import Store.

(** A Python [dict] with string keys and scalar values: the claims of a
    token, a session user. *)
Abbreviation dict := (gmap string value).

(** [d.get(key)] and [d.get(key, default)]. *)
Definition get (d : dict) (key : string) : value := default VNull (d !! key).

Definition get_or (d : dict) (key : string) (dflt : value) : value :=
  default dflt (d !! key).

(** [s[n:]].  It is only used behind [startswith("Bearer ")], where the first
    seven characters are ASCII. *)
Fixpoint slice_from (n : nat) (s : string) : string :=
  match n, s with
  | O, _ => s
  | S k, String _ rest => slice_from k rest
  | S _, EmptyString => EmptyString
  end.

(** [s.startswith(prefix)]. *)
Definition startswith (s prefix : string) : bool := String.prefix prefix s.

(** [not s] for an optional string: [None] and the empty string are falsy. *)
Definition falsy (s : option string) : bool :=
  match s with
  | Some t => String.eqb t ""
  | None => true
  end.

(** [extract_token_from_header] (lines 60-63). *)
Definition extract_token_from_header (header : option string) : option string :=
  match header with
  | Some h =>
      if falsy header || negb (startswith h "Bearer ") then None
      else Some (slice_from 7 h)
  | None => None
  end.

(** What [logger.debug] is given, in order. *)
Abbreviation debug_log := (list string).

(** A request as the functions of this module read it. *)
Record Request := {
  cookies : option (gmap string string);   (* [None]: reading the cookies raises *)
  headers : string -> option string        (* [request.headers.get] *)
}.

Definition missing_token_message : string := "توکن احراز هویت ارسال نشده است".
Definition not_admin_message : string := "دسترسی غیرمجاز. شما ادمین نیستید.".

Section Tokens.

(** PyJWT with [JWT_SECRET] and [JWT_ALGORITHM], and the clock, are the
    environment's: [jwt_decode] gives [None] where [jwt.decode] raises a
    [PyJWTError]; [timestamp_in n] is
    [int((datetime.utcnow() + timedelta(seconds=n)).timestamp())]. *)
Variable jwt_encode : dict -> string.
Variable jwt_decode : string -> option dict.
Variable timestamp_in : Z -> Z.

(** The payload [generate_token] signs (lines 34-42). *)
Definition token_payload (user_id : Z) (username : string) (role : option string)
    (organization_id : option Z) (expires_in_seconds : option Z) : dict :=
  let role := default "user" role in
  let expires_in_seconds := default (7 * 24 * 60 * 60) expires_in_seconds in
  list_to_map
    [ ("userId", VInt user_id);
      ("username", VStr username);
      ("role", VStr role);
      ("organizationId", from_option VInt VNull organization_id);
      ("iat", VInt (timestamp_in 0));
      ("exp", VInt (timestamp_in expires_in_seconds)) ].

(** [generate_token] (lines 27-44); an omitted argument is [None]. *)
Definition generate_token (user_id : Z) (username : string) (role : option string)
    (organization_id : option Z) (expires_in_seconds : option Z) : string :=
  jwt_encode (token_payload user_id username role organization_id
                expires_in_seconds).

(** [authenticate_token] (lines 47-57). *)
Definition authenticate_token (token : string) : debug_log * option dict :=
  match jwt_decode token with
  | Some decoded =>
      ([], Some (list_to_map
                   [ ("userId", get decoded "userId");
                     ("username", get decoded "username");
                     ("role", get_or decoded "role" (VStr "user"));
                     ("organizationId", get decoded "organizationId") ]))
  | None => (["Token verification failed: %s"], None)
  end.

(** [not decoded] for an optional dict: [None] and the empty dict are falsy. *)
Definition no_claims (decoded : option dict) : bool :=
  match decoded with
  | Some d => bool_decide (d = ∅)
  | None => true
  end.

(** [get_session] (lines 66-93): the value under ["user"]. *)
Definition get_session (request : Request) : debug_log * option dict :=
  let '(log1, token) :=
    match cookies request with
    | Some jar => ([], jar !! "authToken")
    | None => (["Auth Debug - failed to read cookies: %s"], None)
    end in
  let token :=
    if falsy token
    then extract_token_from_header (headers request "Authorization")
    else token in
  match token with
  | Some t =>
      if falsy token
      then (log1 ++ ["Auth Debug - authToken missing on request"], None)
      else
        let '(log2, decoded) := authenticate_token t in
        match decoded with
        | Some d =>
            if no_claims decoded then (log1 ++ log2, None)
            else
              (log1 ++ log2 ++ ["Auth Debug - token decoded for user: %s"],
               Some (list_to_map
                       [ ("userId", get d "userId");
                         ("username", get d "username");
                         ("role", get_or d "role" (VStr "user"));
                         ("organizationId", get d "organizationId") ]))
        | None => (log1 ++ log2, None)
        end
  | None => (log1 ++ ["Auth Debug - authToken missing on request"], None)
  end.

(** [verify_admin] (lines 96-106): the pair it returns. *)
Definition verify_admin (request : Request)
    : debug_log * (option dict * option string) :=
  let token := extract_token_from_header (headers request "Authorization") in
  match token with
  | Some t =>
      if falsy token then ([], (None, Some missing_token_message))
      else
        let '(log1, decoded) := authenticate_token t in
        match decoded with
        | Some d =>
            if no_claims decoded
               || negb (bool_decide (get d "role" = VStr "admin"))
            then (log1, (None, Some not_admin_message))
            else (log1, (decoded, None))
        | None => (log1, (None, Some not_admin_message))
        end
  | None => ([], (None, Some missing_token_message))
  end.

End Tokens.

End Auth.

(* ===================================================================== *)
(** * database.py: closing the pool and probing the connection *)
(* ===================================================================== *)

Module Lifecycle.
Import Store Runtime Database.

(** [pool.close()] marks the pool as closing; [pool.wait_closed()] returns
    once every connection of the pool has been given back. *)
Definition pool_close (p : Pool) : M unit := ret tt.

Definition pool_wait_closed (p : Pool) : M unit :=
  fun w => if bool_decide (pool_used p = []) then (Ok tt, w) else (Hang, w).

(** [self._pool = None]. *)
Definition forget_pool : M unit :=
  fun w => (Ok tt, set_pool None (w_created w) w).

(** [DatabaseManager.close] (lines 72-76). *)
Definition close : M unit :=
  cur ← read_pool;
  match cur with
  | Some p => pool_close p;; pool_wait_closed p;; forget_pool
  | None => ret tt
  end.

(** [DatabaseManager.test_connection] (lines 117-126). *)
Definition test_connection : M bool :=
  try_except
    (with_acquired (fun conn => conn_ping conn);;
     log (LogInfo "✅ اتصال به دیتابیس MySQL با موفقیت برقرار شد.");;
     ret true)
    (fun exc =>
       log (LogError "❌ خطا در اتصال به دیتابیس: %s" exc);;
       ret false).

End Lifecycle.

(* ===================================================================== *)
(** * services.py and main.py: listings, health and set-up endpoints *)
(* ===================================================================== *)

Module Endpoints.
Import Store Runtime Database Services Lifecycle.

(** What a handler sends: its return value (status 200), or a [JSONResponse]
    with an error status. *)
Inductive reply (A E : Type) :=
| Data (payload : A)
| Failure (status_code : Z) (error : E).
Arguments Data {A E} payload.
Arguments Failure {A E} status_code error.

(** The two [except] clauses most handlers share: a [ServiceError] is sent
    with its own status and message, anything else is logged and sent as
    status 500 with a fixed message. *)
Definition guarded {A} (call : M A) (log_message message : string)
    : M (reply A string) :=
  try_except
    (result ← call; ret (Data result))
    (fun exc =>
       match exc with
       | ServiceError msg code => ret (Failure code msg)
       | _ =>
           log (LogException log_message exc);;
           ret (Failure 500 message)
       end).

(** ** PersonalityService (lines 120-146) *)

Section Personality.

(** [json.loads]: [None] where it raises; [empty_list] is [[]]. *)
Variable Json : Type.
Variable json_loads : string -> option Json.
Variable empty_list : Json.

(** A cell of a listed row: as the store gave it, or decoded JSON. *)
Inductive cell :=
| Plain (v : value)
| Decoded (j : Json).

Definition truthy (v : value) : bool :=
  match v with
  | VNull => false
  | VInt z => negb (z =? 0)
  | VStr s => negb (String.eqb s "")
  | VBool b => b
  end.

(** The body of the loop over the rows (lines 134-145). *)
Definition with_highlights (r : row) : gmap string cell :=
  let listed : gmap string cell := Plain <$> r in
  let highlights := Auth.get r "highlights" in
  if truthy highlights then
    match highlights with
    | VStr text =>
        match json_loads text with
        | Some j => <["highlights" := Decoded j]> listed
        | None => <["highlights" := Decoded empty_list]> listed
        end
    | _ => <["highlights" := Plain highlights]> listed
    end
  else <["highlights" := Decoded empty_list]> listed.

Definition personality_query : Query :=
  Q "
            SELECT id, name, slug, tagline, description, report_name, highlights
            FROM personality_assessments
            WHERE is_active = 1
            ORDER BY id ASC
        "
    (Select PA (Some ("is_active", VBool true)) false).

(** [PersonalityService.list_tests]. *)
Definition list_tests : M (list (gmap string cell)) :=
  rows ← fetch_all personality_query [];
  ret (with_highlights <$> rows).

(** [get_personality_tests] (main.py, lines 86-93). *)
Definition get_personality_tests : M (reply (list (gmap string cell)) string) :=
  try_except
    (rows ← list_tests; ret (Data rows))
    (fun exc =>
       log (LogException "Get Personality Tests Error: %s" exc);;
       ret (Failure 500 "خطای سرور")).

End Personality.

Arguments Plain {Json} v.
Arguments Decoded {Json} j.

(** ** The blog listing (main.py, lines 66-75) *)

Section Blog.

Variable int_of_str : string -> option Z.

Definition get_blog_posts (limit : option string) : M (reply (list row) string) :=
  guarded (list_posts int_of_str limit) "Get Blog Posts Error: %s" "خطای سرور".

End Blog.

(** ** HealthService (lines 149-182) *)

Section Health.

(** The clock and the process environment: [utcnow_isoformat] is
    [datetime.utcnow().isoformat()]; [getenv name] is [None] where the
    variable is not set. *)
Variable utcnow_isoformat : string.
Variable getenv : string -> option string.

Definition health_status : M Auth.dict :=
  db_connected ← test_connection;
  ret (list_to_map
         [ ("status", VStr "ok");
           ("timestamp", VStr utcnow_isoformat);
           ("database",
            VStr (if (db_connected : bool) then "connected" else "disconnected")) ]
       : Auth.dict).

Definition environment_status : M Auth.dict :=
  payload ← health_status;
  ret (<["environment" :=
           VStr (default (default "development" (getenv "ENVIRONMENT"))
                         (getenv "NODE_ENV"))]> payload
       : Auth.dict).

(** [health_check] (main.py, lines 98-111): on failure it sends the clock
    reading and [str(exc)]. *)
Definition health_check : M (reply Auth.dict (string * exn)) :=
  try_except
    (payload ← environment_status; ret (Data payload))
    (fun exc =>
       log (LogException "Health check failed: %s" exc);;
       ret (Failure 500 (utcnow_isoformat, exc))).

End Health.

(** ** Database set-up (services.py, lines 169-182; main.py, lines 155-166) *)

(** The dictionary [verify_database] returns. *)
Record SetupReport := {
  setup_success : bool;
  setup_message : string;
  setup_connection : string;     (* data.connection *)
  setup_tables : string          (* data.tables *)
}.

Section Setup.

Variable Highlights : Type.
Variable json_dumps : Highlights -> string.
Variable PERSONALITY_TEST_SEED : list (SeedTest Highlights).

Definition verify_database : M SetupReport :=
  is_connected ← test_connection;
  if negb is_connected then
    raise (ServiceError "خطا در اتصال به دیتابیس" 500)
  else
    tables_created ← create_tables Highlights json_dumps PERSONALITY_TEST_SEED;
    if negb tables_created then
      raise (ServiceError "خطا در ایجاد جداول" 500)
    else
      ret {| setup_success := true;
             setup_message := "دیتابیس با موفقیت راه‌اندازی شد";
             setup_connection := "OK";
             setup_tables := "Created" |}.

Definition api_test_db : M (reply SetupReport string) :=
  guarded verify_database "خطا در تست دیتابیس: %s" "خطای سرور در تست دیتابیس".

End Setup.

End Endpoints.

(* ===================================================================== *)
(** * Further notions used by the statements *)
(* ===================================================================== *)

Module Derived.
Import Store Runtime Database Services Aux Auth Lifecycle Endpoints.

(** What a session or an admin check keeps of a token's claims. *)
Definition claims_view (claims : dict) : dict :=
  list_to_map
    [ ("userId", get claims "userId");
      ("username", get claims "username");
      ("role", get_or claims "role" (VStr "user"));
      ("organizationId", get claims "organizationId") ].

(** A request whose only header is [Authorization]. *)
Definition with_authorization (authorization : option string) (name : string)
    : option string :=
  if String.eqb name "Authorization" then authorization else None.

(** A computation that leaves the pool alone and ends. *)
Definition pool_neutral {A} (m : M A) : Prop :=
  forall w r w', m w = (r, w') ->
    r ≠ Hang /\ w_pool w' = w_pool w /\
    acquired w' = acquired w /\ released w' = released w.

(** Borrows and returns recorded between two worlds cancel out. *)
Definition no_leak (w w' : World) : Prop :=
  borrowed w' = borrowed w /\
  (acquired w' + released w = acquired w + released w')%nat.

(** One statement run once per parameter tuple, in order. *)
Fixpoint exec_many (d : DB) (s : stmt) (params_seq : list (list value))
    : option DB :=
  match params_seq with
  | [] => Some d
  | params :: rest =>
      match exec_stmt d s params with
      | Some (d', _) => exec_many d' s rest
      | None => None
      end
  end.

(** The result of a call, seen through [f]. *)
Definition map_outcome {A B} (f : A -> B) (r : outcome A) : outcome B :=
  match r with
  | Ok a => Ok (f a)
  | Raise e => Raise e
  | Hang => Hang
  end.

(** The exceptions that come out of the driver. *)
Definition driver_error (e : exn) : Prop := e = MySQLError \/ e = AssertionError.

(** The rows a listing of published posts may show. *)
Definition published_rows (T : table) : list row :=
  filter (fun r : row => r !! "is_published" = Some (VBool true)) (t_rows T).

End Derived.

(* ===================================================================== *)
(** * Further concrete inputs *)
(* ===================================================================== *)

Module Samples.
Import Store Runtime Database Services Auth Lifecycle Endpoints Derived.

Definition admin_claims : dict :=
  list_to_map [ ("userId", VInt 1); ("username", VStr "root");
                ("role", VStr "admin") ].

(** Claims without a role. *)
Definition member_claims : dict :=
  list_to_map [ ("userId", VInt 7); ("username", VStr "sara");
                ("organizationId", VInt 3) ].

(** A verifier that knows two tokens. *)
Definition toy_decode (token : string) : option dict :=
  if String.eqb token "admin-token" then Some admin_claims
  else if String.eqb token "member-token" then Some member_claims
  else None.

(** A signer with one token, and the verifier that goes with it. *)
Definition toy_clock (n : Z) : Z := 1700000000 + n.

Definition toy_encode (payload : dict) : string := "issued".

Definition toy_verify (payload : dict) (token : string) : option dict :=
  if String.eqb token "issued" then Some payload else None.

(** A blog with two published posts and a draft. *)
Definition post (id : Z) (title : string) (is_published : bool) : row :=
  list_to_map [ ("id", VInt id); ("title", VStr title);
                ("is_published", VBool is_published) ].

Definition blog_table : table :=
  Table blog_posts_cols
        [ post 1 "first" true; post 2 "draft" false; post 3 "third" true ] 4.

Definition blog_store : DB := {[ "blog_posts" := blog_table ]}.

(** A JSON decoder that knows the empty list and one list of strings. *)
Definition toy_loads (text : string) : option (list string) :=
  if String.eqb text "[]" then Some []
  else if String.eqb text "[fast, calm]" then Some ["fast"; "calm"]
  else None.

(** Reference rows whose highlights are well-formed, malformed and absent. *)
Definition listed_row (id : Z) (slug : string) (highlights : value) : row :=
  list_to_map [ ("id", VInt id); ("slug", VStr slug);
                ("highlights", highlights); ("is_active", VBool true) ].

Definition tests_table : table :=
  Table personality_assessments_cols
        [ listed_row 1 "A" (VStr "[fast, calm]");
          listed_row 2 "B" (VStr "{oops");
          listed_row 3 "C" VNull ] 4.

Definition tests_store : DB := {[ PA := tests_table ]}.

End Samples.

(* ===================================================================== *)
(** * Facts about the store *)
(* ===================================================================== *)

Module StoreFacts.
Import Store Runtime Database Aux.

Lemma assign_snoc kvs k v (r : row) :
  assign (kvs ++ [(k, v)]) r = <[k := v]> (assign kvs r).
Proof. unfold assign. by rewrite foldl_app. Qed.

Lemma assign_lookup_other kvs (r : row) k :
  k ∉ kvs.*1 -> assign kvs r !! k = r !! k.
Proof.
  revert r. induction kvs as [|[k0 v0] kvs IH]; intros r Hk; [done|].
  cbn in Hk. apply not_elem_of_cons in Hk as [Hne Hk].
  change (assign ((k0, v0) :: kvs) r) with (assign kvs (<[k0 := v0]> r)).
  rewrite IH by done. by rewrite lookup_insert_ne.
Qed.

Lemma assign_lookup_set kvs (r r' : row) k :
  k ∈ kvs.*1 -> assign kvs r !! k = assign kvs r' !! k.
Proof.
  revert r r'. induction kvs as [|[k0 v0] kvs IH]; intros r r' Hk.
  { by apply elem_of_nil in Hk. }
  change (assign ((k0, v0) :: kvs) r) with (assign kvs (<[k0 := v0]> r)).
  change (assign ((k0, v0) :: kvs) r') with (assign kvs (<[k0 := v0]> r')).
  destruct (decide (k ∈ kvs.*1)) as [Hin|Hout]; [by apply IH|].
  cbn in Hk. apply elem_of_cons in Hk as [->|Hin]; [|done].
  rewrite !assign_lookup_other by done. by rewrite !lookup_insert_eq.
Qed.

(** Assigning the same columns again overwrites the first assignment. *)
Lemma assign_same_keys kvs1 kvs2 (r : row) :
  kvs1.*1 = kvs2.*1 -> assign kvs2 (assign kvs1 r) = assign kvs2 r.
Proof.
  intros Hk. apply map_eq. intros k.
  destruct (decide (k ∈ kvs2.*1)) as [Hin|Hout].
  - by apply assign_lookup_set.
  - rewrite !assign_lookup_other by congruence. done.
Qed.

(** Assigning what is already there changes nothing. *)
Lemma assign_id kvs (r : row) :
  Forall (fun kv => r !! kv.1 = Some kv.2) kvs -> assign kvs r = r.
Proof.
  induction 1 as [|[k v] kvs Hkv _ IH]; [done|].
  change (assign ((k, v) :: kvs) r) with (assign kvs (<[k := v]> r)).
  by rewrite insert_id.
Qed.

Lemma zip_fst_keys {A B} (ks : list A) (vs : list B) :
  length ks = length vs -> (zip ks vs).*1 = ks.
Proof. intros. by apply fst_zip; lia. Qed.

Lemma has_col_spec T c : has_col T c = true <-> c ∈ col_names T.
Proof. unfold has_col. by rewrite bool_decide_eq_true. Qed.

Lemma has_cols_spec T cs : has_cols T cs = true <-> Forall (fun c => c ∈ col_names T) cs.
Proof.
  unfold has_cols. rewrite forallb_forall, Forall_forall.
  split; intros H c Hc.
  - apply has_col_spec, H. by apply list_elem_of_In.
  - apply has_col_spec, H. by apply list_elem_of_In.
Qed.

(** ** Columns and tables only grow *)

Lemma insert_after_names anchor c cols :
  anchor ∈ col_name <$> cols ->
  forall x, x ∈ col_name <$> insert_after anchor c cols <->
            x = col_name c \/ x ∈ col_name <$> cols.
Proof.
  induction cols as [|y cols IH]; intros Ha x.
  { by apply elem_of_nil in Ha. }
  cbn [insert_after]. case_bool_decide as Hy.
  - cbn. rewrite !elem_of_cons. tauto.
  - cbn in Ha. apply elem_of_cons in Ha as [->|Ha]; [done|].
    cbn. rewrite !elem_of_cons, IH by done. tauto.
Qed.

Lemma add_column_names T a T' :
  add_column T a = Some T' ->
  (forall x, x ∈ col_names T' <-> x = col_name (add_def a) \/ x ∈ col_names T)
  /\ t_auto T' = t_auto T /\ length (t_rows T') = length (t_rows T).
Proof.
  unfold add_column. destruct (has_col T (col_name (add_def a))) eqn:Hc.
  - intros [= <-]. apply has_col_spec in Hc. split; [|done].
    intros x. split; [tauto|]. by intros [->|].
  - destruct (add_after a) as [anchor|].
    + destruct (has_col T anchor) eqn:Ha; [|done]. intros [= <-].
      apply has_col_spec in Ha. unfold col_names; cbn.
      split; [by apply insert_after_names|]. by rewrite length_fmap.
    + intros [= <-]. unfold col_names; cbn. split.
      * intros x. rewrite fmap_app, elem_of_app. cbn.
        rewrite list_elem_of_singleton. tauto.
      * by rewrite length_fmap.
Qed.

Lemma add_columns_names T adds T' :
  add_columns T adds = Some T' ->
  (forall x, x ∈ col_names T -> x ∈ col_names T')
  /\ Forall (fun a => has_col T' (col_name (add_def a)) = true) adds
  /\ t_auto T' = t_auto T /\ length (t_rows T') = length (t_rows T).
Proof.
  revert T. induction adds as [|a adds IH]; intros T; cbn.
  - intros [= <-]. by repeat split.
  - destruct (add_column T a) as [T1|] eqn:Ha; [|done]. intros Hrest.
    apply add_column_names in Ha as (Hn & Hauto & Hlen).
    destruct (IH _ Hrest) as (Hmono & Hall & Hauto' & Hlen').
    repeat split.
    + intros x Hx. apply Hmono, Hn. by right.
    + constructor; [|done]. apply has_col_spec, Hmono, Hn. by left.
    + congruence.
    + congruence.
Qed.

(** Adding columns that are all there is the identity. *)
Lemma add_columns_settled T adds :
  Forall (fun a => has_col T (col_name (add_def a)) = true) adds ->
  add_columns T adds = Some T.
Proof.
  induction 1 as [|a adds Ha _ IH]; [done|].
  cbn. unfold add_column. by rewrite Ha.
Qed.

Lemma insert_rows_cols T cols groups :
  t_cols (insert_rows T cols groups) = t_cols T.
Proof.
  revert T. induction groups as [|g groups IH]; intros T; [done|].
  unfold insert_rows in *. cbn. by rewrite IH.
Qed.

(** Every statement keeps the tables that exist, with at least their columns;
    tables other than its target are untouched. *)
Lemma exec_stmt_grows d s params d' r :
  exec_stmt d s params = Some (d', r) ->
  (forall t T, d !! t = Some T ->
     exists T', d' !! t = Some T' /\
       forall x, x ∈ col_names T -> x ∈ col_names T')
  /\ (forall t, t ≠ target s -> d' !! t = d !! t).
Proof.
  destruct s as [n cols fks|tbl adds|tbl|tbl cols k|tbl cols wc|tbl cond lim]; cbn.
  - destruct params; [|done]. unfold create_table.
    destruct (d !! n) as [T0|] eqn:Hn.
    + intros [= <- <-]. split; [|done]. intros t T Ht. by exists T.
    + destruct (forallb _ fks); [|done]. cbn. intros [= <- <-]. split.
      * intros t T Ht. exists T. split; [|done].
        rewrite lookup_insert_ne; [done|]. congruence.
      * intros t Hne. by rewrite lookup_insert_ne.
  - destruct params; [|done].
    destruct (d !! tbl) as [T0|] eqn:Ht0; [|done]. cbn.
    destruct (add_columns T0 adds) as [T1|] eqn:Ha; [|done]. cbn.
    intros [= <- <-]. apply add_columns_names in Ha as (Hmono & _).
    split.
    + intros t T Ht. destruct (decide (t = tbl)) as [->|Hne].
      * rewrite lookup_insert_eq. exists T1. split; [done|].
        rewrite Ht0 in Ht. by injection Ht as <-.
      * rewrite lookup_insert_ne by done. by exists T.
    + intros t Hne. by rewrite lookup_insert_ne.
  - destruct params; [|done]. destruct (d !! tbl) as [T0|]; [|done]. cbn.
    intros [= <- <-]. split; [|done]. intros t T Ht. by exists T.
  - destruct (d !! tbl) as [T0|] eqn:Ht0; [|done]. cbn.
    destruct (has_cols T0 cols && negb (bool_decide (k = 0%nat))); [|done].
    destruct (split_tuples _ k params) as [groups|]; [|done]. cbn.
    intros [= <- <-]. split.
    + intros t T Ht. destruct (decide (t = tbl)) as [->|Hne].
      * rewrite lookup_insert_eq. eexists. split; [done|].
        rewrite Ht0 in Ht. injection Ht as <-.
        unfold col_names. by rewrite insert_rows_cols.
      * rewrite lookup_insert_ne by done. by exists T.
    + intros t Hne. by rewrite lookup_insert_ne.
  - destruct (d !! tbl) as [T0|] eqn:Ht0; [|done]. cbn.
    destruct (_ && _); [|done]. intros [= <- <-]. split.
    + intros t T Ht. destruct (decide (t = tbl)) as [->|Hne].
      * rewrite lookup_insert_eq. eexists. split; [done|].
        rewrite Ht0 in Ht. by injection Ht as <-.
      * rewrite lookup_insert_ne by done. by exists T.
    + intros t Hne. by rewrite lookup_insert_ne.
  - destruct (d !! tbl) as [T0|] eqn:Ht0; [|done]. cbn.
    destruct lim, params as [|[] [|]]; try done;
      intros [= <- <-]; (split; [|done]); intros t T Ht; by exists T.
Qed.

End StoreFacts.

(* ===================================================================== *)
(** * Seed reconciliation on the seeded table *)
(* ===================================================================== *)

Module SeedFacts.
Import Store Runtime Database Aux StoreFacts.

Section Seed.

Variable Highlights : Type.
Variable json_dumps : Highlights -> string.
Variable SEED : list (SeedTest Highlights).

#[local] Abbreviation mutable_values := (mutable_values Highlights json_dumps).
#[local] Abbreviation insert_values := (insert_values Highlights json_dumps).
#[local] Abbreviation update_values := (update_values Highlights json_dumps).
#[local] Abbreviation update_row := (update_row Highlights json_dumps).
#[local] Abbreviation update_pass := (update_pass Highlights json_dumps).
#[local] Abbreviation last_match := (last_match Highlights).
#[local] Abbreviation set_of test := (zip update_cols (mutable_values test)).

Lemma set_of_keys test : (set_of test).*1 = update_cols.
Proof. reflexivity. Qed.

Lemma slug_not_mutable : "slug" ∉ update_cols.
Proof.
  unfold update_cols. rewrite !not_elem_of_cons. repeat split; try done.
  apply not_elem_of_nil.
Qed.

Lemma update_row_slug test (r : row) :
  update_row test r !! "slug" = r !! "slug".
Proof.
  unfold Aux.update_row. destruct (matches _ _ r); [|done].
  apply assign_lookup_other. rewrite set_of_keys. apply slug_not_mutable.
Qed.

Lemma update_row_keeps test (r : row) k :
  k ∉ update_cols -> update_row test r !! k = r !! k.
Proof.
  intros Hk. unfold Aux.update_row. destruct (matches _ _ r); [|done].
  apply assign_lookup_other. by rewrite set_of_keys.
Qed.

Lemma matches_slug key (r r' : row) :
  r !! "slug" = r' !! "slug" -> matches "slug" key r = matches "slug" key r'.
Proof. unfold matches. by intros ->. Qed.

Lemma last_match_slug tests (r r' : row) :
  r !! "slug" = r' !! "slug" -> last_match tests r = last_match tests r'.
Proof.
  intros Hs. unfold Aux.last_match.
  generalize (@None (SeedTest Highlights)).
  induction tests as [|t tests IH]; intros acc; [done|]. cbn.
  rewrite (matches_slug _ r r' Hs). apply IH.
Qed.

Lemma last_match_snoc tests t (r : row) :
  last_match (tests ++ [t]) r =
  if matches "slug" (VStr (seed_slug t)) r then Some t else last_match tests r.
Proof. unfold Aux.last_match. by rewrite foldl_app. Qed.

Lemma last_match_Some tests (r : row) t :
  last_match tests r = Some t ->
  t ∈ tests /\ r !! "slug" = Some (VStr (seed_slug t)).
Proof.
  revert t. induction tests as [|t0 tests IH] using rev_ind; intros t; [done|].
  rewrite last_match_snoc. destruct (matches _ _ r) eqn:Hm.
  - intros [= <-]. split; [apply elem_of_app; right; by left|].
    unfold matches in Hm. apply andb_true_iff in Hm as [_ Hm].
    by apply bool_decide_eq_true in Hm.
  - intros H. destruct (IH _ H). split; [|done]. apply elem_of_app. by left.
Qed.

Lemma last_match_None tests (r : row) t :
  last_match tests r = None -> t ∈ tests ->
  r !! "slug" ≠ Some (VStr (seed_slug t)).
Proof.
  induction tests as [|t0 tests IH] using rev_ind; intros Hn Ht.
  { by apply elem_of_nil in Ht. }
  rewrite last_match_snoc in Hn. destruct (matches _ _ r) eqn:Hm; [done|].
  apply elem_of_app in Ht as [Ht|Ht]; [by apply IH|].
  apply list_elem_of_singleton in Ht as ->.
  unfold matches in Hm. cbn in Hm. by apply bool_decide_eq_false in Hm.
Qed.

(** A pass leaves a row alone or overwrites its mutable columns with those of
    the last seed entry carrying the row's slug. *)
Lemma update_pass_spec tests (r : row) :
  update_pass tests r =
  match last_match tests r with
  | Some t => assign (set_of t) r
  | None => r
  end.
Proof.
  induction tests as [|t tests IH] using rev_ind; [done|].
  unfold Aux.update_pass in *. rewrite foldl_app. cbn.
  rewrite last_match_snoc, IH. clear IH.
  assert (Hs : (match last_match tests r with
                | Some t0 => assign (set_of t0) r | None => r end) !! "slug"
               = r !! "slug").
  { destruct (last_match tests r); [|done].
    apply assign_lookup_other. rewrite set_of_keys. apply slug_not_mutable. }
  unfold Aux.update_row. rewrite (matches_slug _ _ r Hs).
  destruct (matches _ _ r); [|done].
  destruct (last_match tests r); [|done].
  apply assign_same_keys. by rewrite !set_of_keys.
Qed.

Lemma update_pass_slug tests (r : row) :
  update_pass tests r !! "slug" = r !! "slug".
Proof.
  rewrite update_pass_spec. destruct (last_match tests r); [|done].
  apply assign_lookup_other. rewrite set_of_keys. apply slug_not_mutable.
Qed.

Lemma update_pass_keeps tests (r : row) k :
  k ∉ update_cols -> update_pass tests r !! k = r !! k.
Proof.
  intros Hk. rewrite update_pass_spec. destruct (last_match tests r); [|done].
  apply assign_lookup_other. by rewrite set_of_keys.
Qed.

(** A second pass changes nothing. *)
Lemma update_pass_idem tests (r : row) :
  update_pass tests (update_pass tests r) = update_pass tests r.
Proof.
  rewrite (update_pass_spec tests (update_pass tests r)).
  rewrite (last_match_slug tests _ r (update_pass_slug tests r)).
  rewrite update_pass_spec. destruct (last_match tests r); [|done].
  by apply assign_same_keys.
Qed.

(** ** The statements of the seed step *)

Lemma exec_seed_update d T test :
  d !! PA = Some T ->
  exec_stmt d (Update PA update_cols "slug") (update_values test) =
  if has_cols T update_cols && has_col T "slug"
  then Some (<[PA := Table (t_cols T) (update_row test <$> t_rows T) (t_auto T)]> d,
             no_result)
  else None.
Proof.
  intros HT. cbn [exec_stmt]. rewrite HT. cbn [mbind option_bind].
  replace (bool_decide (length (update_values test) = S (length update_cols)))
    with true by done.
  rewrite andb_true_r.
  destruct (has_cols T update_cols && has_col T "slug"); [|done].
  reflexivity.
Qed.

Lemma update_all_ok tests d T :
  d !! PA = Some T ->
  has_cols T update_cols && has_col T "slug" = true ->
  update_all Highlights json_dumps tests d =
  Some (<[PA := Table (t_cols T) (update_pass tests <$> t_rows T) (t_auto T)]> d).
Proof.
  revert d T. induction tests as [|t tests IH]; intros d T HT Hg.
  - cbn. f_equal. rewrite list_fmap_id. destruct T. by rewrite insert_id.
  - cbn [update_all]. rewrite (exec_seed_update _ _ _ HT), Hg.
    erewrite IH; [|apply lookup_insert_eq|done]. cbn.
    rewrite insert_insert_eq. do 3 f_equal.
    rewrite <- list_fmap_compose. done.
Qed.

Lemma update_all_fail t tests d T :
  d !! PA = Some T ->
  has_cols T update_cols && has_col T "slug" = false ->
  update_all Highlights json_dumps (t :: tests) d = None.
Proof.
  intros HT Hg. cbn [update_all]. by rewrite (exec_seed_update _ _ _ HT), Hg.
Qed.

Lemma split_tuples_join width (groups : list (list value)) :
  Forall (fun g => length g = width) groups ->
  split_tuples width (length groups) (mjoin groups) = Some groups.
Proof.
  induction 1 as [|g groups Hg _ IH]; [done|].
  change (mjoin (g :: groups)) with (g ++ mjoin groups).
  cbn [length split_tuples]. rewrite length_app. case_bool_decide; [lia|].
  rewrite drop_app_length' by done. rewrite IH.
  by rewrite take_app_length' by done.
Qed.

Lemma placeholders_nonempty n :
  bool_decide (String.concat ", " (replicate n placeholder_group) ≠ "")
  = negb (bool_decide (n = 0%nat)).
Proof.
  destruct n as [|[|n]]; [done| |]; cbn; by case_bool_decide.
Qed.

Lemma exec_seed_insert d T :
  d !! PA = Some T -> SEED ≠ [] ->
  fst <$> exec_stmt d (Insert PA insert_cols (length SEED))
            (mjoin (insert_values <$> SEED)) =
  if has_cols T insert_cols
  then Some (<[PA := insert_rows T insert_cols (insert_values <$> SEED)]> d)
  else None.
Proof.
  intros HT Hne. cbn [exec_stmt]. rewrite HT. cbn [mbind option_bind].
  destruct (has_cols T insert_cols); [|done]. cbn [andb].
  case_bool_decide as Hz.
  { destruct SEED; [done|discriminate]. }
  cbn [negb]. rewrite <- (length_fmap insert_values SEED).
  rewrite split_tuples_join; [done|].
  apply Forall_fmap, Forall_true. done.
Qed.

Lemma seed_table_nonempty T :
  SEED ≠ [] ->
  seed_table Highlights json_dumps SEED T =
  match t_rows T with
  | [] =>
      if has_cols T insert_cols
      then Some (insert_rows T insert_cols (insert_values <$> SEED))
      else None
  | _ :: _ =>
      if has_cols T update_cols && has_col T "slug"
      then Some (Table (t_cols T) (update_pass SEED <$> t_rows T) (t_auto T))
      else None
  end.
Proof. unfold seed_table. by destruct SEED. Qed.

(** The seed step reads and writes the seeded table only. *)
Lemma seed_db_table d :
  seed_db Highlights json_dumps SEED d =
  match d !! PA with
  | Some T =>
      match seed_table Highlights json_dumps SEED T with
      | Some T' => Some (<[PA := T']> d)
      | None => None
      end
  | None => None
  end.
Proof.
  unfold seed_db.
  change (exec_stmt d (SelectCount PA) []) with
    (T ← d !! PA;
     Some (d, Result 0 [ {["count" := VInt (Z.of_nat (length (t_rows T)))]} ])).
  destruct (d !! PA) as [T|] eqn:HT; [|done].
  cbn [mbind option_bind fetchone fetched head].
  rewrite lookup_singleton_eq, placeholders_nonempty.
  destruct (decide (SEED = [])) as [He|Hne].
  - unfold seed_table. rewrite He. cbn.
    rewrite insert_id by done. by case_bool_decide.
  - rewrite seed_table_nonempty by done.
    assert (Hlen : length SEED ≠ 0%nat) by (by destruct SEED).
    rewrite (bool_decide_eq_false_2 (length SEED = 0%nat)) by done. cbn [negb].
    destruct (t_rows T) as [|r rows] eqn:Hrows.
    + rewrite bool_decide_eq_true_2 by done.
      rewrite (exec_seed_insert d T) by done.
      by destruct (has_cols T insert_cols).
    + rewrite bool_decide_eq_false_2 by (cbn; intros [=]; lia).
      destruct (has_cols T update_cols && has_col T "slug") eqn:Hg.
      * rewrite (update_all_ok _ _ _ HT Hg). by rewrite Hrows.
      * destruct SEED as [|t0 seed]; [done|].
        by rewrite (update_all_fail _ _ _ _ HT Hg).
Qed.

(** ** Rows written by the bulk insert *)

Lemma new_row_lookup T0 vals k :
  k ≠ "id" -> k ∈ insert_cols -> length vals = length insert_cols ->
  new_row T0 insert_cols vals !! k = assign (zip insert_cols vals) ∅ !! k.
Proof.
  intros Hid Hk Hlen. unfold new_row.
  assert (Hset : assign (zip insert_cols vals) (defaults T0) !! k
                 = assign (zip insert_cols vals) ∅ !! k).
  { apply assign_lookup_set. rewrite fst_zip by lia. done. }
  destruct (_ && _); [|done]. by rewrite lookup_insert_ne.
Qed.

Ltac in_cols := unfold insert_cols; rewrite !elem_of_cons; tauto.

Lemma seeded_row_slug T0 test :
  new_row T0 insert_cols (insert_values test) !! "slug"
  = Some (VStr (seed_slug test)).
Proof.
  rewrite new_row_lookup; [|done|in_cols|done].
  vm_compute. reflexivity.
Qed.

Lemma seeded_row_values T0 test :
  Forall (fun kv => new_row T0 insert_cols (insert_values test) !! kv.1
                    = Some kv.2)
         (set_of test).
Proof.
  unfold update_cols, Database.mutable_values. cbn [zip zip_with].
  repeat (apply Forall_cons; split;
          [cbn [fst snd]; rewrite new_row_lookup; [|done|in_cols|done];
           vm_compute; reflexivity|]).
  apply Forall_nil. exact I.
Qed.

Lemma insert_rows_spec T cols groups :
  t_cols (insert_rows T cols groups) = t_cols T /\
  exists rows',
    t_rows (insert_rows T cols groups) = t_rows T ++ rows' /\
    Forall2 (fun g r => exists T0, r = new_row T0 cols g) groups rows'.
Proof.
  split; [apply insert_rows_cols|].
  revert T. induction groups as [|g groups IH]; intros T.
  - exists []. split; [by rewrite app_nil_r|constructor].
  - destruct (IH (insert_row T cols g)) as (rows' & Hrows & Hall).
    exists (new_row T cols g :: rows'). split.
    + unfold insert_rows in *. cbn [foldl]. rewrite Hrows. cbn.
      by rewrite <- app_assoc.
    + constructor; [by exists T|done].
Qed.

Hypothesis seed_slugs_distinct : NoDup (seed_slug <$> SEED).

Lemma seed_slug_inj t t' :
  t ∈ SEED -> t' ∈ SEED -> seed_slug t = seed_slug t' -> t = t'.
Proof.
  revert seed_slugs_distinct. generalize SEED as l.
  induction l as [|x l IH]; intros Hnd Ht Ht' He.
  { by apply elem_of_nil in Ht. }
  cbn in Hnd. apply NoDup_cons in Hnd as [Hx Hnd].
  apply elem_of_cons in Ht as [->|Ht]; apply elem_of_cons in Ht' as [->|Ht'].
  - done.
  - exfalso. apply Hx. rewrite He. by apply list_elem_of_fmap_2.
  - exfalso. apply Hx. rewrite <- He. by apply list_elem_of_fmap_2.
  - by apply IH.
Qed.

(** A row the bulk insert wrote already carries what the update pass would
    write. *)
Lemma seeded_row_fixed T0 test :
  test ∈ SEED ->
  update_pass SEED (new_row T0 insert_cols (insert_values test))
  = new_row T0 insert_cols (insert_values test).
Proof.
  intros Hin. rewrite update_pass_spec.
  destruct (last_match SEED _) as [t'|] eqn:Hm; [|done].
  apply last_match_Some in Hm as [Hin' Hslug].
  rewrite seeded_row_slug in Hslug. injection Hslug as Hslug.
  assert (t' = test) as -> by (by apply seed_slug_inj).
  apply assign_id, seeded_row_values.
Qed.

(** Reconciling a reconciled table changes nothing. *)
Lemma seed_table_idem T T' :
  seed_table Highlights json_dumps SEED T = Some T' ->
  seed_table Highlights json_dumps SEED T' = Some T'.
Proof.
  destruct (decide (SEED = [])) as [He|Hne].
  { unfold seed_table. rewrite He. by intros [= <-]. }
  rewrite !seed_table_nonempty by done.
  destruct (t_rows T) as [|r rows] eqn:Hrows.
  - destruct (has_cols T insert_cols) eqn:Hc; [|done]. intros [= <-].
    destruct (insert_rows_spec T insert_cols (insert_values <$> SEED))
      as (Hcols & rows' & Hr & Hall).
    rewrite Hrows in Hr. cbn in Hr.
    assert (Hg : has_cols (insert_rows T insert_cols (insert_values <$> SEED))
                   update_cols
                 && has_col (insert_rows T insert_cols (insert_values <$> SEED))
                      "slug" = true).
    { apply has_cols_spec in Hc. apply andb_true_iff. split.
      - apply has_cols_spec. unfold col_names. rewrite Hcols.
        rewrite Forall_forall in Hc.
        apply Forall_forall. intros x Hx. apply Hc.
        revert Hx. unfold update_cols, insert_cols.
        rewrite !elem_of_cons. tauto.
      - apply has_col_spec. unfold col_names. rewrite Hcols.
        rewrite Forall_forall in Hc. apply Hc.
        unfold insert_cols. rewrite !elem_of_cons. tauto. }
    rewrite Hg, Hr.
    assert (Hfix : update_pass SEED <$> rows' = rows').
    { apply Forall2_fmap_l in Hall.
      assert (Forall (fun r => update_pass SEED r = r) rows') as Hf.
      { eapply Forall2_Forall_r; [exact Hall|].
        apply Forall_forall. intros t Ht r (T0 & ->).
        by apply seeded_row_fixed. }
      clear -Hf. induction Hf as [|r rs Hr _ IH]; [done|].
      cbn. by rewrite Hr, IH. }
    destruct rows' as [|r' rows'].
    + apply Forall2_nil_inv_r in Hall.
      apply fmap_nil_inv in Hall. done.
    + rewrite Hfix, <- Hr.
      by destruct (insert_rows T insert_cols (insert_values <$> SEED)).
  - destruct (has_cols T update_cols && has_col T "slug") eqn:Hg; [|done].
    intros [= <-]. cbn [t_rows t_cols t_auto].
    change (has_cols {| t_cols := t_cols T; t_rows := _; t_auto := _ |} update_cols)
      with (has_cols T update_cols).
    change (has_col {| t_cols := t_cols T; t_rows := _; t_auto := _ |} "slug")
      with (has_col T "slug").
    rewrite Hg. cbn [fmap list_fmap]. fold (update_pass SEED <$> rows).
    rewrite update_pass_idem. do 2 f_equal.
    rewrite <- list_fmap_compose. f_equal. apply list_fmap_ext.
    intros _ x _. cbn. apply update_pass_idem.
Qed.

(** ** Re-running the script *)

Lemma seed_table_cols T T' :
  seed_table Highlights json_dumps SEED T = Some T' -> t_cols T' = t_cols T.
Proof.
  destruct (decide (SEED = [])) as [He|Hne].
  { unfold seed_table. rewrite He. by intros [= <-]. }
  rewrite seed_table_nonempty by done. destruct (t_rows T).
  - destruct (has_cols T insert_cols); [|done]. intros [= <-].
    apply insert_rows_cols.
  - destruct (_ && _); [|done]. by intros [= <-].
Qed.

#[local] Abbreviation action_db := (action_db Highlights json_dumps SEED).
#[local] Abbreviation script_db := (script_db Highlights json_dumps SEED).
#[local] Abbreviation settled := (settled json_dumps SEED).

Lemma action_grows a d d' :
  action_db a d = Some d' ->
  forall t T, d !! t = Some T ->
    exists T', d' !! t = Some T' /\
      forall x, x ∈ col_names T -> x ∈ col_names T'.
Proof.
  destruct a as [s|msg|]; cbn.
  - destruct (exec_stmt d s []) as [[d1 r]|] eqn:He; [|done].
    intros [= <-]. by apply exec_stmt_grows in He as [? _].
  - intros [= <-] t T Ht. by exists T.
  - rewrite seed_db_table. destruct (d !! PA) as [T0|] eqn:HT; [|done].
    destruct (seed_table _ _ _ T0) as [T1|] eqn:Hs; [|done].
    intros [= <-] t T Ht. destruct (decide (t = PA)) as [->|Hne].
    + rewrite lookup_insert_eq. exists T1. split; [done|].
      rewrite HT in Ht. injection Ht as <-.
      unfold col_names. by rewrite (seed_table_cols _ _ Hs).
    + rewrite lookup_insert_ne by done. by exists T.
Qed.

Lemma settled_after a d d' :
  is_schema_step a = true -> action_db a d = Some d' -> settled a d'.
Proof.
  destruct a as [[n cols fks|t adds| | | |]|msg|]; try done; cbn; intros _.
  - unfold create_table. destruct (d !! n) eqn:Hn.
    + intros [= <-]. by rewrite Hn.
    + destruct (forallb _ fks); [|done]. cbn. intros [= <-].
      by rewrite lookup_insert_eq.
  - destruct (d !! t) as [T|]; [|done]. cbn.
    destruct (add_columns T adds) as [T'|] eqn:Ha; [|done]. cbn.
    intros [= <-]. exists T'. split; [apply lookup_insert_eq|].
    by apply add_columns_names in Ha as (_ & ? & _).
  - rewrite seed_db_table. destruct (d !! PA) as [T|]; [|done].
    destruct (seed_table _ _ _ T) as [T'|] eqn:Hs; [|done].
    intros [= <-]. exists T'. split; [apply lookup_insert_eq|].
    by apply seed_table_idem in Hs.
Qed.

Lemma settled_noop a d : settled a d -> action_db a d = Some d.
Proof.
  destruct a as [[n cols fks|t adds| | | |]|msg|]; try done; cbn.
  - intros [T HT]. unfold create_table. by rewrite HT.
  - intros (T & HT & Hall). rewrite HT. cbn.
    rewrite add_columns_settled by done. cbn. by rewrite insert_id.
  - intros (T & HT & Hs). rewrite seed_db_table, HT, Hs. by rewrite insert_id.
Qed.

Lemma settled_preserved a b d d' :
  settled a d -> may_follow a b = true ->
  action_db b d = Some d' -> settled a d'.
Proof.
  intros Hs Hf Hb. pose proof (action_grows _ _ _ Hb) as Hgrow.
  destruct a as [[n cols fks|t adds| | | |]|msg|]; try done; cbn in Hs |- *.
  - destruct Hs as [T HT]. destruct (Hgrow _ _ HT) as (T' & -> & _). done.
  - destruct Hs as (T & HT & Hall). destruct (Hgrow _ _ HT) as (T' & HT' & Hsub).
    exists T'. split; [done|]. eapply Forall_impl; [exact Hall|].
    intros x Hx. cbn in Hx. apply has_col_spec. apply Hsub. by apply has_col_spec.
  - destruct Hs as (T & HT & Hs). exists T. split; [|done].
    destruct b as [s|msg|]; cbn in Hb, Hf; [|by injection Hb as <-|done].
    destruct (exec_stmt d s []) as [[d1 r]|] eqn:He; [|done].
    injection Hb as <-.
    destruct (decide (target s = PA)) as [Ht|Ht].
    + destruct s as [n cols fks| | | | |];
        try (cbn in Ht; rewrite bool_decide_eq_true_2 in Hf by done; done).
      cbn in Ht, He. subst n. unfold create_table in He. rewrite HT in He.
      cbn in He. by injection He as <- _.
    + apply exec_stmt_grows in He as [_ Hframe].
      rewrite Hframe by done. done.
Qed.

Lemma settled_run a rest d d' :
  settled a d -> forallb (may_follow a) rest = true ->
  script_db rest d = Some d' -> settled a d'.
Proof.
  revert d. induction rest as [|b rest IH]; intros d Hs Hf; cbn.
  - by intros [= <-].
  - cbn in Hf. apply andb_true_iff in Hf as [Hb Hf].
    destruct (action_db b d) as [d1|] eqn:Hd; [|done]. intros Hrest.
    eapply IH; [|done|exact Hrest]. by eapply settled_preserved.
Qed.

(** A script that ran through runs through again without changing the
    store. *)
Lemma script_db_idem script d d' :
  well_ordered script = true ->
  script_db script d = Some d' -> script_db script d' = Some d'.
Proof.
  revert d. induction script as [|a rest IH]; intros d Hw; cbn.
  - done.
  - cbn in Hw. apply andb_true_iff in Hw as [Hw Hrest].
    apply andb_true_iff in Hw as [Hstep Hfollow].
    destruct (action_db a d) as [d1|] eqn:Ha; [|done]. intros Hrun.
    assert (Hs : settled a d').
    { eapply settled_run; [|done|exact Hrun]. by eapply settled_after. }
    rewrite (settled_noop _ _ Hs). by eapply IH.
Qed.

(** ** Scripts that stop half way *)

#[local] Abbreviation script_reach := (script_reach Highlights json_dumps SEED).

Lemma script_db_app pre post d :
  script_db (pre ++ post) d = script_db pre d ≫= script_db post.
Proof.
  revert d. induction pre as [|a pre IH]; intros d; cbn; [done|].
  destruct (action_db a d) as [d1|]; [apply IH|done].
Qed.

Lemma script_reach_app pre post d d' :
  script_db pre d = Some d' ->
  script_reach (pre ++ post) d = script_reach post d'.
Proof.
  revert d. induction pre as [|a pre IH]; intros d; cbn.
  - by intros [= <-].
  - destruct (action_db a d) as [d1|]; [apply IH|done].
Qed.

Lemma script_reach_done script d d' :
  script_db script d = Some d' -> script_reach script d = d'.
Proof.
  intros Hrun. rewrite <- (app_nil_r script).
  by rewrite (script_reach_app _ _ _ _ Hrun).
Qed.

(** The store a script reaches is the outcome of the steps before the first
    one that is refused. *)
Lemma script_reach_split script d :
  exists pre post,
    script = pre ++ post /\
    script_db pre d = Some (script_reach script d) /\
    match post with
    | [] => True
    | a :: _ => action_db a (script_reach script d) = None
    end.
Proof.
  revert d. induction script as [|a rest IH]; intros d.
  - by exists [], [].
  - cbn [Aux.script_reach]. destruct (action_db a d) as [d1|] eqn:Ha.
    + destruct (IH d1) as (pre & post & -> & Hpre & Hpost).
      exists (a :: pre), post. split; [done|]. split; [|done].
      cbn. by rewrite Ha.
    + by exists [], (a :: rest).
Qed.

Lemma script_reach_prefix script d :
  exists n, script_db (take n script) d = Some (script_reach script d).
Proof.
  destruct (script_reach_split script d) as (pre & post & -> & Hpre & _).
  exists (length pre). by rewrite take_app_length.
Qed.

Lemma well_ordered_prefix pre post :
  well_ordered (pre ++ post) = true -> well_ordered pre = true.
Proof.
  induction pre as [|a pre IH]; [done|]. cbn.
  rewrite !andb_true_iff, forallb_app, andb_true_iff.
  intros [[? [? _]] ?]. auto.
Qed.

(** A script that stopped half way stops at the same step, with the same
    store, when it is run again. *)
Lemma script_reach_idem script d :
  well_ordered script = true ->
  script_reach script (script_reach script d) = script_reach script d.
Proof.
  intros Hw.
  destruct (script_reach_split script d) as (pre & post & Hscript & Hpre & Hpost).
  set (d1 := script_reach script d) in *.
  rewrite Hscript in Hw |- *.
  apply well_ordered_prefix in Hw.
  rewrite (script_reach_app pre post d1 d1) by by eapply script_db_idem.
  destruct post as [|a post]; [done|]. cbn. by rewrite Hpost.
Qed.

(** No table and no column is lost on the way. *)
Lemma script_db_grows script d d' :
  script_db script d = Some d' ->
  forall t T, d !! t = Some T ->
    exists T', d' !! t = Some T' /\
      forall x, x ∈ col_names T -> x ∈ col_names T'.
Proof.
  revert d. induction script as [|a rest IH]; intros d; cbn.
  - intros [= <-] t T Ht. by exists T.
  - destruct (action_db a d) as [d1|] eqn:Ha; [|done].
    intros Hrest t T Ht.
    destruct (action_grows _ _ _ Ha _ _ Ht) as (T1 & Ht1 & Hsub1).
    destruct (IH _ Hrest _ _ Ht1) as (T' & Ht' & Hsub').
    exists T'. split; [done|]. auto.
Qed.

Lemma schema_script_well_ordered : well_ordered schema_script = true.
Proof. vm_compute. reflexivity. Qed.

End Seed.
End SeedFacts.

(* ===================================================================== *)
(** * Running the schema script *)
(* ===================================================================== *)

Module RunFacts.
Import Store Runtime Database Aux StoreFacts SeedFacts.

#[local] Arguments exec_stmt : simpl never.

Lemma frame_refl w : frame w w.
Proof. by repeat split. Qed.

Lemma frame_trans w1 w2 w3 : frame w1 w2 -> frame w2 w3 -> frame w1 w3.
Proof.
  unfold frame. intros (?&?&?&?) (?&?&?&?).
  split; [congruence|]. split; [congruence|]. split; [congruence|]. auto.
Qed.

Lemma denotes_ext {A} (m : M A) f g :
  (forall d, f d = g d) -> denotes m f -> denotes m g.
Proof.
  intros Hfg [Hs Hc]. split.
  - intros w r w' Hm. destruct (Hs _ _ _ Hm) as [Hf Hr]. split; [done|].
    destruct r; [|done..]. by rewrite <- Hfg.
  - intros w d' a Hfa Hg. rewrite <- Hfg in Hg. eauto.
Qed.

Lemma denotes_ret {A} (a : A) : denotes (ret a) (fun d => Some (d, a)).
Proof.
  split.
  - intros w r w' [= <- <-]. split; [apply frame_refl|done].
  - intros w d' a' Hf [= <- <-]. by exists w.
Qed.

Lemma denotes_raise {A} e : denotes (@raise A e) (fun _ => None).
Proof.
  split.
  - intros w r w' [= <- <-]. split; [apply frame_refl|done].
  - done.
Qed.

Lemma denotes_log l : denotes (log l) (fun d => Some (d, tt)).
Proof.
  split.
  - intros w r w' [= <- <-]. split; [by repeat split|done].
  - intros w d' [] Hf [= <-]. by eexists.
Qed.

Lemma denotes_bind {A B} (m : M A) (k : A -> M B) f g :
  denotes m f -> (forall a, denotes (k a) (g a)) ->
  denotes (bind m k)
    (fun d => match f d with Some (d1, a) => g a d1 | None => None end).
Proof.
  intros [Hms Hmc] Hk. split.
  - intros w r w'. unfold bind. destruct (m w) as [[a|e|] w1] eqn:Hm.
    + destruct (Hms _ _ _ Hm) as [Hf1 Hr1]. intros Hka.
      destruct (Hk a) as [Hks _]. destruct (Hks _ _ _ Hka) as [Hf2 Hr2].
      split; [by eapply frame_trans|]. rewrite Hr1. done.
    + intros [= <- <-]. by destruct (Hms _ _ _ Hm).
    + intros [= <- <-]. by destruct (Hms _ _ _ Hm).
  - intros w d' b Hfa Hg. destruct (f (w_work w)) as [[d1 a]|] eqn:Hf; [|done].
    destruct (Hmc _ _ _ Hfa Hf) as (w1 & Hm & Hw1 & Hf1).
    destruct (Hk a) as [_ Hkc]. rewrite <- Hw1 in Hg.
    destruct (Hkc _ _ _ Hf1 Hg) as (w2 & Hk2 & Hw2 & Hf2).
    exists w2. unfold bind. rewrite Hm. done.
Qed.

Lemma denotes_bind_as {A B} (m : M A) (k : A -> M B) f g h :
  denotes m f -> (forall a, denotes (k a) (g a)) ->
  (forall d, match f d with Some (d1, a) => g a d1 | None => None end = h d) ->
  denotes (bind m k) h.
Proof.
  intros Hm Hk Hh. eapply denotes_ext; [exact Hh|]. by apply denotes_bind.
Qed.

Lemma fallible_cases w :
  (w_faults w = [] /\ fallible w = (Ok tt, w)) \/
  (exists fs, w_faults w = false :: fs /\ fallible w = (Ok tt, set_faults fs w)) \/
  (exists fs, w_faults w = true :: fs /\
              fallible w = (Raise MySQLError, set_faults fs w)).
Proof.
  unfold fallible. destruct (w_faults w) as [|[] fs]; eauto.
Qed.

Lemma denotes_cursor_execute q params :
  denotes (cursor_execute q params) (fun d => exec_stmt d (q_ast q) params).
Proof.
  unfold cursor_execute, mbind, M_bind, bind, emit, store_execute. split.
  - intros w r w'.
    destruct (fallible_cases (add_event (EvExecute (q_text q) params) w))
      as [[_ ->]|[(fs & Hfs & ->)|(fs & Hfs & ->)]]; cbn in *.
    + destruct (is_ddl (q_ast q));
        destruct (exec_stmt (w_work w) (q_ast q) params) as [[d res]|];
        intros [= <- <-]; repeat split; try done; cbn; intros; congruence.
    + destruct (is_ddl (q_ast q));
        destruct (exec_stmt (w_work w) (q_ast q) params) as [[d res]|];
        intros [= <- <-]; repeat split; try done; cbn; intros; congruence.
    + intros [= <- <-]; repeat split; try done; cbn; intros; congruence.
  - intros w d' a Hf He.
    destruct (fallible_cases (add_event (EvExecute (q_text q) params) w))
      as [[_ ->]|[(fs & Hfs & _)|(fs & Hfs & _)]];
      [|cbn in Hfs; congruence..].
    cbn. rewrite He. destruct (is_ddl (q_ast q)); by eexists.
Qed.

(** ** What is committed *)

Lemma keeps_committed_ret {A} (a : A) : keeps_committed (ret a).
Proof. by intros w r w' [= <- <-]. Qed.

Lemma keeps_committed_raise {A} e : keeps_committed (@raise A e).
Proof. by intros w r w' [= <- <-]. Qed.

Lemma keeps_committed_log l : keeps_committed (log l).
Proof. by intros w r w' [= <- <-]. Qed.

Lemma keeps_committed_bind {A B} (m : M A) (k : A -> M B) :
  keeps_committed m -> (forall a, keeps_committed (k a)) ->
  keeps_committed (bind m k).
Proof.
  intros Hm Hk w r w'. unfold bind.
  destruct (m w) as [[a|e|] w1] eqn:Hmw.
  - intros Hka. rewrite (Hk _ _ _ _ Hka). by eapply Hm.
  - intros [= <- <-]. by eapply Hm.
  - intros [= <- <-]. by eapply Hm.
Qed.

Lemma keeps_committed_for_each {A} (l : list A) (body : A -> M unit) :
  (forall x, keeps_committed (body x)) -> keeps_committed (for_each l body).
Proof.
  intros Hb. induction l as [|x l IH]; [apply keeps_committed_ret|].
  cbn [for_each]. apply keeps_committed_bind; [apply Hb|intros _; apply IH].
Qed.

(** A statement on rows stays in the open transaction. *)
Lemma keeps_committed_cursor_execute q params :
  is_ddl (q_ast q) = false -> keeps_committed (cursor_execute q params).
Proof.
  intros Hq w r w'.
  unfold cursor_execute, mbind, M_bind, bind, emit, store_execute.
  rewrite Hq.
  destruct (fallible_cases (add_event (EvExecute (q_text q) params) w))
    as [[_ ->]|[(fs & _ & ->)|(fs & _ & ->)]]; cbn.
  - by destruct (exec_stmt (w_work w) (q_ast q) params) as [[d res]|];
      intros [= <- <-].
  - by destruct (exec_stmt (w_work w) (q_ast q) params) as [[d res]|];
      intros [= <- <-].
  - by intros [= <- <-].
Qed.

(** A data definition statement commits what the transaction holds, and
    what it does itself. *)
Lemma cursor_execute_ddl q params w r w' :
  is_ddl (q_ast q) = true ->
  cursor_execute q params w = (r, w') ->
  match r with
  | Ok _ => w_db w' = w_work w'
  | Raise _ =>
      (w_db w' = w_work w /\ w_work w' = w_work w) \/
      (w_faults w ≠ [] /\ w_db w' = w_db w /\ w_work w' = w_work w)
  | Hang => False
  end.
Proof.
  intros Hq.
  unfold cursor_execute, mbind, M_bind, bind, emit, store_execute.
  rewrite Hq.
  destruct (fallible_cases (add_event (EvExecute (q_text q) params) w))
    as [[_ ->]|[(fs & Hfs & ->)|(fs & Hfs & ->)]]; cbn in *.
  - destruct (exec_stmt (w_work w) (q_ast q) params) as [[d res]|];
      intros [= <- <-]; [done|]. by left.
  - destruct (exec_stmt (w_work w) (q_ast q) params) as [[d res]|];
      intros [= <- <-]; [done|]. by left.
  - intros [= <- <-]. right. cbn. split; [congruence|done].
Qed.

(** ** [begin], [commit], [rollback] *)

Lemma conn_begin_inv c w r w' :
  conn_begin c w = (r, w') ->
  frame w w' /\ w_db w' = w_db w /\ w_log w' = w_log w /\
  w_trace w' = w_trace w ++ [EvBegin c] /\
  match r with
  | Ok _ => w_work w' = w_db w
  | Raise _ => w_work w' = w_work w /\ w_faults w ≠ []
  | Hang => False
  end.
Proof.
  unfold conn_begin, mbind, M_bind, bind, emit, store_begin.
  destruct (fallible_cases (add_event (EvBegin c) w))
    as [[_ ->]|[(fs & Hfs & ->)|(fs & Hfs & ->)]]; cbn in *;
    intros [= <- <-]; cbn; repeat split; try done; cbn; intros; congruence.
Qed.

Lemma conn_commit_inv c w r w' :
  conn_commit c w = (r, w') ->
  frame w w' /\ w_work w' = w_work w /\ w_log w' = w_log w /\
  w_trace w' = w_trace w ++ [EvCommit c] /\
  match r with
  | Ok _ => w_db w' = w_work w
  | Raise _ => w_db w' = w_db w /\ w_faults w ≠ []
  | Hang => False
  end.
Proof.
  unfold conn_commit, mbind, M_bind, bind, emit, store_commit.
  destruct (fallible_cases (add_event (EvCommit c) w))
    as [[_ ->]|[(fs & Hfs & ->)|(fs & Hfs & ->)]]; cbn in *;
    intros [= <- <-]; cbn; repeat split; try done; cbn; intros; congruence.
Qed.

Lemma conn_rollback_inv c w r w' :
  conn_rollback c w = (r, w') ->
  frame w w' /\ w_db w' = w_db w /\ w_work w' = w_db w /\
  w_log w' = w_log w /\ w_trace w' = w_trace w ++ [EvRollback c] /\
  match r with
  | Ok _ => True
  | Raise _ => w_faults w ≠ []
  | Hang => False
  end.
Proof.
  unfold conn_rollback, mbind, M_bind, bind, emit, store_rollback.
  match goal with |- context [fallible ?w0] =>
    destruct (fallible_cases w0) as [[_ ->]|[(fs & Hfs & ->)|(fs & Hfs & ->)]]
  end; cbn in *; intros [= <- <-]; cbn; repeat split; try done; cbn; intros; congruence.
Qed.

Lemma denotes_for_each {A} (l : list A) (body : A -> M unit)
    (f : A -> DB -> option DB) :
  (forall x, denotes (body x) (fun d => (fun d' => (d', tt)) <$> f x d)) ->
  denotes (for_each l body)
    (fun d => (fun d' => (d', tt)) <$>
              foldl (fun acc x => acc ≫= f x) (Some d) l).
Proof.
  intros Hb. induction l as [|x l IH].
  - apply denotes_ret.
  - cbn [for_each].
    eapply denotes_bind_as; [apply Hb|intros a; apply IH|].
    intros d. cbn. destruct (f x d) as [d1|]; cbn; [done|].
    clear. induction l; [done|]. cbn. done.
Qed.

Lemma conn_rollback_raises c w e w' :
  conn_rollback c w = (Raise e, w') -> e = MySQLError.
Proof.
  unfold conn_rollback, mbind, M_bind, bind, emit, store_rollback.
  match goal with |- context [fallible ?w0] =>
    destruct (fallible_cases w0) as [[_ ->]|[(fs & Hfs & ->)|(fs & Hfs & ->)]]
  end; congruence.
Qed.

Section Script.

Variable Highlights : Type.
Variable json_dumps : Highlights -> string.
Variable SEED : list (SeedTest Highlights).

#[local] Abbreviation reconcile_seed := (reconcile_seed Highlights json_dumps SEED).
#[local] Abbreviation run_action := (run_action Highlights json_dumps SEED).
#[local] Abbreviation run_script := (run_script Highlights json_dumps SEED).
#[local] Abbreviation seed_db := (seed_db Highlights json_dumps SEED).
#[local] Abbreviation action_db := (action_db Highlights json_dumps SEED).
#[local] Abbreviation script_db := (script_db Highlights json_dumps SEED).

Lemma update_all_foldl tests d :
  foldl (fun acc test =>
           acc ≫= fun d =>
             fst <$> exec_stmt d (Update PA update_cols "slug")
                       (update_values Highlights json_dumps test))
        (Some d) tests
  = update_all Highlights json_dumps tests d.
Proof.
  revert d. induction tests as [|t tests IH]; intros d; [done|].
  cbn [foldl update_all]. cbn [mbind option_bind].
  destruct (exec_stmt d _ _) as [[d1 r]|]; [apply IH|].
  clear. induction tests as [|t tests IH]; [done|]. apply IH.
Qed.

Lemma denotes_reconcile_seed :
  denotes reconcile_seed (fun d => (fun d' => (d', tt)) <$> seed_db d).
Proof.
  unfold Database.reconcile_seed, mbind, M_bind.
  eapply denotes_bind_as; [apply denotes_cursor_execute| |].
  - intros r.
    eapply (denotes_bind_as _ _
              (fun d => match fetchone r with
                        | Some row1 =>
                            match row1 !! "count" with
                            | Some v => Some (d, v)
                            | None => None
                            end
                        | None => Some (d, VInt 0)
                        end)).
    + destruct (fetchone r) as [row1|]; [|apply denotes_ret].
      destruct (row1 !! "count"); [apply denotes_ret|apply denotes_raise].
    + intros count.
      instantiate (1 := fun count d =>
        if bool_decide (count = VInt 0) then
          if bool_decide
               (String.concat ", "
                  (replicate (length SEED) placeholder_group) ≠ "")
          then (fun d' => (d', tt)) <$>
               (fst <$> exec_stmt d (Insert PA insert_cols (length SEED))
                          (mjoin (insert_values Highlights json_dumps <$> SEED)))
          else Some (d, tt)
        else (fun d' => (d', tt)) <$> update_all Highlights json_dumps SEED d).
      cbn beta. case_bool_decide.
      * case_bool_decide; [|apply denotes_ret].
        eapply denotes_bind_as;
          [apply denotes_cursor_execute|intros ?; apply denotes_log|].
        intros d. cbn. by destruct (exec_stmt d _ _) as [[d1 r1]|].
      * eapply denotes_ext; [|apply denotes_for_each with
          (f := fun test d =>
                  fst <$> exec_stmt d (Update PA update_cols "slug")
                            (update_values Highlights json_dumps test))].
        -- intros d. cbn beta. by rewrite update_all_foldl.
        -- intros test.
           eapply denotes_bind_as;
             [apply denotes_cursor_execute|intros ?; apply denotes_ret|].
           intros d. cbn. by destruct (exec_stmt d _ _) as [[d1 r1]|].
    + intros d. reflexivity.
  - intros d. unfold Aux.seed_db. cbn [q_ast literal].
    destruct (exec_stmt d (SelectCount PA) []) as [[d1 r]|]; [|done].
    destruct (fetchone r) as [row1|].
    + destruct (row1 !! "count") as [count|]; [|done].
      case_bool_decide; [|done]. by case_bool_decide.
    + case_bool_decide; [|done]. by case_bool_decide.
Qed.

Lemma denotes_run_action a :
  denotes (run_action a) (fun d => (fun d' => (d', tt)) <$> action_db a d).
Proof.
  destruct a as [s|msg|]; cbn [Database.run_action Aux.action_db].
  - unfold mbind, M_bind.
    eapply denotes_bind_as;
      [apply denotes_cursor_execute|intros ?; apply denotes_ret|].
    intros d. cbn [q_ast literal]. by destruct (exec_stmt d s []) as [[d1 r]|].
  - apply denotes_log.
  - apply denotes_reconcile_seed.
Qed.

Lemma denotes_run_script script :
  denotes (run_script script) (fun d => (fun d' => (d', tt)) <$> script_db script d).
Proof.
  eapply denotes_ext; [|apply denotes_for_each, denotes_run_action].
  intros d. cbn beta. f_equal. revert d.
  induction script as [|a script IH]; intros d; [done|].
  cbn [foldl Aux.script_db]. cbn [mbind option_bind].
  destruct (action_db a d) as [d1|]; [apply IH|].
  clear. induction script as [|a script IH]; [done|]. apply IH.
Qed.

(** ** What a run of the script commits *)

#[local] Abbreviation script_reach := (script_reach Highlights json_dumps SEED).

Lemma keeps_committed_reconcile_seed : keeps_committed reconcile_seed.
Proof.
  unfold Database.reconcile_seed, mbind, M_bind.
  apply keeps_committed_bind; [by apply keeps_committed_cursor_execute|].
  intros r. apply keeps_committed_bind.
  - destruct (fetchone r) as [row1|]; [|apply keeps_committed_ret].
    destruct (row1 !! "count");
      [apply keeps_committed_ret|apply keeps_committed_raise].
  - intros count. case_bool_decide.
    + case_bool_decide; [|apply keeps_committed_ret].
      apply keeps_committed_bind;
        [by apply keeps_committed_cursor_execute
        |intros; apply keeps_committed_log].
    + apply keeps_committed_for_each. intros test.
      apply keeps_committed_bind;
        [by apply keeps_committed_cursor_execute
        |intros; apply keeps_committed_ret].
Qed.

(** One step of the script: what it does to the transaction, and what is
    committed when it ends. *)
Lemma run_action_step a w r w' :
  is_schema_step a = true -> run_action a w = (r, w') ->
  frame w w' /\
  match r with
  | Ok _ =>
      action_db a (w_work w) = Some (w_work w') /\
      w_db w' = (if commits a then w_work w' else w_db w)
  | Raise _ =>
      (w_faults w = [] -> action_db a (w_work w) = None) /\
      (w_db w' = (if commits a then w_work w else w_db w) \/
       (w_faults w ≠ [] /\ w_db w' = w_db w))
  | Hang => False
  end.
Proof.
  intros Hstep Hrun.
  destruct (denotes_run_action a) as [Hs Hc].
  destruct (Hs _ _ _ Hrun) as [Hfr Hwork]. split; [done|].
  assert (Hnone : forall e, r = Raise e -> w_faults w = [] ->
                            action_db a (w_work w) = None).
  { intros e -> Hf. destruct (action_db a (w_work w)) as [d1|] eqn:Ha; [|done].
    destruct (Hc w d1 tt Hf) as (w1 & Hrun1 & _); [by rewrite Ha|]. congruence. }
  assert (Hdb : match r with
                | Ok _ => w_db w' = (if commits a then w_work w' else w_db w)
                | Raise _ =>
                    w_db w' = (if commits a then w_work w else w_db w) \/
                    (w_faults w ≠ [] /\ w_db w' = w_db w)
                | Hang => False
                end).
  { destruct a as [s|msg|]; cbn [Database.run_action commits] in Hrun |- *.
    - assert (Hd : is_ddl s = true) by by destruct s.
      rewrite Hd. unfold mbind, M_bind, bind in Hrun.
      destruct (cursor_execute (literal s) [] w) as [[res|e|] w1] eqn:Hex;
        injection Hrun as <- <-;
        apply cursor_execute_ddl in Hex; try done.
      destruct Hex as [[? _]|(? & ? & _)]; [by left|by right].
    - injection Hrun as <- <-. done.
    - pose proof (keeps_committed_reconcile_seed _ _ _ Hrun) as Hk.
      destruct r; [done|by left|done]. }
  destruct r as [[]|e|]; [|by eauto|done].
  split; [|done]. destruct (action_db a (w_work w)); [|done].
  cbn in Hwork. congruence.
Qed.

Lemma run_script_cons a rest w :
  run_script (a :: rest) w =
  match run_action a w with
  | (Ok _, w1) => run_script rest w1
  | (Raise e, w1) => (Raise e, w1)
  | (Hang, w1) => (Hang, w1)
  end.
Proof. reflexivity. Qed.

(** Whatever fails, what is committed is the outcome of the first steps of
    the script, up to some step. *)
Lemma run_script_committed script done d0 w r w' :
  well_ordered script = true ->
  run_script script w = (r, w') ->
  script_db done d0 = Some (w_work w) ->
  (exists n, script_db (take n (done ++ script)) d0 = Some (w_db w)) ->
  exists n, script_db (take n (done ++ script)) d0 = Some (w_db w').
Proof.
  revert done w. induction script as [|a rest IH]; intros done w Hw.
  - by intros [= <- <-].
  - cbn in Hw. apply andb_true_iff in Hw as [Hw Hrest].
    apply andb_true_iff in Hw as [Hstep _].
    rewrite run_script_cons.
    destruct (run_action a w) as [[[]|e|] w1] eqn:Ha;
      apply (run_action_step _ _ _ _ Hstep) in Ha as [_ Ha]; [| |done].
    + destruct Ha as [Hact Hdb]. intros Hrun Hdone Hhere.
      rewrite cons_middle, app_assoc.
      assert (Hdone1 : script_db (done ++ [a]) d0 = Some (w_work w1)).
      { rewrite script_db_app, Hdone. cbn. by rewrite Hact. }
      eapply IH; [done|exact Hrun|done|].
      rewrite <- app_assoc, <- cons_middle.
      destruct (commits a); [|by rewrite Hdb].
      exists (length (done ++ [a])).
      replace (done ++ a :: rest) with ((done ++ [a]) ++ rest)
        by by rewrite <- app_assoc.
      rewrite take_app_length. congruence.
    + destruct Ha as [_ Hdb]. intros [= <- <-] Hdone Hhere.
      assert (Hcase : w_db w1 = w_work w \/ w_db w1 = w_db w).
      { destruct Hdb as [Hdb|[_ Hdb]]; rewrite Hdb; [|by right].
        destruct (commits a); [by left|by right]. }
      destruct Hcase as [Hcase|Hcase]; rewrite Hcase; [|done].
      exists (length done). by rewrite take_app_length.
Qed.

(** Without driver failures, a run that stops has committed everything up
    to the step the store refused, and nothing of that step. *)
Lemma run_script_reach script w e w' :
  w_faults w = [] -> well_ordered script = true ->
  (w_work w = w_db w \/ ReconcileSeed ∉ script) ->
  run_script script w = (Raise e, w') ->
  script_db script (w_work w) = None /\
  w_db w' = script_reach script (w_work w).
Proof.
  revert w. induction script as [|a rest IH]; intros w Hf Hw Hclean.
  - done.
  - cbn in Hw. apply andb_true_iff in Hw as [Hw Hrest].
    apply andb_true_iff in Hw as [Hstep Hfollow].
    rewrite run_script_cons. cbn [Aux.script_db Aux.script_reach].
    destruct (run_action a w) as [[[]|e1|] w1] eqn:Ha;
      apply (run_action_step _ _ _ _ Hstep) in Ha as [Hfr Ha]; [| |done].
    + destruct Ha as [Hact Hdb]. rewrite Hact. intros Hrun.
      apply IH in Hrun; [done|by apply Hfr|done|].
      destruct a as [s|msg|]; cbn [commits] in Hdb.
      * left. assert (Hd : is_ddl s = true) by by destruct s.
        by rewrite Hd in Hdb.
      * cbn in Hact. injection Hact as Hact. rewrite <- Hact, Hdb.
        destruct Hclean as [?|Hno]; [by left|right].
        intros Hin. apply Hno. by right.
      * right. intros Hin. rewrite forallb_forall in Hfollow.
        apply list_elem_of_In in Hin. by apply Hfollow in Hin.
    + destruct Ha as [Hnone Hdb]. intros [= <- <-].
      rewrite (Hnone Hf). split; [done|].
      destruct Hdb as [Hdb|[? _]]; [|done]. rewrite Hdb.
      destruct a as [s|msg|]; cbn [commits].
      * assert (Hd : is_ddl s = true) by by destruct s. by rewrite Hd.
      * by specialize (Hnone Hf).
      * destruct Hclean as [?|Hno]; [done|]. exfalso. apply Hno. by left.
Qed.

End Script.

(** ** The pool *)

Lemma issued_sql_add e w :
  issued_sql (add_event e w) =
  issued_sql w ++ match e with EvExecute text _ => [text] | _ => [] end.
Proof.
  unfold issued_sql. cbn. rewrite omap_app. cbn. by destruct e.
Qed.

Lemma untouched_refl w : untouched w w.
Proof. by repeat split. Qed.

Lemma untouched_trans w1 w2 w3 :
  untouched w1 w2 -> untouched w2 w3 -> untouched w1 w3.
Proof. unfold untouched. intros (?&?&?&?) (?&?&?&?). repeat split; congruence. Qed.

Lemma get_pool_ready w p :
  w_pool w = Some p -> get_pool w = (Ok (pool_id p), w).
Proof.
  intros Hp. unfold get_pool, mbind, M_bind, bind, read_pool. by rewrite Hp.
Qed.

Lemma get_pool_create w :
  w_pool w = None ->
  get_pool w =
  let w0 := add_event EvCreatePool
              (add_log (LogInfo "Creating MySQL connection pool: host=%s db=%s") w) in
  match fallible w0 with
  | (Ok _, w1) =>
      (Ok (w_created w),
       set_pool (Some {| pool_id := w_created w;
                         pool_maxsize := maxsize (w_config w);
                         pool_used := []; pool_next := 0 |})
                (S (w_created w)) w1)
  | (Raise e, w1) => (Raise e, w1)
  | (Hang, w1) => (Hang, w1)
  end.
Proof.
  intros Hp.
  unfold get_pool, create_pool, read_pool, read_config, log, emit, get_world,
    store_pool.
  unfold mbind, M_bind, bind, ret.
  rewrite Hp. cbn zeta.
  match goal with |- context [fallible ?w0] =>
    destruct (fallible_cases w0) as [[Hf ->]|[(fs & Hf & ->)|(fs & Hf & ->)]]
  end; reflexivity.
Qed.

Ltac solve_untouched :=
  unfold untouched, issued_sql; cbn;
  rewrite ?omap_app; cbn; rewrite ?app_nil_r; by repeat split.

Lemma get_pool_inv w r w1 :
  get_pool w = (r, w1) ->
  untouched w w1 /\ borrowed w1 = borrowed w /\ r ≠ Hang /\
  (pool_wf w -> pool_wf w1) /\
  (forall pool, r = Ok pool -> is_Some (w_pool w1)) /\
  (has_capacity w -> has_capacity w1) /\
  (w_faults w = [] -> w_faults w1 = [] /\ exists pool, r = Ok pool).
Proof.
  destruct (w_pool w) as [p|] eqn:Hp.
  - rewrite (get_pool_ready _ _ Hp). intros [= <- <-].
    split; [apply untouched_refl|]. repeat split; try done; eauto.
  - rewrite (get_pool_create _ Hp). cbn zeta.
    match goal with |- context [fallible ?w0] =>
      destruct (fallible_cases w0) as [[Hf ->]|[(fs & Hf & ->)|(fs & Hf & ->)]]
    end; cbn in Hf; intros [= <- <-];
      (split; [solve_untouched|]); unfold borrowed, pool_wf, has_capacity;
      cbn; rewrite Hp; repeat split; try done; eauto; congruence.
Qed.

Lemma pool_acquire_inv pool w r w2 :
  pool_acquire pool w = (r, w2) ->
  untouched w w2 /\ w_log w2 = w_log w /\
  match r with
  | Ok c =>
      exists p, w_pool w = Some p /\ c = pool_next p /\
        w_pool w2 = Some {| pool_id := pool_id p; pool_maxsize := pool_maxsize p;
                            pool_used := c :: pool_used p; pool_next := S c |}
  | Raise _ => borrowed w2 = borrowed w
  | Hang => w2 = w /\ ~ has_capacity w
  end /\
  (w_faults w = [] -> is_Some (w_pool w) -> has_capacity w ->
   w_faults w2 = [] /\ exists c, r = Ok c).
Proof.
  unfold pool_acquire, has_capacity. destruct (w_pool w) as [p|] eqn:Hp.
  - case_bool_decide as Hcap.
    + destruct (fallible_cases w) as [[Hf ->]|[(fs & Hf & ->)|(fs & Hf & ->)]];
        intros [= <- <-]; (split; [solve_untouched|]); (split; [done|]).
      * split; [by exists p|]. intros _ _ _. split; [done|]. by eexists.
      * split; [by exists p|]. congruence.
      * split; [|congruence]. unfold borrowed. cbn. done.
    + intros [= <- <-]. split; [apply untouched_refl|]. split; [done|].
      split; [done|]. done.
  - intros [= <- <-]. split; [apply untouched_refl|]. split; [done|].
    split; [unfold borrowed; by rewrite Hp|]. intros _ [? [=]].
Qed.

Lemma conn_ping_inv c w r w3 :
  conn_ping c w = (r, w3) ->
  untouched w w3 /\ w_pool w3 = w_pool w /\ w_log w3 = w_log w /\ r ≠ Hang /\
  (w_faults w = [] -> w_faults w3 = [] /\ r = Ok tt).
Proof.
  unfold conn_ping, mbind, M_bind, bind, emit.
  match goal with |- context [fallible ?w0] =>
    destruct (fallible_cases w0) as [[Hf ->]|[(fs & Hf & ->)|(fs & Hf & ->)]]
  end; cbn in Hf; intros [= <- <-]; (split; [solve_untouched|]);
    repeat split; try done; congruence.
Qed.

Lemma filter_keeps_all {A} (P : A -> Prop) `{forall x, Decision (P x)} (l : list A) :
  Forall P l -> filter P l = l.
Proof.
  induction 1 as [|x l Hx _ IH]; [done|].
  rewrite filter_cons, decide_True by done. by rewrite IH.
Qed.

Lemma pool_release_ok pool c w p :
  w_pool w = Some p -> c ∈ pool_used p ->
  exists w', pool_release pool c w = (Ok tt, w') /\
    untouched w w' /\ w_log w' = w_log w /\ w_faults w' = w_faults w /\
    w_trace w' = w_trace w ++ [EvRelease c] /\
    borrowed w' = filter (fun x => x ≠ c) (pool_used p).
Proof.
  intros Hp Hc. unfold pool_release. rewrite Hp.
  rewrite bool_decide_eq_true_2 by done. eexists. split; [done|].
  split; [solve_untouched|]. done.
Qed.

Lemma entered_inv w pool c w3 :
  entered w = Some (pool, c, w3) ->
  untouched w w3 /\
  (exists p, w_pool w3 = Some p /\ pool_used p = c :: borrowed w /\
             (pool_wf w -> c ∉ borrowed w)).
Proof.
  unfold entered.
  destruct (get_pool w) as [[pl|e|] w1] eqn:Hg; try done.
  destruct (pool_acquire pl w1) as [[c'|e|] w2] eqn:Ha; try done.
  destruct (conn_ping c' w2) as [[[]|e|] w3'] eqn:Hpg; try done.
  intros [= <- <- <-].
  apply get_pool_inv in Hg as (Hu1 & Hb1 & _ & Hwf & _).
  apply pool_acquire_inv in Ha as (Hu2 & _ & (p & Hp & -> & Hp2) & _).
  apply conn_ping_inv in Hpg as (Hu3 & Hp3 & _).
  split; [eauto using untouched_trans|].
  eexists. split; [by rewrite Hp3, Hp2|]. cbn. split.
  - rewrite <- Hb1. unfold borrowed. by rewrite Hp.
  - intros Hw. specialize (Hwf Hw). unfold pool_wf in Hwf. rewrite Hp in Hwf.
    rewrite <- Hb1. unfold borrowed. rewrite Hp. intros Hin.
    rewrite Forall_forall in Hwf. specialize (Hwf _ Hin). lia.
Qed.

Lemma entered_ready w :
  w_faults w = [] -> has_capacity w ->
  exists pool c w3, entered w = Some (pool, c, w3) /\ w_faults w3 = [].
Proof.
  intros Hf Hcap. unfold entered.
  destruct (get_pool w) as [r1 w1] eqn:Hg.
  apply get_pool_inv in Hg as (_ & _ & _ & _ & Hsome & Hcap1 & Hok).
  destruct (Hok Hf) as (Hf1 & pl & ->).
  destruct (pool_acquire pl w1) as [r2 w2] eqn:Ha.
  apply pool_acquire_inv in Ha as (_ & _ & _ & Hok2).
  destruct (Hok2 Hf1 (Hsome _ eq_refl) (Hcap1 Hcap)) as (Hf2 & c & ->).
  destruct (conn_ping c w2) as [r3 w3] eqn:Hpg.
  apply conn_ping_inv in Hpg as (_ & _ & _ & _ & Hok3).
  destruct (Hok3 Hf2) as (Hf3 & ->). eauto.
Qed.

Lemma pool_acquire_calm pool w r w2 :
  pool_acquire pool w = (r, w2) -> w_faults w = [] -> w_faults w2 = [].
Proof.
  unfold pool_acquire. destruct (w_pool w) as [p|].
  - case_bool_decide.
    + destruct (fallible_cases w) as [[Hf ->]|[(fs & Hf & ->)|(fs & Hf & ->)]];
        intros [= <- <-]; cbn; congruence.
    + by intros [= <- <-].
  - by intros [= <- <-].
Qed.

Lemma entered_calm w pool c w3 :
  entered w = Some (pool, c, w3) -> w_faults w = [] -> w_faults w3 = [].
Proof.
  unfold entered.
  destruct (get_pool w) as [[pl|e|] w1] eqn:Hg; try done.
  destruct (pool_acquire pl w1) as [[c'|e|] w2] eqn:Ha; try done.
  destruct (conn_ping c' w2) as [[[]|e|] w3'] eqn:Hpg; try done.
  intros [= <- <- <-] Hf.
  apply get_pool_inv in Hg as (_ & _ & _ & _ & _ & _ & Hok).
  destruct (Hok Hf) as [Hf1 _].
  apply (pool_acquire_calm _ _ _ _ Ha) in Hf1.
  apply conn_ping_inv in Hpg as (_ & _ & _ & _ & Hok3).
  by destruct (Hok3 Hf1).
Qed.

(** If the block is not entered, nothing is borrowed and the store is not
    touched. *)
Lemma not_entered {A} (body : nat -> M A) w :
  entered w = None ->
  exists r w', connection body w = (r, w') /\
    (forall a, r ≠ Ok a) /\ untouched w w' /\
    (r ≠ Hang -> pool_wf w -> borrowed w' = borrowed w).
Proof.
  unfold entered, connection, mbind, M_bind, bind, try_finally.
  destruct (get_pool w) as [[pl|e|] w1] eqn:Hg.
  - apply get_pool_inv in Hg as (Hu1 & Hb1 & _ & Hwf & _).
    destruct (pool_acquire pl w1) as [[c|e|] w2] eqn:Ha.
    + pose proof Ha as Ha'.
      apply pool_acquire_inv in Ha' as (Hu2 & _ & (p & Hp & -> & Hp2) & _).
      destruct (conn_ping (pool_next p) w2) as [[[]|e|] w3] eqn:Hpg; [done| |].
      * intros _. apply conn_ping_inv in Hpg as (Hu3 & Hp3 & _).
        rewrite Hp2 in Hp3.
        destruct (pool_release_ok pl (pool_next p) w3 _ Hp3)
          as (w' & Hr & Hu4 & _ & _ & _ & Hb4); [by left|].
        rewrite Hr. exists (Raise e), w'. split; [done|]. split; [done|].
        split; [eauto using untouched_trans|].
        intros _ Hw. rewrite Hb4, <- Hb1. cbn. unfold borrowed. rewrite Hp.
        rewrite decide_False by (intros H; by apply H).
        apply filter_keeps_all, Forall_forall. intros x Hx.
        specialize (Hwf Hw). unfold pool_wf in Hwf. rewrite Hp in Hwf.
        rewrite Forall_forall in Hwf. specialize (Hwf _ Hx). lia.
      * by apply conn_ping_inv in Hpg as (_ & _ & _ & ? & _).
    + intros _. apply pool_acquire_inv in Ha as (Hu2 & _ & Hb2 & _).
      exists (Raise e), w2. split; [done|]. split; [done|].
      split; [by eapply untouched_trans|]. intros; congruence.
    + intros _. apply pool_acquire_inv in Ha as (Hu2 & _ & [-> _] & _).
      exists Hang, w1. split; [done|]. split; [done|]. split; [done|]. done.
  - intros _. apply get_pool_inv in Hg as (Hu1 & Hb1 & _).
    exists (Raise e), w1. split; [done|]. split; [done|]. split; [done|]. done.
  - by apply get_pool_inv in Hg as (_ & _ & ? & _).
Qed.

(** Once entered, the block runs and the connection is released. *)
Lemma connection_entered {A} (body : nat -> M A) w pool c w3 :
  entered w = Some (pool, c, w3) ->
  connection body w =
  match body c w3 with
  | (Hang, wb) => (Hang, wb)
  | (rb, wb) =>
      match pool_release pool c wb with
      | (Ok _, w') => (rb, w')
      | (Raise e, w') => (Raise e, w')
      | (Hang, w') => (Hang, w')
      end
  end.
Proof.
  unfold entered, connection, mbind, M_bind, bind, try_finally.
  destruct (get_pool w) as [[pl|e|] w1] eqn:Hg; try done.
  destruct (pool_acquire pl w1) as [[c'|e|] w2] eqn:Ha; try done.
  destruct (conn_ping c' w2) as [[[]|e|] w3'] eqn:Hpg; try done.
  intros [= <- <- <-]. by destruct (body c' w3') as [[a|e|] wb].
Qed.

End RunFacts.

(* ===================================================================== *)
(** * The scoped connection *)
(* ===================================================================== *)

Module Connection.
Import Store Runtime Database Aux StoreFacts RunFacts.

Lemma acquired_add e w :
  acquired (add_event e w) = (acquired w + if is_acquire e then 1 else 0)%nat.
Proof.
  unfold acquired. cbn. rewrite List.filter_app, length_app. cbn.
  by destruct (is_acquire e).
Qed.

Lemma released_add e w :
  released (add_event e w) = (released w + if is_release e then 1 else 0)%nat.
Proof.
  unfold released. cbn. rewrite List.filter_app, length_app. cbn.
  by destruct (is_release e).
Qed.

Lemma fallible_quiet w r w' :
  fallible w = (r, w') ->
  w_trace w' = w_trace w /\ w_pool w' = w_pool w /\ r ≠ Hang.
Proof.
  destruct (fallible_cases w) as [[_ ->]|[(fs & _ & ->)|(fs & _ & ->)]];
    by intros [= <- <-].
Qed.

Lemma get_pool_counts w r w1 :
  get_pool w = (r, w1) ->
  acquired w1 = acquired w /\ released w1 = released w.
Proof.
  destruct (w_pool w) as [p|] eqn:Hp.
  - rewrite (get_pool_ready _ _ Hp). by intros [= <- <-].
  - rewrite (get_pool_create _ Hp). cbn zeta.
    match goal with |- context [fallible ?w0] =>
      destruct (fallible w0) as [[[]|e|] wf] eqn:Hf;
      apply fallible_quiet in Hf as (Htr & _ & Hh)
    end; [| |done]; intros [= <- <-]; unfold acquired, released in *; cbn;
      rewrite Htr; cbn; rewrite !List.filter_app, !length_app; cbn; lia.
Qed.

Lemma pool_acquire_facts pool w c w2 :
  pool_acquire pool w = (Ok c, w2) -> pool_wf w ->
  (borrowed w2 = c :: borrowed w) /\ (c ∉ borrowed w) /\ pool_wf w2 /\
  acquired w2 = S (acquired w) /\ released w2 = released w.
Proof.
  unfold pool_acquire, pool_wf, borrowed.
  destruct (w_pool w) as [p|] eqn:Hp; [|done].
  case_bool_decide; [|done].
  destruct (fallible w) as [[[]|e|] wf] eqn:Hf; [|done..].
  apply fallible_quiet in Hf as (Htr & _ & _).
  intros [= <- <-] Hwf. cbn. repeat split.
  - intros Hin. rewrite Forall_forall in Hwf. specialize (Hwf _ Hin). lia.
  - constructor; [lia|]. eapply Forall_impl; [exact Hwf|]. cbn. lia.
  - unfold acquired. cbn. rewrite Htr, List.filter_app, length_app. cbn. lia.
  - unfold released. cbn. rewrite Htr, List.filter_app, length_app. cbn. lia.
Qed.

Lemma pool_acquire_fails pool w e w2 :
  pool_acquire pool w = (Raise e, w2) ->
  borrowed w2 = borrowed w /\ (pool_wf w -> pool_wf w2) /\
  acquired w2 = acquired w /\ released w2 = released w.
Proof.
  unfold pool_acquire, pool_wf, borrowed.
  destruct (w_pool w) as [p|] eqn:Hp; [|by intros [= <- <-]; rewrite Hp].
  case_bool_decide; [|done].
  destruct (fallible w) as [[[]|e'|] wf] eqn:Hf; [done| |done].
  apply fallible_quiet in Hf as (Htr & Hpl & _).
  intros [= <- <-]. rewrite Hpl, Hp. unfold acquired, released. by rewrite Htr.
Qed.

Lemma conn_ping_facts c w r w3 :
  conn_ping c w = (r, w3) ->
  r ≠ Hang /\ borrowed w3 = borrowed w /\ (pool_wf w -> pool_wf w3) /\
  acquired w3 = acquired w /\ released w3 = released w.
Proof.
  unfold conn_ping, mbind, M_bind, bind, emit.
  match goal with |- context [fallible ?w0] =>
    destruct (fallible w0) as [[[]|e|] wf] eqn:Hf;
    apply fallible_quiet in Hf as (Htr & Hpl & Hh)
  end; [| |done]; intros [= <- <-]; unfold borrowed, pool_wf;
    rewrite Hpl; cbn; (split; [done|]); (split; [done|]); (split; [done|]);
    unfold acquired, released; rewrite Htr; cbn;
    rewrite !List.filter_app, !length_app; cbn; lia.
Qed.

Lemma pool_release_facts pool c w :
  c ∈ borrowed w -> pool_wf w ->
  exists w', pool_release pool c w = (Ok tt, w') /\
    borrowed w' = filter (fun x => x ≠ c) (borrowed w) /\ pool_wf w' /\
    acquired w' = acquired w /\ released w' = S (released w) /\
    w_trace w' = w_trace w ++ [EvRelease c].
Proof.
  unfold pool_release, borrowed, pool_wf.
  destruct (w_pool w) as [p|] eqn:Hp; [|by intros ?%elem_of_nil].
  intros Hc Hwf. rewrite bool_decide_eq_true_2 by done.
  eexists. split; [done|]. cbn. repeat split.
  - apply Forall_forall. intros x Hx. apply list_elem_of_filter in Hx as [_ Hx].
    rewrite Forall_forall in Hwf. by apply Hwf.
  - unfold acquired. cbn. rewrite List.filter_app, length_app. cbn. lia.
  - unfold released. cbn. rewrite List.filter_app, length_app. cbn. lia.
Qed.

Lemma filter_fresh (c : nat) (l : list nat) :
  c ∉ l -> filter (fun x => x ≠ c) (c :: l) = l.
Proof.
  intros Hc. rewrite filter_cons, decide_False by (intros H; by apply H).
  apply filter_keeps_all, Forall_forall. intros x Hx ->. done.
Qed.

(** A block that is balanced stays balanced when run under [connection]. *)
Lemma connection_balanced {A} (body : nat -> M A) :
  balanced body -> balanced (fun _ : nat => connection body).
Proof.
  intros Hbody _ w r w' Hwf.
  unfold connection, mbind, M_bind, bind, try_finally.
  destruct (get_pool w) as [[pl|e|] w1] eqn:Hg.
  2:{ intros [= <- <-] _. pose proof (get_pool_counts _ _ _ Hg) as [Ha Hr].
      apply get_pool_inv in Hg as (_ & Hb & _ & Hw & _).
      split; [done|]. split; [auto|]. lia. }
  2:{ by apply get_pool_inv in Hg as (_ & _ & ? & _). }
  pose proof (get_pool_counts _ _ _ Hg) as [Ha1 Hr1].
  apply get_pool_inv in Hg as (_ & Hb1 & _ & Hw1 & _). specialize (Hw1 Hwf).
  destruct (pool_acquire pl w1) as [[c|e|] w2] eqn:Hacq.
  2:{ intros [= <- <-] _.
      apply pool_acquire_fails in Hacq as (Hb & Hw & Ha & Hr).
      split; [congruence|]. split; [auto|]. lia. }
  2:{ by intros [= <- <-]. }
  apply pool_acquire_facts in Hacq as (Hb2 & Hfresh & Hw2 & Ha2 & Hr2); [|done].
  destruct (conn_ping c w2) as [[[]|e|] w3] eqn:Hping.
  3:{ by apply conn_ping_facts in Hping as (? & _). }
  - apply conn_ping_facts in Hping as (_ & Hb3 & Hw3 & Ha3 & Hr3).
    specialize (Hw3 Hw2).
    destruct (body c w3) as [rb wb] eqn:Hrun.
    assert (rb ≠ Hang -> exists w'',
              pool_release pl c wb = (Ok tt, w'') /\
              borrowed w'' = borrowed w /\ pool_wf w'' /\
              (acquired w'' + released w = acquired w + released w'')%nat)
      as Hrel.
    { intros Hh. destruct (Hbody _ _ _ _ Hw3 Hrun Hh) as (Hbb & Hwb & Hcnt).
      destruct (pool_release_facts pl c wb) as (w'' & Hr & Hb' & Hw' & Ha' & Hr' & _).
      - rewrite Hbb, Hb3, Hb2. by left.
      - done.
      - exists w''. split; [done|]. split; [|split; [done|lia]].
        rewrite Hb', Hbb, Hb3, Hb2, filter_fresh by done. done. }
    destruct rb as [a|e|].
    + destruct Hrel as (w'' & -> & ?); [done|]. by intros [= <- <-].
    + destruct Hrel as (w'' & -> & ?); [done|]. by intros [= <- <-].
    + by intros [= <- <-].
  - apply conn_ping_facts in Hping as (_ & Hb3 & Hw3 & Ha3 & Hr3).
    specialize (Hw3 Hw2).
    destruct (pool_release_facts pl c w3) as (w'' & -> & Hb' & Hw' & Ha' & Hr' & _).
    + rewrite Hb3, Hb2. by left.
    + done.
    + intros [= <- <-] _. split; [|split; [done|lia]].
      rewrite Hb', Hb3, Hb2, filter_fresh by done. done.
Qed.

Lemma overlapping_balanced n e : balanced (fun _ : nat => overlapping n e).
Proof.
  induction n as [|n IH].
  - intros _ w r w' Hwf [= <- <-] _. split; [done|]. split; [done|]. lia.
  - cbn [overlapping]. apply (connection_balanced (fun _ => overlapping n e)).
    exact IH.
Qed.

Lemma overlapping_fails n e w r w' :
  overlapping n e w = (r, w') -> forall a, r ≠ Ok a.
Proof.
  revert w r w'. induction n as [|n IH]; intros w r w'.
  - by intros [= <- <-].
  - cbn [overlapping]. unfold connection, mbind, M_bind, bind, try_finally.
    destruct (get_pool w) as [[pl|?|] w1]; [|by intros [= <- <-]..].
    destruct (pool_acquire pl w1) as [[c|?|] w2]; [|by intros [= <- <-]..].
    destruct (conn_ping c w2) as [[[]|?|] w3].
    + destruct (overlapping n e w3) as [[[]|?|] wb] eqn:Hn.
      * by destruct (IH _ _ _ Hn tt).
      * destruct (pool_release pl c wb) as [[[]|?|] ?]; by intros [= <- <-].
      * by intros [= <- <-].
    + destruct (pool_release pl c w3) as [[[]|?|] ?]; by intros [= <- <-].
    + by intros [= <- <-].
Qed.

(** C7 -- scoped acquisition never leaks.  For every block that is itself
    balanced, [connection] ends (by return or by exception, of the probe or of
    the block) with the same connections out of the pool as before and with
    exactly as many releases as acquisitions recorded; in particular after
    [n] overlapping borrows whose innermost block fails, the call has failed
    and the pool is back at its baseline. *)
Theorem connection_always_releases :
  (forall A (body : nat -> M A) w r w',
     balanced body -> pool_wf w ->
     connection body w = (r, w') -> r ≠ Hang ->
     borrowed w' = borrowed w /\
     (acquired w' + released w = acquired w + released w')%nat)
  /\ (forall n e w r w',
        pool_wf w -> overlapping n e w = (r, w') -> r ≠ Hang ->
        (exists e', r = Raise e') /\ borrowed w' = borrowed w /\
        (acquired w' + released w = acquired w + released w')%nat).
Proof.
  split.
  - intros A body w r w' Hbody Hwf Hrun Hh.
    destruct (connection_balanced body Hbody 0%nat w r w' Hwf Hrun Hh)
      as (Hb & _ & Hc). done.
  - intros n e w r w' Hwf Hrun Hh.
    destruct (overlapping_balanced n e 0%nat w r w' Hwf Hrun Hh) as (Hb & _ & Hc).
    split; [|done]. pose proof (overlapping_fails _ _ _ _ _ Hrun) as Hno.
    destruct r as [[]|e'|]; [by destruct (Hno tt)|by exists e'|done].
Qed.

Import Examples.

Lemma connection_always_releases_witness :
  (exists e', (overlapping 3 (KeyError "boom") (boot ∅)).1 = Raise e') /\
  borrowed (overlapping 3 (KeyError "boom") (boot ∅)).2 = [].
Proof.
  destruct (proj2 connection_always_releases 3%nat (KeyError "boom") (boot ∅)
              (overlapping 3 (KeyError "boom") (boot ∅)).1
              (overlapping 3 (KeyError "boom") (boot ∅)).2)
    as (He & Hb & _).
  - vm_compute. exact I.
  - vm_compute. reflexivity.
  - vm_compute. discriminate.
  - split; [exact He|exact Hb].
Defined.

End Connection.

(* ===================================================================== *)
(** * The schema reconciler: [create_tables] and [_initialize_schema] *)
(* ===================================================================== *)

Module Reconciler.
Import Store Runtime Database Aux StoreFacts SeedFacts RunFacts.

#[local] Arguments exec_stmt : simpl never.
#[local] Arguments Aux.script_db : simpl never.

Section Reconciler.

Variable Highlights : Type.
Variable json_dumps : Highlights -> string.
Variable SEED : list (SeedTest Highlights).

#[local] Abbreviation reconcile_seed := (reconcile_seed Highlights json_dumps SEED).
#[local] Abbreviation _initialize_schema := (_initialize_schema Highlights json_dumps SEED).
#[local] Abbreviation create_tables := (create_tables Highlights json_dumps SEED).
#[local] Abbreviation script_db := (script_db Highlights json_dumps SEED).
#[local] Abbreviation update_pass := (update_pass Highlights json_dumps SEED).
#[local] Abbreviation mutable_values := (mutable_values Highlights json_dumps).

Lemma initialize_schema_denotes :
  denotes _initialize_schema
    (fun d => (fun d' => (d', tt)) <$> script_db schema_script d).
Proof. apply denotes_run_script. Qed.

#[local] Abbreviation script_reach := (script_reach Highlights json_dumps SEED).

(** What [create_tables] does once its block is entered: either [begin],
    the script and [commit] go through, or one of them raises at some world
    [wx] and the handler runs from there. *)
Lemma create_tables_entered w pool c w3 :
  entered w = Some (pool, c, w3) ->
  exists r w',
    create_tables w = (r, w') /\ (c ∉ borrowed w') /\
    (w_faults w3 = [] -> w_faults w' = []) /\
    ((exists wb w4 w5,
        conn_begin c w3 = (Ok tt, wb) /\
        _initialize_schema wb = (Ok tt, w4) /\
        conn_commit c w4 = (Ok tt, w5) /\
        r = Ok true /\ w_db w' = w_work w4 /\ w_work w' = w_work w4)
     \/
     (exists e wx,
        (conn_begin c w3 = (Raise e, wx) \/
         exists wb, conn_begin c w3 = (Ok tt, wb) /\
           (_initialize_schema wb = (Raise e, wx) \/
            exists w4, _initialize_schema wb = (Ok tt, w4) /\
                       conn_commit c w4 = (Raise e, wx))) /\
        w_db w' = w_db wx /\ w_work w' = w_db wx /\
        EvRollback c ∈ w_trace w' /\
        match conn_rollback c wx with
        | (Ok _, _) =>
            r = Ok false /\
            exists msg, last (w_log w') = Some (LogError msg e)
        | (Raise e', _) => r = Raise e'
        | (Hang, _) => False
        end)).
Proof.
  intros He. unfold Database.create_tables.
  rewrite (connection_entered _ _ _ _ _ He).
  apply entered_inv in He as (_ & p & Hp & Hused & _).
  assert (Hc : c ∈ pool_used p) by (rewrite Hused; by left).
  assert (Hout : forall l : list nat, c ∉ filter (fun x => x ≠ c) l).
  { intros l Hin. by apply list_elem_of_filter in Hin as [Hne _]. }
  (* the handler, then the release *)
  assert (Hhandled : forall e wx,
    w_pool wx = Some p -> (w_faults w3 = [] -> w_faults wx = []) ->
    forall msg, exists r w',
      match
        match conn_rollback c wx with
        | (Ok _, w1) => (Ok false, add_log (LogError msg e) w1)
        | (Raise e', w1) => (Raise e', w1)
        | (Hang, w1) => (Hang, w1)
        end
      with
      | (Hang, wb) => (Hang, wb)
      | (rb, wb) =>
          match pool_release pool c wb with
          | (Ok _, w') => (rb, w')
          | (Raise e', w') => (Raise e', w')
          | (Hang, w') => (Hang, w')
          end
      end = (r, w') /\ (c ∉ borrowed w') /\
      (w_faults w3 = [] -> w_faults w' = []) /\
      w_db w' = w_db wx /\ w_work w' = w_db wx /\
      EvRollback c ∈ w_trace w' /\
      match conn_rollback c wx with
      | (Ok _, _) =>
          r = Ok false /\
          exists msg, last (w_log w') = Some (LogError msg e)
      | (Raise e', _) => r = Raise e'
      | (Hang, _) => False
      end).
  { intros e wx Hpx Hfx msg.
    destruct (conn_rollback c wx) as [[[]|e'|] w1] eqn:Hr;
      apply conn_rollback_inv in Hr
        as ((Hp1 & _ & _ & Hf1) & Hd1 & Hw1 & Hl1 & Ht1 & Hres); [| |done].
    - destruct (pool_release_ok pool c (add_log (LogError msg e) w1) p)
        as (w' & -> & (Hd & Hw & _) & Hlog & Hfl & Htr & Hb);
        [cbn; congruence|done|].
      cbn in Hd, Hw, Hlog, Hfl, Htr.
      exists (Ok false), w'. split; [done|]. rewrite Hb, Hfl, Hd, Hw, Htr, Hlog.
      split; [done|]. split; [auto|]. split; [done|]. split; [done|]. split.
      + rewrite Ht1, !elem_of_app. left. right. by left.
      + split; [done|]. exists msg. apply last_snoc.
    - destruct (pool_release_ok pool c w1 p)
        as (w' & -> & (Hd & Hw & _) & Hlog & Hfl & Htr & Hb);
        [congruence|done|].
      exists (Raise e'), w'. split; [done|]. rewrite Hb, Hfl, Hd, Hw, Htr.
      split; [done|]. split; [auto|]. split; [done|]. split; [done|].
      split; [|done]. rewrite Ht1, !elem_of_app. left. right. by left. }
  unfold try_except, mbind, M_bind, bind, log, ret.
  destruct (conn_begin c w3) as [[[]|e|] wb] eqn:Hb.
  - pose proof (conn_begin_inv _ _ _ _ Hb) as ((Hpb & _ & _ & Hfb) & _).
    destruct (_initialize_schema wb) as [[[]|e|] w4] eqn:Hinit;
      destruct initialize_schema_denotes as [Hs _];
      destruct (Hs _ _ _ Hinit) as [(Hp4 & _ & _ & Hf4) Hrun]; [| |done].
    + destruct (conn_commit c w4) as [[[]|e|] w5] eqn:Hcm.
      * pose proof (conn_commit_inv _ _ _ _ Hcm)
          as ((Hp5 & _ & _ & Hf5) & Hw5 & _ & _ & Hd5).
        match goal with |- context [pool_release pool c ?wx] =>
          destruct (pool_release_ok pool c wx p)
            as (w' & -> & (Hd & Hw & _) & _ & Hfl & _ & Hb')
        end; [cbn; congruence|done|].
        cbn in Hd, Hw, Hfl.
        exists (Ok true), w'. split; [done|]. rewrite Hb', Hfl, Hd, Hw.
        split; [done|]. split; [auto|]. left.
        exists wb, w4, w5. by rewrite Hd5, Hw5.
      * pose proof (conn_commit_inv _ _ _ _ Hcm) as ((Hp5 & _ & _ & Hf5) & _).
        match goal with |- context [LogError ?msg _] =>
          destruct (Hhandled e w5 ltac:(congruence) ltac:(auto) msg)
            as (r & w' & Hrun' & Hb' & Hfl & Hrest)
        end.
        exists r, w'. split; [exact Hrun'|]. split; [done|]. split; [done|].
        right. exists e, w5. split; [|done]. right. exists wb. split; [done|].
        right. by exists w4.
      * by apply conn_commit_inv in Hcm as (_ & _ & _ & _ & ?).
    + match goal with |- context [LogError ?msg _] =>
        destruct (Hhandled e w4 ltac:(congruence) ltac:(auto) msg)
          as (r & w' & Hrun' & Hb' & Hfl & Hrest)
      end.
      exists r, w'. split; [exact Hrun'|]. split; [done|]. split; [done|].
      right. exists e, w4. split; [|done]. right. exists wb. split; [done|].
      by left.
  - pose proof (conn_begin_inv _ _ _ _ Hb) as ((Hpb & _ & _ & Hfb) & _).
    match goal with |- context [LogError ?msg _] =>
      destruct (Hhandled e wb ltac:(congruence) ltac:(auto) msg)
        as (r & w' & Hrun' & Hb' & Hfl & Hrest)
    end.
    exists r, w'. split; [exact Hrun'|]. split; [done|]. split; [done|].
    right. exists e, wb. split; [|done]. by left.
  - by apply conn_begin_inv in Hb as (_ & _ & _ & _ & ?).
Qed.

(** What the script starts from. *)
Lemma begin_clean w pool c w3 wb :
  entered w = Some (pool, c, w3) -> conn_begin c w3 = (Ok tt, wb) ->
  w_work wb = w_db w /\ w_db wb = w_db w /\
  (w_faults w3 = [] -> w_faults wb = []).
Proof.
  intros He Hb. apply entered_inv in He as ((Hdb & _) & _).
  apply conn_begin_inv in Hb as ((_ & _ & _ & Hf) & Hd & _ & _ & Hw).
  split; [congruence|]. split; [congruence|done].
Qed.

(** [create_tables] returns [True] only after the whole script ran, and
    then all of it is committed. *)
Lemma create_tables_true w w' :
  create_tables w = (Ok true, w') ->
  script_db schema_script (w_db w) = Some (w_db w').
Proof.
  destruct (entered w) as [[[pool c] w3]|] eqn:He.
  - destruct (create_tables_entered _ _ _ _ He) as (r & w1 & -> & _ & _ & Hc).
    intros [= -> <-].
    destruct Hc as [(wb & w4 & w5 & Hb & Hinit & _ & _ & Hdb & _)
                   |(e & wx & _ & _ & _ & _ & Hr)].
    + destruct (begin_clean _ _ _ _ _ He Hb) as (Hwb & _).
      destruct initialize_schema_denotes as [Hs _].
      destruct (Hs _ _ _ Hinit) as [_ Hrun]. rewrite Hwb in Hrun.
      destruct (script_db schema_script (w_db w)) as [d'|]; [|done].
      cbn in Hrun. congruence.
    + destruct (conn_rollback c wx) as [[[]|?|] ?]; [by destruct Hr|done..].
  - unfold Database.create_tables.
    match goal with |- connection ?b w = _ -> _ =>
      destruct (not_entered b w He) as (r1 & w1 & -> & Hr & _)
    end.
    intros [= -> <-]. by destruct (Hr true).
Qed.

(** Whatever [create_tables] runs into, what it leaves committed is the
    outcome of the first steps of the script, up to some step. *)
Lemma create_tables_committed w r w' :
  create_tables w = (r, w') ->
  exists n, script_db (take n schema_script) (w_db w) = Some (w_db w').
Proof.
  assert (Hfrom : forall pool c w3 wb rs w4,
    entered w = Some (pool, c, w3) -> conn_begin c w3 = (Ok tt, wb) ->
    _initialize_schema wb = (rs, w4) ->
    exists n, script_db (take n schema_script) (w_db w) = Some (w_db w4)).
  { intros pool c w3 wb rs w4 He Hb Hinit.
    destruct (begin_clean _ _ _ _ _ He Hb) as (Hwb & Hdb & _).
    apply (run_script_committed _ _ _ _ [] (w_db w) _ _ _
             (schema_script_well_ordered) Hinit); [by rewrite Hwb|].
    exists 0%nat. by rewrite Hdb. }
  destruct (entered w) as [[[pool c] w3]|] eqn:He.
  - destruct (create_tables_entered _ _ _ _ He) as (r1 & w1 & -> & _ & _ & Hc).
    intros [= <- <-].
    destruct Hc as [(wb & w4 & w5 & Hb & Hinit & _ & _ & Hdb & _)
                   |(e & wx & Hpath & Hdb & _)].
    + destruct (begin_clean _ _ _ _ _ He Hb) as (Hwb & _).
      destruct initialize_schema_denotes as [Hs _].
      destruct (Hs _ _ _ Hinit) as [_ Hrun]. rewrite Hwb in Hrun.
      exists (length schema_script). rewrite take_ge by done.
      destruct (script_db schema_script (w_db w)) as [d'|]; [|done].
      cbn in Hrun. congruence.
    + rewrite Hdb.
      destruct Hpath as [Hb|(wb & Hb & [Hinit|(w4 & Hinit & Hcm)])].
      * exists 0%nat. apply entered_inv in He as ((Hd3 & _) & _).
        apply conn_begin_inv in Hb as (_ & Hd & _).
        transitivity (Some (w_db w)); [reflexivity|congruence].
      * by eapply Hfrom.
      * apply conn_commit_inv in Hcm as (_ & _ & _ & _ & Hd & _).
        rewrite Hd. by eapply Hfrom.
  - unfold Database.create_tables.
    match goal with |- connection ?b w = _ -> _ =>
      destruct (not_entered b w He) as (r1 & w1 & -> & _ & (Hdb & _) & _)
    end.
    intros [= <- <-]. exists 0%nat.
    transitivity (Some (w_db w)); [reflexivity|congruence].
Qed.

(** Without driver failures [create_tables] commits the script as far as
    the store accepts it. *)
Lemma create_tables_reach w pool c w3 :
  entered w = Some (pool, c, w3) -> w_faults w3 = [] ->
  exists r w',
    create_tables w = (r, w') /\ w_faults w' = [] /\
    w_db w' = script_reach schema_script (w_db w) /\
    ((r = Ok true /\ script_db schema_script (w_db w) = Some (w_db w')) \/
     (r = Ok false /\ script_db schema_script (w_db w) = None)).
Proof.
  intros He Hf3.
  destruct (create_tables_entered _ _ _ _ He) as (r & w' & Hct & _ & Hf & Hc).
  exists r, w'. split; [done|]. split; [auto|].
  destruct Hc as [(wb & w4 & w5 & Hb & Hinit & _ & -> & Hdb & _)
                 |(e & wx & Hpath & Hdb & _ & _ & Hr)].
  - pose proof (create_tables_true _ _ Hct) as Hrun.
    split; [|by left]. symmetry. by eapply script_reach_done.
  - destruct Hpath as [Hb|(wb & Hb & [Hinit|(w4 & Hinit & Hcm)])].
    + by apply conn_begin_inv in Hb as (_ & _ & _ & _ & _ & ?).
    + destruct (begin_clean _ _ _ _ _ He Hb) as (Hwb & Hdb' & Hfb).
      destruct initialize_schema_denotes as [Hs _].
      destruct (Hs _ _ _ Hinit) as [(_ & _ & _ & Hf4) _].
      apply run_script_reach in Hinit as [Hnone Hreach];
        [|auto|apply schema_script_well_ordered|left; congruence].
      rewrite Hwb in Hnone, Hreach.
      split; [congruence|]. right. split; [|done].
      destruct (conn_rollback c wx) as [[[]|e'|] w1] eqn:Hrb;
        [by destruct Hr| |done].
      apply conn_rollback_inv in Hrb as (_ & _ & _ & _ & _ & Hne).
      destruct Hne. auto.
    + destruct (begin_clean _ _ _ _ _ He Hb) as (_ & _ & Hfb).
      destruct initialize_schema_denotes as [Hs _].
      destruct (Hs _ _ _ Hinit) as [(_ & _ & _ & Hf4) _].
      apply conn_commit_inv in Hcm as (_ & _ & _ & _ & _ & Hne).
      destruct Hne. auto.
Qed.

Lemma create_tables_complete w d' :
  w_faults w = [] -> has_capacity w ->
  script_db schema_script (w_db w) = Some d' ->
  exists w', create_tables w = (Ok true, w') /\ w_db w' = d'.
Proof.
  intros Hf Hcap Hrun.
  destruct (entered_ready _ Hf Hcap) as (pool & c & w3 & He & Hf3).
  destruct (create_tables_reach _ _ _ _ He Hf3)
    as (r & w' & Hct & _ & _ & [[-> Hrun']|[_ Hnone]]); [|congruence].
  exists w'. split; [done|]. congruence.
Qed.

(** C3 (as the code has it) -- [create_tables] is not all-or-nothing.  When
    a statement of [_initialize_schema] raises inside the block, what stays
    committed is the outcome of the first steps of the script, up to some
    step: every [CREATE TABLE] and [ALTER TABLE] that ran committed on its
    own, with the rows written before it, and the rollback only drops the
    rows written since the last of them.  Without driver failures that is
    every step before the one the store refused.  The handler rolls back,
    logs the exception at error level as the last entry and the call returns
    [False]; when the rollback itself raises, that exception leaves
    [create_tables].  Either way the connection is back in the pool. *)
Theorem failed_run_keeps_committed_steps w pool c w3 wb e w4 :
  entered w = Some (pool, c, w3) ->
  conn_begin c w3 = (Ok tt, wb) ->
  _initialize_schema wb = (Raise e, w4) ->
  (exists n, script_db (take n schema_script) (w_db w) = Some (w_db w4)) /\
  (w_faults w3 = [] ->
   script_db schema_script (w_db w) = None /\
   w_db w4 = script_reach schema_script (w_db w)) /\
  exists w',
    w_db w' = w_db w4 /\ w_work w' = w_db w4 /\
    EvRollback c ∈ w_trace w' /\ (c ∉ borrowed w') /\
    match conn_rollback c w4 with
    | (Ok _, _) =>
        create_tables w = (Ok false, w') /\
        exists msg, last (w_log w') = Some (LogError msg e)
    | (Raise e', _) => create_tables w = (Raise e', w')
    | (Hang, _) => False
    end.
Proof.
  intros He Hb Hinit.
  destruct (begin_clean _ _ _ _ _ He Hb) as (Hwb & Hdb & Hfb).
  split; [|split].
  - apply (run_script_committed _ _ _ _ [] (w_db w) _ _ _
             (schema_script_well_ordered) Hinit); [by rewrite Hwb|].
    exists 0%nat. by rewrite Hdb.
  - intros Hf3.
    apply run_script_reach in Hinit as [Hnone Hreach];
      [|auto|apply schema_script_well_ordered|left; congruence].
    by rewrite Hwb in Hnone, Hreach.
  - destruct (create_tables_entered _ _ _ _ He)
      as (r & w' & Hct & Hbor & _ & Hc).
    destruct Hc as [(wb' & w4' & w5 & Hb' & Hinit' & _)
                   |(e' & wx & Hpath & Hd & Hw & Htr & Hr)].
    { rewrite Hb in Hb'. injection Hb' as <-. congruence. }
    assert (e' = e /\ wx = w4) as [-> ->].
    { destruct Hpath as [Hb'|(wb' & Hb' & Hpath)]; [congruence|].
      rewrite Hb in Hb'. injection Hb' as <-.
      destruct Hpath as [Hinit'|(w4' & Hinit' & _)]; [|congruence].
      rewrite Hinit in Hinit'. by injection Hinit' as <- <-. }
    exists w'. split; [done|]. split; [done|]. split; [done|]. split; [done|].
    destruct (conn_rollback c w4) as [[[]|e'|] w1]; [|by subst|done].
    destruct Hr as [-> Hlog]. done.
Qed.

Hypothesis seed_slugs_distinct : NoDup (seed_slug <$> SEED).

(** C5 -- the reconciler is idempotent: from any store contents, on a pool
    with a free connection and a store that is reachable, running
    [create_tables] twice leaves the same committed store as running it
    once. *)
Theorem reconcile_twice_same w :
  w_faults w = [] -> has_capacity w ->
  w_db (create_tables (create_tables w).2).2 = w_db (create_tables w).2.
Proof.
  intros Hf Hcap.
  destruct (entered_ready _ Hf Hcap) as (pool & c & w3 & He & Hf3).
  destruct (create_tables_reach _ _ _ _ He Hf3)
    as (r1 & w1 & -> & Hf1 & Hdb1 & _). cbn [snd].
  assert (Hidem : script_reach schema_script (w_db w1) = w_db w1).
  { rewrite Hdb1.
    apply (script_reach_idem _ _ _ seed_slugs_distinct),
      schema_script_well_ordered. }
  destruct (entered w1) as [[[pool' c'] w3']|] eqn:He1.
  - pose proof (entered_calm _ _ _ _ He1 Hf1) as Hf3'.
    destruct (create_tables_reach _ _ _ _ He1 Hf3')
      as (r2 & w2 & -> & _ & Hdb2 & _). cbn [snd]. congruence.
  - unfold Database.create_tables.
    match goal with |- context [connection ?b w1] =>
      destruct (not_entered b w1 He1) as (r2 & w2 & -> & _ & (Hdb & _) & _)
    end.
    done.
Qed.

(** Position [j] of the bound values goes to column [j]. *)
Lemma assign_mutable test (r : row) j k v :
  update_cols !! j = Some k -> mutable_values test !! j = Some v ->
  assign (zip update_cols (mutable_values test)) r !! k = Some v.
Proof.
  intros Hk Hv.
  rewrite (assign_lookup_set _ r ∅)
    by (rewrite fst_zip by done; by eapply list_elem_of_lookup_2).
  do 12 (destruct j as [|j];
         [injection Hk as <-; injection Hv as <-; vm_compute; reflexivity|]).
  done.
Qed.

(** C1 (as the code has it) -- on a non-empty reference table the seed step
    inserts nothing and deletes nothing: every row stays at its position with
    its identity, name and slug; a row whose slug is a seed entry's gets that
    entry's mutable fields; a row whose slug is no seed entry's is left as it
    is.  A seed entry whose slug is not in the table is not inserted. *)
Theorem seed_reconcile_updates_in_place w T :
  w_faults w = [] ->
  w_work w !! PA = Some T -> t_rows T ≠ [] ->
  has_cols T update_cols && has_col T "slug" = true ->
  exists w' T',
    reconcile_seed w = (Ok tt, w') /\
    w_work w' = <[PA := T']> (w_work w) /\ w_db w' = w_db w /\
    t_cols T' = t_cols T /\
    length (t_rows T') = length (t_rows T) /\
    forall i r, t_rows T !! i = Some r ->
      exists r', t_rows T' !! i = Some r' /\
        (forall k, k ∉ update_cols -> r' !! k = r !! k) /\
        (forall test, test ∈ SEED ->
           r !! "slug" = Some (VStr (seed_slug test)) ->
           forall j k v, update_cols !! j = Some k ->
             mutable_values test !! j = Some v -> r' !! k = Some v) /\
        ((forall test, test ∈ SEED ->
            r !! "slug" ≠ Some (VStr (seed_slug test))) -> r' = r).
Proof.
  intros Hf HT Hrows Hg.
  set (T' := Table (t_cols T) (update_pass <$> t_rows T) (t_auto T)).
  assert (Hseed : seed_table Highlights json_dumps SEED T = Some T').
  { destruct (decide (SEED = [])) as [He|Hne].
    - unfold seed_table, T', Aux.update_pass. rewrite He. cbn.
      rewrite list_fmap_id. by destruct T.
    - rewrite seed_table_nonempty by done.
      destruct (t_rows T) eqn:Hr; [done|]. by rewrite Hg. }
  destruct (denotes_reconcile_seed Highlights json_dumps SEED) as [Hs Hc].
  destruct (Hc w (<[PA := T']> (w_work w)) tt Hf) as (w' & Hrun & Hw' & _).
  { by rewrite seed_db_table, HT, Hseed. }
  exists w', T'. split; [done|]. split; [done|].
  split; [by eapply (keeps_committed_reconcile_seed Highlights json_dumps SEED)|].
  split; [done|]. split; [apply length_fmap|].
  intros i r Hi. exists (update_pass r). split.
  { cbn. by rewrite list_lookup_fmap, Hi. }
  split; [intros k Hk; by apply update_pass_keeps|]. split.
  - intros test Hin Hslug j k v Hk Hv. rewrite update_pass_spec.
    destruct (last_match Highlights SEED r) as [t'|] eqn:Hm.
    + apply last_match_Some in Hm as [Hin' Hslug'].
      assert (t' = test) as ->.
      { apply (seed_slug_inj _ _ seed_slugs_distinct); [done..|congruence]. }
      by eapply assign_mutable.
    + by eapply last_match_None in Hm.
  - intros Hno. rewrite update_pass_spec.
    destruct (last_match Highlights SEED r) as [t'|] eqn:Hm; [|done].
    apply last_match_Some in Hm as [Hin' Hslug']. by destruct (Hno _ Hin').
Qed.

(** A table that refers to its own creation is ruled out as well: the lemma
    behind C8, for any creation list. *)
Lemma references_earlier_spec seen l :
  references_earlier seen l = true ->
  forall i n refs t, l !! i = Some (n, refs) -> t ∈ refs ->
    t ∈ seen \/ exists j deps, (j < i)%nat /\ l !! j = Some (t, deps).
Proof.
  revert seen. induction l as [|[n0 refs0] l IH]; intros seen Hok i n refs t Hi Ht.
  { done. }
  cbn in Hok. apply andb_true_iff in Hok as [Hrefs Hrest].
  destruct i as [|i]; cbn in Hi.
  - injection Hi as <- <-. left.
    rewrite forallb_forall in Hrefs.
    apply list_elem_of_In in Ht. specialize (Hrefs _ Ht).
    by apply bool_decide_eq_true in Hrefs.
  - destruct (IH _ Hrest _ _ _ _ Hi Ht) as [Hin|(j & deps & Hj & Hl)].
    + apply elem_of_app in Hin as [Hin|Hin]; [by left|].
      apply list_elem_of_singleton in Hin as ->.
      right. exists 0%nat, refs0. split; [lia|done].
    + right. exists (S j), deps. split; [lia|done].
Qed.

End Reconciler.

(** C8 -- in the order in which [_initialize_schema] issues its create-table
    statements, every table a foreign key points to is created strictly
    before the table that declares the key. *)
Theorem creation_respects_foreign_keys i name refs target :
  creations schema_script !! i = Some (name, refs) -> target ∈ refs ->
  exists j deps, (j < i)%nat /\ creations schema_script !! j = Some (target, deps).
Proof.
  intros Hi Ht.
  destruct (references_earlier_spec [] (creations schema_script)
              ltac:(vm_compute; reflexivity) _ _ _ _ Hi Ht) as [Hin|H]; [|done].
  by apply elem_of_nil in Hin.
Qed.

Import Examples.

Lemma creation_respects_foreign_keys_witness :
  exists j deps, (j < 4)%nat /\
    creations schema_script !! j = Some ("personality_assessments", deps).
Proof.
  apply (creation_respects_foreign_keys 4 "personality_sessions"
           ["users"; "personality_assessments"] "personality_assessments").
  - reflexivity.
  - vm_compute. right. left.
Defined.

Lemma failed_run_keeps_committed_steps_witness :
  exists w',
    create_tables string id seed_ABC (boot store_legacy) = (Ok false, w') /\
    w_db w' = script_reach string id seed_ABC schema_script store_legacy /\
    exists msg, last (w_log w') = Some (LogError msg MySQLError).
Proof.
  set (w := boot store_legacy).
  pose (w3 := match entered w with Some (_, _, x) => x | None => w end).
  pose (wb := (conn_begin 0 w3).2).
  pose (w4 := (_initialize_schema string id seed_ABC wb).2).
  destruct (failed_run_keeps_committed_steps string id seed_ABC w
              0%nat 0%nat w3 wb MySQLError w4)
    as (_ & Hexact & w' & Hdb & _ & _ & _ & Hrun).
  - vm_compute. reflexivity.
  - vm_compute. reflexivity.
  - vm_compute. reflexivity.
  - assert (Hrb : (conn_rollback 0 w4).1 = Ok tt) by (vm_compute; reflexivity).
    destruct (conn_rollback 0 w4) as [[[]|?|] ?]; try discriminate Hrb.
    destruct Hrun as [Hrun Hlog]. exists w'. split; [exact Hrun|].
    split; [|exact Hlog]. rewrite Hdb.
    destruct Hexact as [_ Hreach]; [reflexivity|exact Hreach].
Defined.

(** C3 as stated fails: on a store left by an older deployment the first
    [ALTER TABLE] is refused and [create_tables] returns [False], but the
    tables [users] and [admins], created before it, stay in the committed
    store; and when the connection is lost at the rollback, [create_tables]
    raises instead of returning [False]. *)
Lemma failed_run_is_not_undone :
  let run := create_tables string id seed_ABC (boot store_legacy) in
  let lost :=
    create_tables string id seed_ABC (boot_with ninth_call_fails store_legacy) in
  run.1 = Ok false /\
  store_legacy !! "users" = None /\ store_legacy !! "admins" = None /\
  is_Some (w_db run.2 !! "users") /\ is_Some (w_db run.2 !! "admins") /\
  w_db run.2 ≠ store_legacy /\
  lost.1 = Raise MySQLError /\ is_Some (w_db lost.2 !! "users").
Proof.
  cbv zeta. split; [vm_compute; reflexivity|].
  split; [vm_compute; reflexivity|]. split; [vm_compute; reflexivity|].
  split; [apply (bool_decide_unpack _); vm_compute; exact I|].
  split; [apply (bool_decide_unpack _); vm_compute; exact I|].
  split.
  { intros Heq.
    apply (f_equal (fun d : DB => bool_decide (is_Some (d !! "users")))) in Heq.
    vm_compute in Heq. discriminate Heq. }
  split; [vm_compute; reflexivity|].
  apply (bool_decide_unpack _); vm_compute; exact I.
Qed.

Lemma seed_ABC_distinct : NoDup (seed_slug <$> seed_ABC).
Proof.
  cbn. repeat (apply NoDup_cons; split;
               [rewrite ?not_elem_of_cons, ?elem_of_nil; intuition discriminate|]).
  apply NoDup_nil. exact I.
Qed.

Lemma reconcile_twice_same_witness :
  w_db (create_tables string id seed_ABC
          (create_tables string id seed_ABC (boot ∅)).2).2
  = w_db (create_tables string id seed_ABC (boot ∅)).2.
Proof.
  apply (reconcile_twice_same string id seed_ABC seed_ABC_distinct (boot ∅)).
  - reflexivity.
  - vm_compute. lia.
Defined.

Lemma seed_reconcile_updates_in_place_witness :
  exists w' T',
    reconcile_seed string id seed_ABC (boot store_AB) = (Ok tt, w') /\
    w_work w' = <[PA := T']> store_AB /\
    length (t_rows T') = 2%nat.
Proof.
  destruct (seed_reconcile_updates_in_place string id seed_ABC seed_ABC_distinct
              (boot store_AB) table_AB)
    as (w' & T' & Hrun & Hw & _ & _ & Hlen & _).
  - reflexivity.
  - reflexivity.
  - discriminate.
  - vm_compute. reflexivity.
  - exists w', T'. split; [exact Hrun|]. split; [exact Hw|exact Hlen].
Defined.

(** C1 as stated fails: with rows keyed A and B in the table and the seed
    \{A', B', C\}, one run of the seed step leaves two rows, not three, and no
    row keyed C. *)
Lemma seed_reconcile_inserts_nothing :
  let after := w_work (reconcile_seed string id seed_ABC (boot store_AB)).2 in
  (fun T => (fun r : row => r !! "slug") <$> t_rows T) <$> (after !! PA)
    = Some [ Some (VStr "A"); Some (VStr "B") ]
  /\ (fun T => (fun r : row => r !! "tagline") <$> t_rows T) <$> (after !! PA)
    = Some [ Some (VStr "new tagline A"); Some (VStr "new tagline B") ]
  /\ ~ ((fun T => length (t_rows T)) <$> (after !! PA) = Some 3%nat).
Proof. vm_compute. repeat split; discriminate. Qed.

End Reconciler.

(* ===================================================================== *)
(** * services.py *)
(* ===================================================================== *)

Module ServiceFacts.
Import Store Runtime Database Services Aux StoreFacts RunFacts.

#[local] Arguments exec_stmt : simpl never.

(** The world after the driver call that comes next. *)
Lemma fallible_next w r w1 :
  fallible w = (r, w1) ->
  r = (if next_call_ok w then Ok tt else Raise MySQLError)
  /\ w_trace w1 = w_trace w /\ w_pool w1 = w_pool w
  /\ w_db w1 = w_db w /\ w_work w1 = w_work w
  /\ w_log w1 = w_log w /\ w_config w1 = w_config w
  /\ (w_faults w = [] -> w1 = w).
Proof.
  unfold fallible, next_call_ok.
  destruct (w_faults w) as [|[] fs]; intros [= <- <-]; by cbn.
Qed.

Lemma cursor_execute_run q params w :
  let w1 := (fallible (add_event (EvExecute (q_text q) params) w)).2 in
  cursor_execute q params w =
  if next_call_ok w then
    match exec_stmt (w_work w) (q_ast q) params with
    | Some (d, r) =>
        (Ok r, set_store (if is_ddl (q_ast q) then d else w_db w) d w1)
    | None =>
        (Raise MySQLError,
         if is_ddl (q_ast q) then set_store (w_work w) (w_work w) w1 else w1)
    end
  else (Raise MySQLError, w1).
Proof.
  cbn zeta. unfold cursor_execute, mbind, M_bind, bind, emit, store_execute.
  destruct (fallible (add_event (EvExecute (q_text q) params) w))
    as [r1 w1] eqn:Hf. cbn [snd].
  apply fallible_next in Hf as (-> & _ & _ & Hdb & Hwork & _).
  change (next_call_ok (add_event (EvExecute (q_text q) params) w))
    with (next_call_ok w).
  destruct (next_call_ok w); [|done]. rewrite Hdb, Hwork.
  by destruct (is_ddl (q_ast q)).
Qed.

Lemma after_execute q params w :
  let w1 := (fallible (add_event (EvExecute (q_text q) params) w)).2 in
  issued_sql w1 = issued_sql w ++ [q_text q] /\ w_pool w1 = w_pool w /\
  w_db w1 = w_db w /\ w_work w1 = w_work w /\ w_log w1 = w_log w /\
  (w_faults w = [] -> w1 = add_event (EvExecute (q_text q) params) w).
Proof.
  cbn zeta.
  destruct (fallible (add_event (EvExecute (q_text q) params) w))
    as [r1 w1] eqn:Hf. cbn [snd].
  apply fallible_next in Hf as (_ & Htr & Hp & Hdb & Hwork & Hlog & _ & Hsame).
  unfold issued_sql. rewrite Htr. cbn. rewrite omap_app. done.
Qed.

(** The [INSERT] of the submission: whether it goes through does not depend
    on the value bound. *)
Lemma exec_submit_insert d v :
  exec_stmt d (Insert SELF_ASSESSMENT ["user_id"] 1) [v] =
  match d !! SELF_ASSESSMENT with
  | Some T =>
      if has_col T "user_id"
      then Some (<[SELF_ASSESSMENT := insert_row T ["user_id"] [v]]> d,
                 Result (if has_col T "id" then t_auto T else 0) [])
      else None
  | None => None
  end.
Proof.
  unfold exec_stmt. destruct (d !! SELF_ASSESSMENT) as [T|]; [|done].
  cbn. by destruct (has_col T "user_id").
Qed.

Lemma exec_submit_update d T (answers : answers_dict) id :
  d !! SELF_ASSESSMENT = Some T ->
  exec_stmt d (Update SELF_ASSESSMENT (answers.*1) "id")
    (answers.*2 ++ [VInt id]) =
  if has_cols T (answers.*1) && has_col T "id"
  then Some (<[SELF_ASSESSMENT :=
                 Table (t_cols T)
                   (update_rows (answers.*1) "id" (answers.*2) (VInt id)
                      (t_rows T))
                   (t_auto T)]> d, no_result)
  else None.
Proof.
  intros HT. unfold exec_stmt. rewrite HT. cbn [mbind option_bind].
  rewrite length_app, !length_fmap. cbn [length].
  rewrite bool_decide_eq_true_2 by lia. rewrite andb_true_r.
  destruct (_ && _); [|done].
  rewrite take_app_length' by (by rewrite !length_fmap).
  by rewrite last_snoc.
Qed.

Lemma submit_unauthorized answers w :
  exists msg, submit_answers 0 answers w = (Raise (ServiceError msg 401), w).
Proof. by eexists. Qed.

Lemma submit_invalid user_id answers w :
  user_id ≠ 0 -> invalid_answers answers = true ->
  exists msg,
    submit_answers user_id answers w = (Raise (ServiceError msg 400), w).
Proof.
  intros Hu Hi. unfold submit_answers.
  rewrite bool_decide_eq_false_2 by done. rewrite Hi. by eexists.
Qed.

Lemma issued_sql_log l w : issued_sql (add_log l w) = issued_sql w.
Proof. reflexivity. Qed.

Lemma issued_sql_store a b w : issued_sql (set_store a b w) = issued_sql w.
Proof. reflexivity. Qed.

Lemma issued_sql_event e w :
  (forall t p, e ≠ EvExecute t p) -> issued_sql (add_event e w) = issued_sql w.
Proof.
  intros He. rewrite issued_sql_add. destruct e; rewrite ?app_nil_r; try done.
  by destruct (He text params).
Qed.

Lemma issued_sql_trace e w w' :
  (forall t p, e ≠ EvExecute t p) -> w_trace w' = w_trace w ++ [e] ->
  issued_sql w' = issued_sql w.
Proof.
  intros He Ht. unfold issued_sql. rewrite Ht, omap_app. cbn.
  destruct e; rewrite ?app_nil_r; try done. by destruct (He text params).
Qed.

Lemma no_faults_next w : w_faults w = [] -> next_call_ok w = true.
Proof. unfold next_call_ok. by intros ->. Qed.

(** A statement on rows: what one [cursor.execute] of it does. *)
Lemma cursor_execute_inv q params w r w' :
  is_ddl (q_ast q) = false -> cursor_execute q params w = (r, w') ->
  frame w w' /\ w_db w' = w_db w /\
  issued_sql w' = issued_sql w ++ [q_text q] /\
  match r with
  | Ok res =>
      next_call_ok w = true /\
      exec_stmt (w_work w) (q_ast q) params = Some (w_work w', res)
  | Raise _ =>
      next_call_ok w = true -> exec_stmt (w_work w) (q_ast q) params = None
  | Hang => False
  end.
Proof.
  intros Hq Hrun.
  destruct (denotes_cursor_execute q params) as [Hs _].
  destruct (Hs _ _ _ Hrun) as [Hfr _]. split; [done|].
  split; [by eapply keeps_committed_cursor_execute|].
  rewrite cursor_execute_run, Hq in Hrun. cbn zeta in Hrun.
  destruct (after_execute q params w) as (Hi & _). cbn zeta in Hi.
  destruct (next_call_ok w).
  - destruct (exec_stmt (w_work w) (q_ast q) params) as [[d res]|];
      injection Hrun as <- <-; [by rewrite issued_sql_store|done].
  - by injection Hrun as <- <-.
Qed.

Ltac sql :=
  repeat first
    [ rewrite issued_sql_log | rewrite issued_sql_store
    | rewrite issued_sql_event by done ].

(** Leaving the block of [connection]: the connection goes back. *)
Lemma connection_finish {A} (body : nat -> M A) w pool c w3 rb wb :
  entered w = Some (pool, c, w3) ->
  body c w3 = (rb, wb) -> rb ≠ Hang -> w_pool wb = w_pool w3 ->
  exists w', connection body w = (rb, w') /\
    untouched wb w' /\ w_log w' = w_log wb /\ w_faults w' = w_faults wb /\
    w_trace w' = w_trace wb ++ [EvRelease c].
Proof.
  intros He Hb Hh Hp. rewrite (connection_entered _ _ _ _ _ He), Hb.
  apply entered_inv in He as (_ & p & Hp3 & Hused & _).
  destruct (pool_release_ok pool c wb p) as (w' & -> & Hu & Hl & Hf & Ht & _).
  { congruence. }
  { rewrite Hused. by left. }
  exists w'. by destruct rb.
Qed.

Lemma insert_accepts_any d v :
  is_Some (exec_stmt d (Insert SELF_ASSESSMENT ["user_id"] 1) [v]) <->
  is_Some (exec_stmt d (Insert SELF_ASSESSMENT ["user_id"] 1) [VNull]).
Proof.
  rewrite !exec_submit_insert. destruct (d !! SELF_ASSESSMENT) as [T|]; [|done].
  by destruct (has_col T "user_id").
Qed.

(** What a well-formed submission does once its block is entered. *)
Lemma submit_entered user_id answers w pool c w3 :
  user_id ≠ 0 -> invalid_answers answers = false ->
  entered w = Some (pool, c, w3) ->
  exists r w',
    submit_answers user_id answers w = (r, w') /\
    issued_sql w' = issued_sql w ++ submit_texts w (answers.*1) /\
    ((exists msg d1 r1 d2 r2,
        r = Ok {| success := true; message := msg;
                  assessmentId := Some (lastrowid r1) |} /\
        exec_stmt (w_db w) insert_query.(q_ast) [VInt user_id] = Some (d1, r1) /\
        exec_stmt d1 (update_query answers).(q_ast)
          (answers.*2 ++ [VInt (lastrowid r1)]) = Some (d2, r2) /\
        w_db w' = d2)
     \/ (exists msg, r = Raise (ServiceError msg 500) /\ w_db w' = w_db w /\
         (w_faults w3 = [] ->
          forall d1 r1,
            exec_stmt (w_db w) insert_query.(q_ast) [VInt user_id] = Some (d1, r1) ->
            exec_stmt d1 (update_query answers).(q_ast)
              (answers.*2 ++ [VInt (lastrowid r1)]) = None))
     \/ (r = Raise MySQLError /\ w_db w' = w_db w /\ w_faults w3 ≠ [])).
Proof.
  intros Hu Hv He. unfold submit_answers.
  rewrite bool_decide_eq_false_2 by done. rewrite Hv.
  pose proof (entered_inv _ _ _ _ He) as ((Hdb & _ & _ & Hsql) & _).
  unfold submit_texts. rewrite He.
  match goal with |- context [connection ?b w] => set (block := b) end.
  enough (exists rb wb,
    block c w3 = (rb, wb) /\ rb ≠ Hang /\ w_pool wb = w_pool w3 /\
    issued_sql wb = issued_sql w3 ++
      match conn_begin c w3 with
      | (Ok _, wb) =>
          q_text insert_query ::
          (if next_call_ok wb &&
              bool_decide (is_Some (exec_stmt (w_db w3)
                                      (Insert SELF_ASSESSMENT ["user_id"] 1)
                                      [VNull]))
           then [ "UPDATE soft_skills_self_assessment SET " +:+
                  String.concat ", " ((fun key => key +:+ " = %s") <$> answers.*1)
                  +:+ " WHERE id = %s" ]
           else [])
      | _ => []
      end /\
    ((exists msg d1 r1 d2 r2,
        rb = Ok {| success := true; message := msg;
                   assessmentId := Some (lastrowid r1) |} /\
        exec_stmt (w_db w3) insert_query.(q_ast) [VInt user_id] = Some (d1, r1) /\
        exec_stmt d1 (update_query answers).(q_ast)
          (answers.*2 ++ [VInt (lastrowid r1)]) = Some (d2, r2) /\
        w_db wb = d2)
     \/ (exists msg, rb = Raise (ServiceError msg 500) /\ w_db wb = w_db w3 /\
         (w_faults w3 = [] ->
          forall d1 r1,
            exec_stmt (w_db w3) insert_query.(q_ast) [VInt user_id] = Some (d1, r1) ->
            exec_stmt d1 (update_query answers).(q_ast)
              (answers.*2 ++ [VInt (lastrowid r1)]) = None))
     \/ (rb = Raise MySQLError /\ w_db wb = w_db w3 /\ w_faults w3 ≠ [])))
    as (rb & wb & Hb & Hh & Hp & Hi & Hcase).
  { destruct (connection_finish block w pool c w3 rb wb He Hb Hh Hp)
      as (w' & -> & (Hd' & _ & _ & Hs') & _).
    exists rb, w'. split; [done|]. split; [congruence|].
    rewrite Hd', <- Hdb. exact Hcase. }
  subst block. cbn beta.
  (* the handler *)
  assert (Hhandled : forall (e : exn) wx (l : exn -> log_record) msg,
    w_pool wx = w_pool w3 -> (w_faults w3 = [] -> w_faults wx = []) ->
    exists (rb : outcome Payload) wb,
      match conn_rollback c wx with
      | (Ok _, w1) => (Raise (ServiceError msg 500), add_log (l e) w1)
      | (Raise e', w1) => (Raise e', w1)
      | (Hang, w1) => (Hang, w1)
      end = (rb, wb) /\ rb ≠ Hang /\ w_pool wb = w_pool w3 /\
      issued_sql wb = issued_sql wx /\ w_db wb = w_db wx /\
      (rb = Raise (ServiceError msg 500) \/
       (rb = Raise MySQLError /\ w_faults w3 ≠ []))).
  { intros e wx l msg Hpx Hfx.
    destruct (conn_rollback c wx) as [[[]|e'|] w1] eqn:Hr;
      pose proof (conn_rollback_inv _ _ _ _ Hr)
        as ((Hp1 & _) & Hd1 & _ & _ & Ht1 & Hres); [| |done].
    - eexists _, _. split; [done|]. split; [done|]. split; [cbn; congruence|].
      split; [|split; [done|by left]].
      rewrite issued_sql_log. by apply (issued_sql_trace (EvRollback c)).
    - eexists _, _. split; [done|]. split; [done|]. split; [congruence|].
      split; [by apply (issued_sql_trace (EvRollback c))|]. split; [done|]. right.
      split; [by rewrite (conn_rollback_raises _ _ _ _ Hr)|].
      intros Hf. apply Hres. auto. }
  unfold try_except, mbind, M_bind, bind, log, ret, raise.
  destruct (conn_begin c w3) as [[[]|e|] wb] eqn:Hbg;
    pose proof (conn_begin_inv _ _ _ _ Hbg)
      as ((Hpb & _ & _ & Hfb) & Hdb_b & _ & Htb & Hwb); [| |done].
  2:{ (* [begin] raises *)
      match goal with |- context [LogException ?t] =>
        destruct (Hhandled e wb (LogException t) "خطای داخلی سرور" Hpb Hfb)
          as (rb & wr & Hrun & Hh & Hp & Hi & Hd & Hr)
      end.
      exists rb, wr. split; [exact Hrun|]. split; [done|]. split; [done|].
      split.
      { rewrite Hi, app_nil_r. by apply (issued_sql_trace (EvBegin c)). }
      destruct Hr as [->|[-> Hne]].
      - right. left. eexists. split; [done|]. split; [congruence|].
        intros Hf. by destruct Hwb.
      - right. right. split; [done|]. split; [congruence|done]. }
  assert (Hib : issued_sql wb = issued_sql w3)
    by by apply (issued_sql_trace (EvBegin c)).
  destruct (cursor_execute insert_query [VInt user_id] wb)
    as [[r1|e|] w1] eqn:Hins;
    pose proof (cursor_execute_inv insert_query _ _ _ _ eq_refl Hins)
      as ((Hp1 & _ & _ & Hf1) & Hd1 & Hi1 & Hr1); [| |done].
  2:{ (* the [INSERT] raises *)
      match goal with |- context [LogException ?t] =>
        destruct (Hhandled e w1 (LogException t) "خطای داخلی سرور"
                    ltac:(congruence) ltac:(auto))
          as (rb & wr & Hrun & Hh & Hp & Hi & Hd & Hr)
      end.
      exists rb, wr. split; [exact Hrun|]. split; [done|]. split; [done|].
      assert (Hnone : next_call_ok wb = true ->
                exec_stmt (w_db w3) (q_ast insert_query) [VInt user_id] = None).
      { intros Hok. rewrite <- Hwb. by apply Hr1. }
      split.
      { rewrite Hi, Hi1, Hib. f_equal. f_equal.
        destruct (next_call_ok wb); [|done]. cbn [andb].
        rewrite bool_decide_eq_false_2; [done|].
        intros Hs. apply (insert_accepts_any _ (VInt user_id)) in Hs.
        cbn in Hnone. rewrite Hnone in Hs by done. by destruct Hs. }
      destruct Hr as [->|[-> Hne]].
      - right. left. eexists. split; [done|]. split; [congruence|].
        intros Hf d1 r1' Hex. rewrite Hnone in Hex; [done|].
        apply no_faults_next. auto.
      - right. right. split; [done|]. split; [congruence|done]. }
  destruct Hr1 as [Hok1 Hex1]. rewrite Hwb in Hex1.
  assert (Htexts : (if next_call_ok wb &&
                       bool_decide (is_Some (exec_stmt (w_db w3)
                         (Insert SELF_ASSESSMENT ["user_id"] 1) [VNull]))
                    then [q_text (update_query answers)] else [])
                   = [q_text (update_query answers)]).
  { rewrite Hok1. cbn [andb]. rewrite bool_decide_eq_true_2; [done|].
    apply (insert_accepts_any _ (VInt user_id)). cbn in Hex1. by rewrite Hex1. }
  change ["UPDATE soft_skills_self_assessment SET " +:+
          String.concat ", " ((fun key => key +:+ " = %s") <$> answers.*1)
          +:+ " WHERE id = %s"]
    with [q_text (update_query answers)].
  rewrite Htexts. clear Htexts.
  destruct (cursor_execute (update_query answers)
              (answers.*2 ++ [VInt (lastrowid r1)]) w1)
    as [[r2|e|] w2] eqn:Hupd;
    pose proof (cursor_execute_inv (update_query answers) _ _ _ _ eq_refl Hupd)
      as ((Hp2 & _ & _ & Hf2) & Hd2 & Hi2 & Hr2); [| |done].
  2:{ (* the [UPDATE] raises *)
      match goal with |- context [LogException ?t] =>
        destruct (Hhandled e w2 (LogException t) "خطای داخلی سرور"
                    ltac:(congruence) ltac:(auto))
          as (rb & wr & Hrun & Hh & Hp & Hi & Hd & Hr)
      end.
      exists rb, wr. split; [exact Hrun|]. split; [done|]. split; [done|].
      split.
      { rewrite Hi, Hi2, Hi1, Hib, <- app_assoc. done. }
      destruct Hr as [->|[-> Hne]].
      - right. left. eexists. split; [done|]. split; [congruence|].
        intros Hf d1 r1' Hex. rewrite Hex1 in Hex. injection Hex as <- <-.
        apply Hr2. apply no_faults_next. auto.
      - right. right. split; [done|]. split; [congruence|done]. }
  destruct Hr2 as [Hok2 Hex2].
  destruct (conn_commit c w2) as [[[]|e|] w5] eqn:Hcm;
    pose proof (conn_commit_inv _ _ _ _ Hcm)
      as ((Hp5 & _ & _ & Hf5) & Hw5 & _ & Ht5 & Hr5); [| |done].
  - eexists _, w5. split; [done|]. split; [done|]. split; [congruence|].
    split.
    { rewrite (issued_sql_trace (EvCommit c) _ _ ltac:(done) Ht5).
      rewrite Hi2, Hi1, Hib, <- app_assoc. done. }
    left. eexists _, (w_work w1), r1, (w_work w2), r2.
    split; [done|]. split; [done|]. split; [done|]. done.
  - (* [commit] raises *)
    destruct Hr5 as [Hd5 Hne5].
    match goal with |- context [LogException ?t] =>
      destruct (Hhandled e w5 (LogException t) "خطای داخلی سرور"
                  ltac:(congruence) ltac:(auto))
        as (rb & wr & Hrun & Hh & Hp & Hi & Hd & Hr)
    end.
    exists rb, wr. split; [exact Hrun|]. split; [done|]. split; [done|].
    split.
    { rewrite Hi, (issued_sql_trace (EvCommit c) _ _ ltac:(done) Ht5).
      rewrite Hi2, Hi1, Hib, <- app_assoc. done. }
    destruct Hr as [->|[-> Hne]].
    + right. left. eexists. split; [done|]. split; [congruence|].
      intros Hf. destruct Hne5. auto.
    + right. right. split; [done|]. split; [congruence|done].
Qed.

Lemma submit_issued user_id answers w :
  user_id ≠ 0 -> invalid_answers answers = false ->
  issued_sql (submit_answers user_id answers w).2
  = issued_sql w ++ submit_texts w (answers.*1).
Proof.
  intros Hu Hv. destruct (entered w) as [[[pool c] w3]|] eqn:He.
  - destruct (submit_entered _ _ _ _ _ _ Hu Hv He) as (r & w' & -> & Hi & _).
    done.
  - unfold submit_answers. rewrite bool_decide_eq_false_2 by done. rewrite Hv.
    match goal with |- context [connection ?b w] =>
      destruct (not_entered b w He) as (r & w' & -> & _ & (_ & _ & _ & Hi) & _)
    end.
    unfold submit_texts. rewrite He, app_nil_r. done.
Qed.

Lemma pool_release_issued pool c w :
  issued_sql (pool_release pool c w).2 = issued_sql w.
Proof.
  unfold pool_release. destruct (w_pool w) as [p|]; [|done].
  case_bool_decide; [|done]. cbn [snd]. by sql.
Qed.

(** Under [async with pool.acquire()], one [cursor.execute] issues its text
    whatever the parameters are. *)
Lemma with_acquired_issued {B} query (k : nat -> result -> M B) params w :
  (forall conn r w0, issued_sql (k conn r w0).2 = issued_sql w0) ->
  issued_sql
    (with_acquired (fun conn => r ← cursor_execute query params; k conn r) w).2
  = issued_sql w ++
    match get_pool w with
    | (Ok pool, w1) =>
        match pool_acquire pool w1 with
        | (Ok _, _) => [q_text query]
        | _ => []
        end
    | _ => []
    end.
Proof.
  intros Hk. unfold with_acquired, mbind, M_bind, bind, try_finally.
  destruct (get_pool w) as [[pl|e|] w1] eqn:Hg;
    apply get_pool_inv in Hg as ((_ & _ & _ & Hs1) & _);
    [|by rewrite app_nil_r..].
  destruct (pool_acquire pl w1) as [[c|e|] w2] eqn:Ha;
    apply pool_acquire_inv in Ha as ((_ & _ & _ & Hs2) & _);
    [|cbn [snd]; rewrite app_nil_r; congruence..].
  rewrite (cursor_execute_run query params w2). cbn zeta.
  destruct (after_execute query params w2) as (Hi & _). cbn zeta in Hi.
  set (w3 := (fallible (add_event (EvExecute (q_text query) params) w2)).2) in *.
  assert (Hfin : forall (rb : outcome B) wb,
            issued_sql wb = issued_sql w3 ->
            issued_sql
              (match rb with
               | Hang => (Hang, wb)
               | _ =>
                   match pool_release pl c wb with
                   | (Ok _, w'') => (rb, w'')
                   | (Raise e, w'') => (Raise e, w'')
                   | (Hang, w'') => (Hang, w'')
                   end
               end).2 = issued_sql w ++ [q_text query]).
  { intros rb wb Hwb.
    pose proof (pool_release_issued pl c wb) as Hr.
    assert (issued_sql wb = issued_sql w ++ [q_text query]) as <- by congruence.
    destruct rb; [| |done]; by destruct (pool_release pl c wb) as [[[]|?|] ?]. }
  destruct (next_call_ok w2).
  - destruct (exec_stmt (w_work w2) (q_ast query) params) as [[d r]|].
    + match goal with |- context [k c r ?wx] =>
        destruct (k c r wx) as [rb wb] eqn:Hkr;
        specialize (Hk c r wx); rewrite Hkr in Hk
      end.
      apply (Hfin rb wb). cbn [snd] in Hk. rewrite Hk. by sql.
    + apply (Hfin (Raise MySQLError)). by destruct (is_ddl (q_ast query)).
  - by apply (Hfin (Raise MySQLError) w3).
Qed.

Lemma commit_issued {A} c (a : A) w :
  issued_sql ((conn_commit c;; ret a) w).2 = issued_sql w.
Proof.
  unfold mbind, M_bind, bind, ret.
  destruct (conn_commit c w) as [[[]|e|] w1] eqn:Hcm;
    apply conn_commit_inv in Hcm as (_ & _ & _ & Ht & _); cbn [snd];
    by apply (issued_sql_trace (EvCommit c)).
Qed.

End ServiceFacts.

(* ===================================================================== *)
(** * The service claims *)
(* ===================================================================== *)

Module ServiceTheorems.
Import Store Runtime Database Services Aux StoreFacts RunFacts ServiceFacts.
Import Examples.

#[local] Arguments exec_stmt : simpl never.

(** C9 -- a falsy user id is rejected with status 401 before anything else:
    whatever the answers are (valid or not), [submit_answers 0] raises
    [ServiceError(401)] in an unchanged world (no pool created, no connection
    borrowed, no statement issued), and the handler, which passes
    [user_id or 0], answers 401 when the session has no user, a user without
    id, or the id 0. *)
Theorem unauthorized_before_validation answers w :
  exists msg,
    submit_answers 0 answers w = (Raise (ServiceError msg 401), w) /\
    let denied :=
      (Ok {| status_code := 401;
             body := {| success := false; message := msg;
                        assessmentId := None |} |}, w) in
    submit_self_assessment {| session_user := None |} answers w = denied /\
    submit_self_assessment {| session_user := Some {| userId := None |} |}
      answers w = denied /\
    submit_self_assessment {| session_user := Some {| userId := Some 0 |} |}
      answers w = denied.
Proof. eexists. repeat split. Qed.

(** The handler turns a [ServiceError] into a response with its status. *)
Lemma handler_service_error user_id answers w msg code w' :
  submit_answers user_id answers w = (Raise (ServiceError msg code), w') ->
  submit_self_assessment {| session_user := Some {| userId := Some user_id |} |}
    answers w
  = (Ok {| status_code := code;
           body := {| success := false; message := msg;
                      assessmentId := None |} |}, w').
Proof.
  intros H. unfold submit_self_assessment, try_except, mbind, M_bind, bind.
  cbn. by rewrite H.
Qed.

(** C6 (as the code has it) -- validation comes before any mutation: for a
    non-zero user id, a dictionary that does not have exactly 22 entries or
    has a value outside 1..5 is refused with status 400 in an unchanged world.
    A valid dictionary succeeds, returning the identity of the row it
    inserted, when the table has the columns [user_id] and [id] and every key
    of the dictionary is one of its columns; otherwise the transaction is
    rolled back and the call fails with status 500, the committed store
    unchanged. *)
Theorem submit_validates_before_mutating user_id answers w :
  user_id ≠ 0 ->
  (invalid_answers answers = true ->
   exists msg,
     submit_answers user_id answers w = (Raise (ServiceError msg 400), w) /\
     submit_self_assessment
       {| session_user := Some {| userId := Some user_id |} |} answers w
     = (Ok {| status_code := 400;
              body := {| success := false; message := msg;
                         assessmentId := None |} |}, w))
  /\ (invalid_answers answers = false ->
      forall pool c w3 T,
        entered w = Some (pool, c, w3) -> w_faults w3 = [] ->
        w_db w !! SELF_ASSESSMENT = Some T ->
        if has_col T "user_id" && has_col T "id" && has_cols T (answers.*1)
        then
          exists w' msg T',
            submit_answers user_id answers w
            = (Ok {| success := true; message := msg;
                     assessmentId := Some (t_auto T) |}, w') /\
            w_db w' !! SELF_ASSESSMENT = Some T' /\
            length (t_rows T') = S (length (t_rows T))
        else
          exists w' msg,
            submit_answers user_id answers w
            = (Raise (ServiceError msg 500), w') /\
            w_db w' = w_db w).
Proof.
  intros Hu. split.
  - intros Hi. destruct (submit_invalid _ _ w Hu Hi) as (msg & Hs).
    exists msg. split; [done|]. by apply handler_service_error.
  - intros Hv pool c w3 T He Hf HT.
    destruct (submit_entered _ _ _ _ _ _ Hu Hv He)
      as (r & w' & Hrun & _ & Hcase).
    cbn [q_ast insert_query update_query] in Hcase.
    rewrite exec_submit_insert, HT in Hcase.
    destruct (has_col T "user_id") eqn:Hc1; cbn [andb].
    2:{ destruct Hcase as [(? & ? & ? & ? & ? & _ & [=] & _)
                          |[(msg & -> & Hdb & _)|(_ & _ & Hne)]]; [|done].
        by exists w', msg. }
    set (T1 := insert_row T ["user_id"] [VInt user_id]) in *.
    assert (Hupd : forall d,
      d !! SELF_ASSESSMENT = Some T1 ->
      exec_stmt d (Update SELF_ASSESSMENT (answers.*1) "id")
        (answers.*2 ++ [VInt (if has_col T "id" then t_auto T else 0)]) =
      if has_cols T (answers.*1) && has_col T "id"
      then Some (<[SELF_ASSESSMENT :=
                     Table (t_cols T1)
                       (update_rows (answers.*1) "id" (answers.*2)
                          (VInt (if has_col T "id" then t_auto T else 0))
                          (t_rows T1))
                       (t_auto T1)]> d, no_result)
      else None).
    { intros d Hd. by rewrite (exec_submit_update _ _ _ _ Hd). }
    destruct (has_col T "id") eqn:Hc2; cbn [andb];
      [destruct (has_cols T (answers.*1)) eqn:Hc3|].
    + destruct Hcase as [(msg & d1 & r1 & d2 & r2 & -> & [= <- <-] & Hex & Hdb)
                        |[(msg & -> & _ & Hno)|(_ & _ & Hne)]]; [| |done].
      * cbn [lastrowid] in Hex, Hrun.
        rewrite Hupd in Hex by apply lookup_insert_eq. cbn in Hex.
        injection Hex as <- <-.
        eexists w', msg, _. split; [exact Hrun|]. rewrite Hdb.
        rewrite lookup_insert_eq. split; [done|]. cbn.
        unfold update_rows. rewrite length_fmap, length_app. cbn. lia.
      * exfalso. specialize (Hno Hf _ _ eq_refl). cbn [lastrowid] in Hno.
        rewrite Hupd in Hno by apply lookup_insert_eq. done.
    + destruct Hcase as [(msg & d1 & r1 & d2 & r2 & -> & [= <- <-] & Hex & Hdb)
                        |[(msg & -> & Hdb & _)|(_ & _ & Hne)]];
        [|by exists w', msg|done].
      cbn [lastrowid] in Hex.
      rewrite Hupd in Hex by apply lookup_insert_eq. done.
    + destruct Hcase as [(msg & d1 & r1 & d2 & r2 & -> & [= <- <-] & Hex & Hdb)
                        |[(msg & -> & Hdb & _)|(_ & _ & Hne)]];
        [|by exists w', msg|done].
      cbn [lastrowid] in Hex.
      rewrite Hupd in Hex by apply lookup_insert_eq.
      rewrite andb_false_r in Hex. done.
Qed.

Lemma submit_validates_before_mutating_witness :
  (exists msg,
     (submit_answers 7 answers_21 (boot store_self)).1
     = Raise (ServiceError msg 400)) /\
  (exists w' msg T',
     submit_answers 7 answers_ok (boot store_self)
     = (Ok {| success := true; message := msg; assessmentId := Some 1 |}, w') /\
     w_db w' !! SELF_ASSESSMENT = Some T' /\
     length (t_rows T') = 1%nat).
Proof.
  split.
  - destruct (proj1 (submit_validates_before_mutating 7 answers_21
                       (boot store_self) ltac:(lia)) eq_refl)
      as (msg & Hs & _).
    exists msg. rewrite Hs. reflexivity.
  - eapply (proj2 (submit_validates_before_mutating 7 answers_ok
                     (boot store_self) ltac:(lia))
              ltac:(reflexivity) _ _ _ self_assessment_table).
    + vm_compute. reflexivity.
    + reflexivity.
    + reflexivity.
Defined.

(** C6 as stated fails: 22 answers, each 3, from user 7, on a store whose
    table has a column per question -- but one key of the dictionary is not a
    column.  The call passes validation and fails with status 500. *)
Lemma valid_answers_can_fail :
  length answers_other_key = 22%nat /\
  Forall (fun v => exists z, v = VInt z /\ 1 <= z <= 5) (answers_other_key.*2) /\
  exists msg,
    (submit_answers 7 answers_other_key (boot store_self)).1
    = Raise (ServiceError msg 500).
Proof.
  split; [reflexivity|]. split.
  - cbn. repeat (apply Forall_cons; split; [exists 3; split; [reflexivity|lia]|]).
    apply Forall_nil. exact I.
  - eexists. vm_compute. reflexivity.
Qed.

(** C2 (as the code has it) -- the statement texts [submit_answers] hands to
    the store are fixed by the keys of the answers dictionary: two
    submissions with the same key sequence (and both valid, or both invalid)
    issue the same texts, whatever the user ids and the values, which travel
    as bound parameters only.  A query helper hands the caller's query text to
    the store unchanged, whatever the parameters. *)
Theorem sql_text_fixed_by_keys w :
  (forall user1 user2 answers1 answers2,
     user1 ≠ 0 -> user2 ≠ 0 -> answers1.*1 = answers2.*1 ->
     invalid_answers answers1 = invalid_answers answers2 ->
     issued_sql (submit_answers user1 answers1 w).2
     = issued_sql (submit_answers user2 answers2 w).2)
  /\ (forall query params1 params2,
        issued_sql (execute query params1 w).2
        = issued_sql (execute query params2 w).2 /\
        issued_sql (fetch_all query params1 w).2
        = issued_sql (fetch_all query params2 w).2 /\
        issued_sql (fetch_one query params1 w).2
        = issued_sql (fetch_one query params2 w).2).
Proof.
  split.
  - intros u1 u2 a1 a2 Hu1 Hu2 Hk Hi.
    destruct (invalid_answers a2) eqn:Hv.
    + destruct (submit_invalid u1 a1 w Hu1 Hi) as (? & ->).
      destruct (submit_invalid u2 a2 w Hu2 Hv) as (? & ->). done.
    + rewrite !submit_issued by done. by rewrite Hk.
  - intros query p1 p2. unfold execute, fetch_all, fetch_one.
    repeat split.
    + rewrite !(with_acquired_issued query
                  (fun conn r => conn_commit conn;; ret (lastrowid r)))
        by (intros; apply commit_issued).
      done.
    + by rewrite !(with_acquired_issued query (fun conn r => ret (fetched r)))
        by done.
    + by rewrite !(with_acquired_issued query (fun conn r => ret (fetchone r)))
        by done.
Qed.

Lemma sql_text_fixed_by_keys_witness :
  issued_sql (submit_answers 7 answers_ok (boot store_self)).2
  = issued_sql (submit_answers 8 ((fun kv => (kv.1, VInt 5)) <$> answers_ok)
                  (boot store_self)).2.
Proof.
  apply (proj1 (sql_text_fixed_by_keys (boot store_self))).
  - lia.
  - lia.
  - reflexivity.
  - reflexivity.
Defined.

(** C2 as stated fails: two submissions that differ in one key of the
    dictionary make the service hand different statement texts to the store. *)
Lemma sql_text_varies_with_keys :
  invalid_answers answers_ok = false /\
  invalid_answers answers_other_key = false /\
  issued_sql (submit_answers 7 answers_ok (boot store_self)).2
  ≠ issued_sql (submit_answers 7 answers_other_key (boot store_self)).2.
Proof. split; [reflexivity|]. split; [reflexivity|]. vm_compute. discriminate. Qed.

(** ** BlogService *)

Section Blog.

Variable int_of_str : string -> option Z.

(** C10 -- [_sanitize_limit] never raises; a limit that parses to a positive
    integer [n] becomes [min n 50] and the listing binds it to [LIMIT %s]; a
    limit that is absent, does not parse, or is not positive becomes [None]
    and the listing runs the query without a limit. *)
Theorem sanitize_limit_caps_or_drops limit :
  (exists r, _sanitize_limit int_of_str limit = Ok r)
  /\ (forall text n,
        limit = Some text -> int_of_str text = Some n -> 0 < n ->
        _sanitize_limit int_of_str limit = Ok (Some (Z.min n 50)) /\
        list_posts int_of_str limit
        = fetch_all (Q (base_query +:+ " LIMIT %s")
                       (Select "blog_posts" published true))
                    [VInt (Z.min n 50)])
  /\ ((limit = None \/
       exists text, limit = Some text /\
         (int_of_str text = None \/
          exists n, int_of_str text = Some n /\ n <= 0)) ->
      _sanitize_limit int_of_str limit = Ok None /\
      list_posts int_of_str limit
      = fetch_all (Q base_query (Select "blog_posts" published false)) []).
Proof.
  split; [|split].
  - unfold _sanitize_limit, builtin_int. destruct limit as [text|]; [|by eexists].
    destruct (int_of_str text) as [n|]; [|by eexists].
    destruct (n <=? 0); by eexists.
  - intros text n -> Hn Hpos.
    assert (Hs : _sanitize_limit int_of_str (Some text) = Ok (Some (Z.min n 50))).
    { unfold _sanitize_limit, builtin_int. rewrite Hn.
      destruct (Z.leb_spec n 0); [lia|done]. }
    split; [done|]. unfold list_posts. rewrite Hs. unfold list_posts_call.
    rewrite bool_decide_eq_true_2 by lia. done.
  - intros Hcase.
    assert (Hs : _sanitize_limit int_of_str limit = Ok None).
    { unfold _sanitize_limit, builtin_int.
      destruct Hcase as [->|(text & -> & [Hn|(n & Hn & Hle)])]; [done| |].
      - by rewrite Hn.
      - rewrite Hn. destruct (Z.leb_spec n 0); [done|lia]. }
    split; [done|]. unfold list_posts. by rewrite Hs.
Qed.

End Blog.

Lemma sanitize_limit_caps_or_drops_witness :
  _sanitize_limit py_int (Some " 120 ") = Ok (Some 50) /\
  _sanitize_limit py_int (Some "7") = Ok (Some 7) /\
  _sanitize_limit py_int (Some "-3") = Ok None /\
  _sanitize_limit py_int (Some "ten") = Ok None.
Proof.
  split; [|split; [|split]].
  - apply (proj1 (proj2 (sanitize_limit_caps_or_drops py_int (Some " 120 ")))
             " 120 " 120); [reflexivity|reflexivity|lia].
  - apply (proj1 (proj2 (sanitize_limit_caps_or_drops py_int (Some "7")))
             "7" 7); [reflexivity|reflexivity|lia].
  - apply (proj2 (proj2 (sanitize_limit_caps_or_drops py_int (Some "-3")))).
    right. exists "-3". split; [reflexivity|]. right. exists (-3).
    split; [reflexivity|lia].
  - apply (proj2 (proj2 (sanitize_limit_caps_or_drops py_int (Some "ten")))).
    right. exists "ten". split; [reflexivity|]. left. reflexivity.
Defined.

End ServiceTheorems.

(* ===================================================================== *)
(** * Concurrent first calls of [get_pool] *)
(* ===================================================================== *)

Module PoolTheorems.
Import Store Runtime Database Aux RunFacts PoolRace.

Lemma step_memoized i s s' : memoized s -> step i s = Some s' -> memoized s'.
Proof.
  destruct s as [sh tasks]. intros (Hc & Hp & Hall). unfold step. cbn in *.
  destruct (tasks !! i) as [t|] eqn:Hi; [|done].
  rewrite Forall_forall in Hall.
  destruct (Hall t) as [-> | ->]; [by eapply list_elem_of_lookup_2| |done].
  rewrite Hp. intros [= <-]. repeat split; try done. cbn.
  apply Forall_insert; [by apply Forall_forall|by right].
Qed.

Lemma run_memoized schedule s s' :
  memoized s -> run schedule s = Some s' -> memoized s'.
Proof.
  revert s. induction schedule as [|i schedule IH]; intros s Hm; cbn.
  - by intros [= <-].
  - destruct (step i s) as [s1|] eqn:Hs; [|done].
    apply IH. by eapply step_memoized.
Qed.

(** Sequential calls on the manager itself: a second [get_pool] returns the
    pool of the first and leaves the world as it is. *)
Lemma get_pool_again w pool w1 :
  get_pool w = (Ok pool, w1) ->
  get_pool w1 = (Ok pool, w1) /\ (w_created w1 <= S (w_created w))%nat.
Proof.
  destruct (w_pool w) as [p|] eqn:Hp.
  - rewrite (get_pool_ready _ _ Hp). intros [= <- <-].
    split; [by apply get_pool_ready|lia].
  - rewrite (get_pool_create _ Hp). cbn zeta.
    match goal with |- context [fallible ?w0] =>
      destruct (fallible_cases w0) as [[Hf ->]|[(fs & Hf & ->)|(fs & Hf & ->)]]
    end; [| |done]; intros [= <- <-];
      (split; [by unfold get_pool, mbind, M_bind, bind, read_pool|cbn; lia]).
Qed.

(** C4 (as the code has it) -- [get_pool] memoizes without a guard.  Calls
    that do not overlap share one pool: on the manager, a call that follows a
    successful call returns the same pool and creates nothing; and among [n]
    callers, if one first call runs to completion before any other caller is
    resumed, then under every interleaving of the others exactly one pool has
    been created and every caller that has returned holds it. *)
Theorem first_call_alone_creates_one_pool :
  (forall w pool w1,
     get_pool w = (Ok pool, w1) ->
     get_pool w1 = (Ok pool, w1) /\ (w_created w1 <= S (w_created w))%nat)
  /\ (forall n i schedule s,
        (i < n)%nat -> run (i :: i :: schedule) (init n) = Some s ->
        created s.1 = 1%nat /\ pool_ref s.1 = Some 0%nat /\
        forall j p, s.2 !! j = Some (Returned p) -> p = 0%nat).
Proof.
  split; [exact get_pool_again|].
  intros n i schedule s Hi. cbn [run]. unfold step at 1. cbn.
  rewrite lookup_replicate_2 by done.
  unfold step at 1. cbn. rewrite list_lookup_insert_eq by (by rewrite length_replicate).
  rewrite list_insert_insert_eq. intros Hrun.
  apply run_memoized in Hrun as (Hc & Hp & Hall).
  - split; [done|]. split; [done|]. intros j p Hj.
    rewrite Forall_forall in Hall.
    destruct (Hall (Returned p)) as [[=]|[=]]; [by eapply list_elem_of_lookup_2|].
    done.
  - repeat split; try done. cbn.
    apply Forall_insert; [|by right].
    apply Forall_forall. intros t Ht. apply elem_of_replicate in Ht as [-> _].
    by left.
Qed.

Lemma first_call_alone_creates_one_pool_witness :
  exists s, run [1; 1; 0; 2]%nat (init 3) = Some s /\
    created s.1 = 1%nat /\
    s.2 = [Returned 0; Returned 0; Returned 0]%nat.
Proof.
  exists ({| pool_ref := Some 0; created := 1 |},
          [Returned 0; Returned 0; Returned 0])%nat.
  split; [reflexivity|].
  destruct (proj2 first_call_alone_creates_one_pool 3%nat 1%nat [0; 2]%nat
              ({| pool_ref := Some 0; created := 1 |},
               [Returned 0; Returned 0; Returned 0])%nat)
    as (Hc & _).
  - lia.
  - reflexivity.
  - split; [exact Hc|reflexivity].
Defined.

(** C4 as stated fails: two first callers that both test [self._pool] before
    either has stored a pool each create one, and they return different
    pools. *)
Lemma concurrent_first_calls_create_two_pools :
  run [0; 1; 0; 1]%nat (init 2)
  = Some ({| pool_ref := Some 1; created := 2 |},
          [Returned 0; Returned 1])%nat.
Proof. reflexivity. Qed.

End PoolTheorems.

(* ===================================================================== *)
(** * auth.py *)
(* ===================================================================== *)

Module AuthTheorems.
Import Store Auth Derived.

Lemma prefix_append p t : String.prefix p (p +:+ t) = true.
Proof.
  induction p as [|a p IH].
  - by destruct t.
  - change (String a p +:+ t) with (String a (p +:+ t)). cbn.
    destruct (Ascii.ascii_dec a a); [exact IH|congruence].
Qed.

Lemma slice_append p t : slice_from (String.length p) (p +:+ t) = t.
Proof.
  induction p as [|a p IH]; [by destruct t|].
  change (String a p +:+ t) with (String a (p +:+ t)). exact IH.
Qed.

Lemma prefix_slice p s :
  String.prefix p s = true -> s = p +:+ slice_from (String.length p) s.
Proof.
  revert s. induction p as [|a p IH]; intros s.
  - by destruct s.
  - destruct s as [|b s]; [done|]. cbn [String.prefix String.length slice_from].
    destruct (Ascii.ascii_dec a b) as [->|]; [|done].
    intros H. rewrite (IH s H) at 1. reflexivity.
Qed.

Lemma falsy_Some t : falsy (Some t) = bool_decide (t = "").
Proof.
  cbn. destruct (String.eqb_spec t "");
    [by rewrite bool_decide_eq_true_2|by rewrite bool_decide_eq_false_2].
Qed.

Lemma extract_token_iff header token :
  extract_token_from_header header = Some token
  <-> header = Some ("Bearer " +:+ token).
Proof.
  split.
  - destruct header as [h|]; [|done]. unfold extract_token_from_header.
    destruct (falsy (Some h)); [done|]. cbn [orb].
    unfold startswith. destruct (String.prefix "Bearer " h) eqn:Hp; [|done].
    cbn [negb]. intros [= <-]. f_equal.
    by apply (prefix_slice "Bearer ").
  - intros ->. unfold extract_token_from_header, startswith.
    rewrite prefix_append.
    change (falsy (Some ("Bearer " +:+ token))) with false.
    cbn [orb negb]. f_equal; exact (slice_append "Bearer " token).
Qed.




Section Tokens.

Variable jwt_encode : dict -> string.
Variable jwt_decode : string -> option dict.
Variable timestamp_in : Z -> Z.

#[local] Abbreviation authenticate_token := (authenticate_token jwt_decode).
#[local] Abbreviation get_session := (get_session jwt_decode).
#[local] Abbreviation verify_admin := (verify_admin jwt_decode).

Lemma authenticate_token_view t :
  (authenticate_token t).2 = claims_view <$> jwt_decode t.
Proof. unfold Auth.authenticate_token. by destruct (jwt_decode t). Qed.

Lemma claims_view_nonempty claims : claims_view claims ≠ ∅.
Proof.
  intros H. apply (f_equal (fun d : dict => d !! "userId")) in H.
  by vm_compute in H.
Qed.

Lemma claims_view_again claims :
  claims_view (claims_view claims) = claims_view claims.
Proof. unfold claims_view. repeat f_equal. Qed.


Lemma falsy_false (s : option string) :
  falsy s = false <-> exists t, s = Some t /\ t ≠ "".
Proof.
  destruct s as [t|]; cbn.
  - destruct (String.eqb_spec t ""); split; try done.
    + by intros (? & [= <-] & ?).
    + intros _. by exists t.
  - split; [done|]. by intros (? & [=] & _).
Qed.

(** The session for the token [get_session] settles on. *)
Lemma session_of_token log1 t :
  t ≠ "" ->
  (let '(log2, decoded) := authenticate_token t in
   match decoded with
   | Some d =>
       if no_claims decoded then (log1 ++ log2, None)
       else
         (log1 ++ log2 ++ ["Auth Debug - token decoded for user: %s"],
          Some (list_to_map
                  [ ("userId", get d "userId");
                    ("username", get d "username");
                    ("role", get_or d "role" (VStr "user"));
                    ("organizationId", get d "organizationId") ]))
   | None => (log1 ++ log2, None)
   end).2 = claims_view <$> jwt_decode t.
Proof.
  intros _. unfold Auth.authenticate_token.
  destruct (jwt_decode t) as [claims|]; [|done].
  change (list_to_map _) with (claims_view claims). cbn beta iota zeta.
  cbn [no_claims]. rewrite bool_decide_eq_false_2 by apply claims_view_nonempty.
  cbn [snd fmap option_fmap option_map].
  f_equal; exact (claims_view_again claims).
Qed.



Lemma view_role_admin claims :
  get (claims_view claims) "role" = VStr "admin"
  <-> claims !! "role" = Some (VStr "admin").
Proof.
  change (get (claims_view claims) "role")
    with (default (VStr "user") (claims !! "role")).
  destruct (claims !! "role") as [v|]; cbn; [|done].
  split; [by intros ->|by intros [= ->]].
Qed.

Lemma verify_admin_run request :
  (verify_admin request).2 =
  match extract_token_from_header (headers request "Authorization") with
  | Some t =>
      if falsy (Some t) then (None, Some missing_token_message)
      else
        match jwt_decode t with
        | Some claims =>
            if bool_decide (claims !! "role" = Some (VStr "admin"))
            then (Some (claims_view claims), None)
            else (None, Some not_admin_message)
        | None => (None, Some not_admin_message)
        end
  | None => (None, Some missing_token_message)
  end.
Proof.
  unfold Auth.verify_admin. cbn zeta.
  destruct (extract_token_from_header _) as [t|]; [|done].
  destruct (falsy (Some t)); [done|].
  unfold Auth.authenticate_token.
  destruct (jwt_decode t) as [claims|]; [|done].
  change (list_to_map _) with (claims_view claims). cbn beta iota zeta.
  cbn [no_claims]. rewrite bool_decide_eq_false_2 by apply claims_view_nonempty.
  cbn [orb]. case_bool_decide as Hr.
  - apply view_role_admin in Hr. by rewrite bool_decide_eq_true_2.
  - rewrite bool_decide_eq_false_2; [done|]. by rewrite <- view_role_admin.
Qed.

Lemma bearer_inj t t' : "Bearer " +:+ t = "Bearer " +:+ t' -> t = t'.
Proof.
  intros H. rewrite <- (slice_append "Bearer " t), H.
  apply (slice_append "Bearer " t').
Qed.



End Tokens.

Import Samples.





End AuthTheorems.

(* ===================================================================== *)
(** * database.py: query helpers, [test_connection], [close] *)
(* ===================================================================== *)

Module HelperFacts.
Import Store Runtime Database Aux StoreFacts RunFacts Connection ServiceFacts.
Import Lifecycle Derived.

#[local] Arguments exec_stmt : simpl never.

Lemma with_acquired_run {A} (body : nat -> M A) w :
  with_acquired body w =
  match get_pool w with
  | (Ok pool, w1) =>
      match pool_acquire pool w1 with
      | (Ok c, w2) =>
          match body c w2 with
          | (Hang, wb) => (Hang, wb)
          | (rb, wb) =>
              match pool_release pool c wb with
              | (Ok _, w') => (rb, w')
              | (Raise e, w') => (Raise e, w')
              | (Hang, w') => (Hang, w')
              end
          end
      | (Raise e, w2) => (Raise e, w2)
      | (Hang, w2) => (Hang, w2)
      end
  | (Raise e, w1) => (Raise e, w1)
  | (Hang, w1) => (Hang, w1)
  end.
Proof.
  unfold with_acquired, mbind, M_bind, bind, try_finally.
  destruct (get_pool w) as [[pl|?|] w1]; [|done..].
  destruct (pool_acquire pl w1) as [[c|?|] w2]; [|done..].
  by destruct (body c w2) as [[?|?|] wb].
Qed.

Lemma with_acquired_balanced {A} (body : nat -> M A) :
  balanced body -> balanced (fun _ : nat => with_acquired body).
Proof.
  intros Hbody _ w r w' Hwf. rewrite with_acquired_run.
  destruct (get_pool w) as [[pl|e|] w1] eqn:Hg.
  2:{ intros [= <- <-] _. pose proof (get_pool_counts _ _ _ Hg) as [Ha Hr].
      apply get_pool_inv in Hg as (_ & Hb & _ & Hw & _).
      split; [done|]. split; [auto|]. lia. }
  2:{ by apply get_pool_inv in Hg as (_ & _ & ? & _). }
  pose proof (get_pool_counts _ _ _ Hg) as [Ha1 Hr1].
  apply get_pool_inv in Hg as (_ & Hb1 & _ & Hw1 & _). specialize (Hw1 Hwf).
  destruct (pool_acquire pl w1) as [[c|e|] w2] eqn:Hacq.
  2:{ intros [= <- <-] _.
      apply pool_acquire_fails in Hacq as (Hb & Hw & Ha & Hr).
      split; [congruence|]. split; [auto|]. lia. }
  2:{ by intros [= <- <-]. }
  apply pool_acquire_facts in Hacq as (Hb2 & Hfresh & Hw2 & Ha2 & Hr2); [|done].
  destruct (body c w2) as [rb wb] eqn:Hrun.
  assert (rb ≠ Hang -> exists w'',
            pool_release pl c wb = (Ok tt, w'') /\
            borrowed w'' = borrowed w /\ pool_wf w'' /\
            (acquired w'' + released w = acquired w + released w'')%nat)
    as Hrel.
  { intros Hh. destruct (Hbody _ _ _ _ Hw2 Hrun Hh) as (Hbb & Hwb & Hcnt).
    destruct (pool_release_facts pl c wb) as (w'' & Hr & Hb' & Hw' & Ha' & Hr' & _).
    - rewrite Hbb, Hb2. by left.
    - done.
    - exists w''. split; [done|]. split; [|split; [done|lia]].
      rewrite Hb', Hbb, Hb2, filter_fresh by done. done. }
  destruct rb as [a|e|].
  - destruct Hrel as (w'' & -> & ?); [done|]. by intros [= <- <-].
  - destruct Hrel as (w'' & -> & ?); [done|]. by intros [= <- <-].
  - by intros [= <- <-].
Qed.

(** ** Computations that leave the pool alone *)

Lemma neutral_balanced {A} (body : nat -> M A) :
  (forall c, pool_neutral (body c)) -> balanced body.
Proof.
  intros Hm c w r w' Hwf Hrun _.
  destruct (Hm c _ _ _ Hrun) as (_ & Hp & Ha & Hr).
  unfold borrowed, pool_wf in *. rewrite Hp. split; [done|]. split; [done|lia].
Qed.

Lemma neutral_ret {A} (a : A) : pool_neutral (ret a).
Proof. by intros w r w' [= <- <-]. Qed.

Lemma neutral_bind {A B} (m : M A) (k : A -> M B) :
  pool_neutral m -> (forall a, pool_neutral (k a)) -> pool_neutral (bind m k).
Proof.
  intros Hm Hk w r w'. unfold bind.
  destruct (m w) as [[a|e|] w1] eqn:H1.
  - destruct (Hm _ _ _ H1) as (_ & Hp & Ha & Hr). intros H2.
    destruct (Hk a _ _ _ H2) as (? & Hp' & Ha' & Hr').
    split; [done|]. split; [congruence|]. split; congruence.
  - intros [= <- <-]. by destruct (Hm _ _ _ H1) as (_ & ? & ? & ?).
  - by destruct (Hm _ _ _ H1) as (? & _).
Qed.

Lemma neutral_for_each {A} (l : list A) (body : A -> M unit) :
  (forall x, pool_neutral (body x)) -> pool_neutral (for_each l body).
Proof.
  intros Hb. induction l as [|x l IH]; cbn [for_each].
  - apply neutral_ret.
  - apply neutral_bind; [apply Hb|by intros _].
Qed.

Lemma neutral_emit e :
  is_acquire e = false -> is_release e = false -> pool_neutral (emit e).
Proof.
  intros H1 H2 w r w' [= <- <-]. rewrite acquired_add, released_add, H1, H2.
  split; [done|]. split; [done|]. split; lia.
Qed.

Lemma neutral_fallible : pool_neutral fallible.
Proof.
  intros w r w' H. pose proof (fallible_quiet _ _ _ H) as (Ht & Hp & Hh).
  unfold acquired, released. by rewrite Ht.
Qed.

Lemma neutral_store_execute s params : pool_neutral (store_execute s params).
Proof.
  intros w r w'. unfold store_execute.
  destruct (is_ddl s);
    destruct (exec_stmt (w_work w) s params) as [[d res]|]; by intros [= <- <-].
Qed.

Lemma neutral_cursor_execute q params : pool_neutral (cursor_execute q params).
Proof.
  unfold cursor_execute. apply neutral_bind; [by apply neutral_emit|].
  intros _. apply neutral_bind; [apply neutral_fallible|].
  intros _. apply neutral_store_execute.
Qed.

Lemma neutral_commit c : pool_neutral (conn_commit c).
Proof.
  unfold conn_commit. apply neutral_bind; [by apply neutral_emit|].
  intros _. apply neutral_bind; [apply neutral_fallible|].
  intros _. by intros w r w' [= <- <-].
Qed.

Lemma neutral_log l : pool_neutral (log l).
Proof. by intros w r w' [= <- <-]. Qed.

Lemma neutral_ping c : pool_neutral (conn_ping c).
Proof.
  unfold conn_ping. apply neutral_bind; [by apply neutral_emit|].
  intros _. apply neutral_fallible.
Qed.

Lemma balanced_no_leak {A} (body : nat -> M A) w r w' :
  balanced body -> pool_wf w -> with_acquired body w = (r, w') -> r ≠ Hang ->
  no_leak w w'.
Proof.
  intros Hb Hwf Hrun Hh.
  destruct (with_acquired_balanced body Hb 0%nat w r w' Hwf Hrun Hh)
    as (? & _ & ?).
  by split.
Qed.

Lemma pool_release_store pool c w r w' :
  pool_release pool c w = (r, w') ->
  untouched w w' /\ w_log w' = w_log w /\ w_faults w' = w_faults w /\ r ≠ Hang.
Proof.
  unfold pool_release. destruct (w_pool w) as [p|]; [|by intros [= <- <-]].
  case_bool_decide; intros [= <- <-]; [|done].
  split; [solve_untouched|done].
Qed.

Lemma pool_acquire_faults pool w c w2 :
  pool_acquire pool w = (Ok c, w2) -> w_faults w = [] -> w_faults w2 = [].
Proof.
  unfold pool_acquire. destruct (w_pool w) as [p|]; [|done].
  case_bool_decide as Hcap; [|done]. intros Hrun Hf.
  destruct (fallible_cases w) as [[_ Hr]|[(fs & Hfs & _)|(fs & Hfs & _)]];
    [|congruence..].
  rewrite Hr in Hrun. by injection Hrun as _ <-.
Qed.

(** How a block under [async with pool.acquire() as conn] ends, when the
    block leaves the pool alone. *)
Lemma with_acquired_cases {A} (body : nat -> M A) w r w' :
  pool_wf w -> (forall c, pool_neutral (body c)) ->
  with_acquired body w = (r, w') ->
  (exists c w2 wb, untouched w w2 /\ body c w2 = (r, wb) /\ untouched wb w' /\
     w_log w' = w_log wb /\ w_faults w' = w_faults wb /\
     (w_faults w = [] -> w_faults w2 = []))
  \/ ((forall a, r ≠ Ok a) /\ untouched w w' /\
      (w_faults w = [] -> has_capacity w -> False)).
Proof.
  intros Hwf Hn. rewrite with_acquired_run.
  destruct (get_pool w) as [[pl|e|] w1] eqn:Hg.
  2:{ intros [= <- <-]. right.
      apply get_pool_inv in Hg as (Hu & _ & _ & _ & _ & _ & Hf).
      split; [done|]. split; [done|]. intros Hf0 _.
      by destruct (Hf Hf0) as (_ & ? & ?). }
  2:{ by apply get_pool_inv in Hg as (_ & _ & ? & _). }
  apply get_pool_inv in Hg as (Hu1 & Hb1 & _ & Hw1 & Hsome & Hcap1 & Hf1).
  specialize (Hw1 Hwf). specialize (Hsome pl eq_refl).
  destruct (pool_acquire pl w1) as [[c|e|] w2] eqn:Hacq.
  2:{ intros [= <- <-]. right.
      apply pool_acquire_inv in Hacq as (Hu2 & _ & _ & Hf2).
      split; [done|]. split; [by eapply untouched_trans|].
      intros Hf0 Hcap. destruct (Hf1 Hf0) as (Hf1' & _).
      by destruct (Hf2 Hf1' Hsome (Hcap1 Hcap)) as (_ & ? & ?). }
  2:{ intros [= <- <-]. right.
      apply pool_acquire_inv in Hacq as (Hu2 & _ & [-> Hnc] & Hf2).
      split; [done|]. split; [done|].
      intros Hf0 Hcap. by apply Hnc, Hcap1. }
  pose proof (pool_acquire_facts _ _ _ _ Hacq Hw1) as (Hb2 & Hfresh & Hw2 & _).
  pose proof (pool_acquire_faults _ _ _ _ Hacq) as Hfq.
  apply pool_acquire_inv in Hacq as (Hu2 & _ & _ & Hf2).
  destruct (body c w2) as [rb wb] eqn:Hrun.
  destruct (Hn c _ _ _ Hrun) as (Hh & Hp & _).
  destruct (pool_release_facts pl c wb) as (w'' & Hrel & _).
  { unfold borrowed in *. rewrite Hp, Hb2. by left. }
  { unfold pool_wf in *. by rewrite Hp. }
  pose proof (pool_release_store _ _ _ _ _ Hrel) as (Hu3 & Hl3 & Hf3 & _).
  rewrite Hrel. intros Hres. left. exists c, w2, wb.
  assert ((rb, w'') = (r, w')) as [= <- <-] by (by destruct rb).
  split; [by eapply untouched_trans|]. split; [done|]. split; [done|].
  split; [done|]. split; [done|].
  intros Hf0. destruct (Hf1 Hf0) as (Hf1' & _). by apply Hfq.
Qed.

Lemma with_acquired_map {A B} (m : nat -> M A) (f : A -> B) w :
  with_acquired (fun conn => r ← m conn; ret (f r)) w
  = (map_outcome f (with_acquired m w).1, (with_acquired m w).2).
Proof.
  rewrite !with_acquired_run. unfold mbind, M_bind, bind, ret.
  destruct (get_pool w) as [[pl|?|] w1]; [|done..].
  destruct (pool_acquire pl w1) as [[c|?|] w2]; [|done..].
  destruct (m c w2) as [[a|?|] wb]; [| |done].
  - by destruct (pool_release pl c wb) as [[[]|?|] ?].
  - by destruct (pool_release pl c wb) as [[[]|?|] ?].
Qed.

Lemma with_acquired_id {A} (m : nat -> M A) w :
  with_acquired (fun conn => r ← m conn; ret r) w = with_acquired m w.
Proof.
  rewrite (with_acquired_map m (fun r => r)).
  by destruct (with_acquired m w) as [[?|?|] ?].
Qed.

Lemma exec_many_foldl s params_seq d :
  foldl (fun acc params => acc ≫= fun d => fst <$> exec_stmt d s params)
        (Some d) params_seq
  = exec_many d s params_seq.
Proof.
  revert d. induction params_seq as [|p l IH]; intros d; [done|].
  cbn. destruct (exec_stmt d s p) as [[d' r]|]; cbn.
  - apply IH.
  - clear. by induction l.
Qed.

Lemma denotes_executemany_body query params_seq :
  denotes
    (for_each params_seq (fun params => cursor_execute query params;; ret tt))
    (fun d => (fun d' => (d', tt)) <$> exec_many d (q_ast query) params_seq).
Proof.
  eapply denotes_ext;
    [|apply (denotes_for_each params_seq _
               (fun params d => fst <$> exec_stmt d (q_ast query) params))].
  - intros d. cbn beta. by rewrite exec_many_foldl.
  - intros params. eapply denotes_bind_as;
      [apply denotes_cursor_execute|intros r; apply denotes_ret|].
    intros d. by destruct (exec_stmt d (q_ast query) params) as [[? ?]|].
Qed.

Lemma pool_release_pool pool c w w' :
  pool_release pool c w = (Ok tt, w') ->
  exists p, w_pool w = Some p /\
    w_pool w' = Some {| pool_id := pool_id p; pool_maxsize := pool_maxsize p;
                        pool_used := filter (fun x => x ≠ c) (pool_used p);
                        pool_next := pool_next p |}.
Proof.
  unfold pool_release. destruct (w_pool w) as [p|]; [|done].
  case_bool_decide; [|done]. intros [= <-]. by exists p.
Qed.

Lemma pool_acquire_raise pool w e w2 :
  pool_acquire pool w = (Raise e, w2) ->
  w_pool w2 = w_pool w /\ w_config w2 = w_config w.
Proof.
  unfold pool_acquire. destruct (w_pool w) as [p|] eqn:Hp;
    [|intros [= <- <-]; by rewrite Hp].
  case_bool_decide; [|done].
  destruct (fallible w) as [[[]|?|] w1] eqn:Hf; [done| |done].
  intros [= <- <-].
  apply fallible_next in Hf as (_ & _ & Hp' & _ & _ & _ & Hc & _).
  by rewrite Hp', Hp.
Qed.

(** A block that leaves the pool alone does not wait when a connection is
    free, and leaves one free. *)
Lemma with_acquired_capacity {A} (body : nat -> M A) w r w' :
  pool_wf w -> (forall c, pool_neutral (body c)) ->
  with_acquired body w = (r, w') -> has_capacity w ->
  r ≠ Hang /\ has_capacity w'.
Proof.
  intros Hwf Hn. rewrite with_acquired_run. intros Hrun Hcap.
  destruct (get_pool w) as [[pl|e|] w1] eqn:Hg.
  2:{ injection Hrun as <- <-.
      apply get_pool_inv in Hg as (_ & _ & _ & _ & _ & Hc & _). auto. }
  2:{ by apply get_pool_inv in Hg as (_ & _ & ? & _). }
  apply get_pool_inv in Hg as (_ & _ & _ & Hw1 & Hsome & Hcap1 & _).
  specialize (Hw1 Hwf). specialize (Hsome pl eq_refl). specialize (Hcap1 Hcap).
  destruct (pool_acquire pl w1) as [[c|e|] w2] eqn:Hacq.
  2:{ injection Hrun as <- <-. split; [done|].
      apply pool_acquire_raise in Hacq as [Hp Hc].
      unfold has_capacity in *. by rewrite Hp, Hc. }
  2:{ by apply pool_acquire_inv in Hacq as (_ & _ & [_ ?] & _). }
  pose proof (pool_acquire_facts _ _ _ _ Hacq Hw1) as (Hb2 & Hfresh & Hw2 & _).
  apply pool_acquire_inv in Hacq as (_ & _ & (p & Hp1 & -> & Hp2) & _).
  destruct (body (pool_next p) w2) as [rb wb] eqn:Hb.
  destruct (Hn _ _ _ _ Hb) as (Hh & Hp & _).
  destruct (pool_release_facts pl (pool_next p) wb) as (w'' & Hrel & _).
  { unfold borrowed in *. rewrite Hp, Hb2. by left. }
  { unfold pool_wf in *. by rewrite Hp. }
  rewrite Hrel in Hrun.
  assert ((rb, w'') = (r, w')) as [= <- <-] by (by destruct rb).
  split; [done|].
  apply pool_release_pool in Hrel as (p' & Hp' & Hp'').
  rewrite Hp, Hp2 in Hp'. injection Hp' as <-.
  unfold has_capacity in *. rewrite Hp''. cbn [pool_used pool_maxsize].
  rewrite Hp1 in Hcap1. unfold borrowed in Hfresh. rewrite Hp1 in Hfresh.
  by rewrite filter_fresh.
Qed.

Lemma untouched_log l w : untouched w (add_log l w).
Proof. solve_untouched. Qed.

Lemma no_leak_log l w0 w : no_leak w0 w -> no_leak w0 (add_log l w).
Proof. done. Qed.

(** [test_connection], from the way its probe ends. *)
Lemma test_connection_run w :
  test_connection w =
  match with_acquired (fun conn => conn_ping conn) w with
  | (Ok _, wi) =>
      (Ok true, add_log (LogInfo "✅ اتصال به دیتابیس MySQL با موفقیت برقرار شد.") wi)
  | (Raise e, wi) =>
      (Ok false, add_log (LogError "❌ خطا در اتصال به دیتابیس: %s" e) wi)
  | (Hang, wi) => (Hang, wi)
  end.
Proof.
  unfold test_connection, try_except, mbind, M_bind, bind.
  by destruct (with_acquired _ w) as [[[]|e|] wi].
Qed.

Lemma test_connection_facts w r w' :
  pool_wf w -> test_connection w = (r, w') ->
  (forall e, r ≠ Raise e)
  /\ untouched w w'
  /\ (r = Ok true -> exists msg, last (w_log w') = Some (LogInfo msg))
  /\ (r = Ok false -> exists msg e, last (w_log w') = Some (LogError msg e))
  /\ (r ≠ Hang -> no_leak w w' /\ pool_wf w')
  /\ (w_faults w = [] -> has_capacity w -> r = Ok true /\ w_faults w' = [])
  /\ (has_capacity w -> r ≠ Hang /\ has_capacity w').
Proof.
  intros Hwf. rewrite test_connection_run.
  destruct (with_acquired _ w) as [ri wi] eqn:Hrun.
  assert (Hn : forall c : nat, pool_neutral (conn_ping c))
    by apply neutral_ping.
  assert (Hbal : ri ≠ Hang -> no_leak w wi /\ pool_wf wi).
  { intros Hh.
    destruct (with_acquired_balanced _ (neutral_balanced _ Hn) 0%nat
                w ri wi Hwf Hrun Hh) as (? & ? & ?).
    by repeat split. }
  assert (Hu : untouched w wi /\
               (w_faults w = [] -> has_capacity w ->
                ri = Ok tt /\ w_faults wi = []) /\
               (has_capacity w -> ri ≠ Hang /\ has_capacity wi)).
  { destruct (with_acquired_cases _ _ _ _ Hwf Hn Hrun)
      as [(c & w2 & wb & Hu & Hex & Hu' & _ & Hfb & Hf2)|(Hno & Hu & Hready)].
    - apply conn_ping_inv in Hex as (Hub & _ & _ & Hh & Hfp).
      split; [eauto using untouched_trans|]. split.
      + intros Hf _. destruct (Hfp (Hf2 Hf)) as [Hfb' ->]. split; [done|congruence].
      + intros Hcap. by apply (with_acquired_capacity _ _ _ _ Hwf Hn Hrun).
    - split; [done|]. split; [intros Hf Hcap; by destruct (Hready Hf Hcap)|].
      intros Hcap. by apply (with_acquired_capacity _ _ _ _ Hwf Hn Hrun). }
  destruct Hu as (Hu & Hcomp & Hcap).
  destruct ri as [[]|e|].
  - intros [= <- <-]. split; [done|].
    split; [eapply untouched_trans; [done|apply untouched_log]|].
    split; [intros _; eexists; cbn; apply last_snoc|]. split; [done|].
    split; [intros _; by destruct Hbal|].
    split; [|intros Hc; by destruct (Hcap Hc)].
    intros Hf Hc. by destruct (Hcomp Hf Hc).
  - intros [= <- <-]. split; [done|].
    split; [eapply untouched_trans; [done|apply untouched_log]|].
    split; [done|]. split; [intros _; do 2 eexists; cbn; apply last_snoc|].
    split; [intros _; by destruct Hbal|].
    split; [|intros Hc; by destruct (Hcap Hc)].
    intros Hf Hc. by destruct (Hcomp Hf Hc) as [[=] _].
  - intros [= <- <-]. split; [done|]. split; [done|]. split; [done|].
    split; [done|]. split; [done|].
    split; [|intros Hc; by destruct (Hcap Hc)].
    intros Hf Hc. by destruct (Hcomp Hf Hc) as [[=] _].
Qed.

Lemma close_run w :
  close w =
  match w_pool w with
  | Some p =>
      if bool_decide (pool_used p = []) then (Ok tt, set_pool None (w_created w) w)
      else (Hang, w)
  | None => (Ok tt, w)
  end.
Proof.
  unfold close, mbind, M_bind, bind, read_pool, pool_close, pool_wait_closed,
    forget_pool, ret.
  destruct (w_pool w) as [p|]; [|done]. by case_bool_decide.
Qed.

End HelperFacts.

Module HelperTheorems.
Import Store Runtime Database Aux StoreFacts RunFacts Connection ServiceFacts.
Import Services Lifecycle Derived HelperFacts.

#[local] Arguments exec_stmt : simpl never.







Import Examples.







End HelperTheorems.

(* ===================================================================== *)
(** * services.py and main.py: listings *)
(* ===================================================================== *)

Module ListingFacts.
Import Store Runtime Database Services Aux StoreFacts RunFacts Connection.
Import ServiceFacts Lifecycle Endpoints Derived HelperFacts.

#[local] Arguments exec_stmt : simpl never.

Lemma fallible_raises w e w' : fallible w = (Raise e, w') -> e = MySQLError.
Proof.
  destruct (fallible_cases w) as [[_ ->]|[(fs & _ & ->)|(fs & _ & ->)]];
    by intros [= <-].
Qed.

Lemma get_pool_raises w e w' : get_pool w = (Raise e, w') -> driver_error e.
Proof.
  destruct (w_pool w) as [p|] eqn:Hp.
  - by rewrite (get_pool_ready _ _ Hp).
  - rewrite (get_pool_create _ Hp). cbn zeta.
    destruct (fallible _) as [[[]|e'|] w1] eqn:Hf; [done| |done].
    intros [= <- <-]. left. by eapply fallible_raises.
Qed.

Lemma pool_acquire_raises pool w e w' :
  pool_acquire pool w = (Raise e, w') -> driver_error e.
Proof.
  unfold pool_acquire. destruct (w_pool w) as [p|]; [|intros [= <- <-]; by right].
  case_bool_decide; [|done].
  destruct (fallible w) as [[[]|e'|] w1] eqn:Hf; [done| |done].
  intros [= <- <-]. left. by eapply fallible_raises.
Qed.

Lemma pool_release_raises pool c w e w' :
  pool_release pool c w = (Raise e, w') -> driver_error e.
Proof.
  unfold pool_release. destruct (w_pool w) as [p|]; [|intros [= <- <-]; by right].
  case_bool_decide; [done|]. intros [= <- <-]. by right.
Qed.

Lemma conn_ping_raises c w e w' : conn_ping c w = (Raise e, w') -> driver_error e.
Proof.
  unfold conn_ping, mbind, M_bind, bind, emit. intros H. left.
  by eapply fallible_raises.
Qed.

Lemma cursor_execute_raises q params w e w' :
  cursor_execute q params w = (Raise e, w') -> driver_error e.
Proof.
  rewrite cursor_execute_run. cbn zeta.
  destruct (next_call_ok w); [|intros [= <- <-]; by left].
  destruct (exec_stmt _ _ _) as [[d r]|]; [done|]. intros [= <- _]. by left.
Qed.

(** What comes out of a block under [pool.acquire()] comes out of the block
    or of the driver. *)
Lemma with_acquired_raises {A} (body : nat -> M A) w e w' :
  (forall c w0 e0 w1, body c w0 = (Raise e0, w1) -> driver_error e0) ->
  with_acquired body w = (Raise e, w') -> driver_error e.
Proof.
  intros Hb. rewrite with_acquired_run.
  destruct (get_pool w) as [[pl|e0|] w1] eqn:Hg;
    [|intros [= <- <-]; by eapply get_pool_raises|done].
  destruct (pool_acquire pl w1) as [[c|e0|] w2] eqn:Hacq;
    [|intros [= <- <-]; by eapply pool_acquire_raises|done].
  destruct (body c w2) as [[a|e0|] wb] eqn:Hrun; [| |done].
  - destruct (pool_release pl c wb) as [[[]|e1|] wr] eqn:Hrel; [done| |done].
    intros [= <- <-]. by eapply pool_release_raises.
  - destruct (pool_release pl c wb) as [[[]|e1|] wr] eqn:Hrel; [| |done].
    + intros [= <- <-]. by eapply Hb.
    + intros [= <- <-]. by eapply pool_release_raises.
Qed.

Lemma fetch_all_raises query params w e w' :
  fetch_all query params w = (Raise e, w') -> driver_error e.
Proof.
  apply with_acquired_raises. intros c w0 e0 w1.
  unfold mbind, M_bind, bind.
  destruct (cursor_execute query params w0) as [[r|e1|] w2] eqn:Hc; [done| |done].
  intros [= <- <-]. by eapply cursor_execute_raises.
Qed.

Lemma fetch_all_facts query params w r w' :
  pool_wf w -> is_ddl (q_ast query) = false ->
  fetch_all query params w = (r, w') ->
  w_db w' = w_db w
  /\ (r ≠ Hang -> no_leak w w')
  /\ (forall rows, r = Ok rows ->
        exists d res, exec_stmt (w_work w) (q_ast query) params = Some (d, res)
                      /\ rows = fetched res /\ w_work w' = d)
  /\ (w_faults w = [] -> has_capacity w ->
      is_Some (exec_stmt (w_work w) (q_ast query) params) ->
      exists rows, r = Ok rows).
Proof.
  intros Hwf Hq Hrun. unfold fetch_all in Hrun.
  set (body := fun conn : nat => r ← cursor_execute query params; ret (fetched r))
    in Hrun.
  assert (Hn : forall c, pool_neutral (body c)).
  { intros c. apply neutral_bind; [apply neutral_cursor_execute|].
    intros ?. apply neutral_ret. }
  split; [|split].
  - destruct (with_acquired_cases _ _ _ _ Hwf Hn Hrun)
      as [(c & w2 & wb & Hu & Hex & Hu' & _)|(_ & Hu & _)]; [|apply Hu].
    unfold body, mbind, M_bind, bind in Hex.
    destruct (cursor_execute query params w2) as [rc wc] eqn:Hc.
    pose proof (keeps_committed_cursor_execute query params Hq _ _ _ Hc)
      as Hdc.
    destruct Hu as (Hd2 & _). destruct Hu' as (Hd3 & _).
    destruct rc; injection Hex as <- <-; congruence.
  - intros Hh. by eapply balanced_no_leak; [apply neutral_balanced|..].
  - destruct (with_acquired_cases _ _ _ _ Hwf Hn Hrun)
      as [(c & w2 & wb & Hu & Hex & Hu' & _ & _ & Hf2)|(Hno & Hu & Hready)].
    2:{ split; [intros rows ->; by destruct (Hno rows)|].
        intros Hf Hcap. by destruct (Hready Hf Hcap). }
    unfold body, mbind, M_bind, bind in Hex.
    destruct (cursor_execute query params w2) as [rc wc] eqn:Hc.
    pose proof (denotes_cursor_execute query params) as [Hs Hcomp].
    destruct (Hs _ _ _ Hc) as (_ & Hst).
    destruct Hu as (_ & Hwk2 & _). destruct Hu' as (_ & Hwk3 & _).
    rewrite Hwk2 in Hst. split.
    + intros rows ->. destruct rc as [res|?|]; [|done..].
      injection Hex as <- <-. exists (w_work wc), res. by rewrite Hwk3.
    + intros Hf Hcap [[d res] Hd].
      destruct (Hcomp w2 d res (Hf2 Hf)) as (w'' & Hok & _);
        [by rewrite Hwk2|].
      rewrite Hok in Hc. injection Hc as <- <-. injection Hex as <- _. eauto.
Qed.

Lemma exec_select d tbl cond limited params :
  exec_stmt d (Select tbl cond limited) params =
  match d !! tbl with
  | Some T =>
      let hits :=
        match cond with
        | Some (c, v) => filter (fun r : row => r !! c = Some v) (t_rows T)
        | None => t_rows T
        end in
      match limited, params with
      | false, [] => Some (d, Result 0 hits)
      | true, [VInt n] => Some (d, Result 0 (take (Z.to_nat n) hits))
      | _, _ => None
      end
  | None => None
  end.
Proof. unfold exec_stmt. by destruct (d !! tbl). Qed.

End ListingFacts.

Module ListingTheorems.
Import Store Runtime Database Services Aux StoreFacts RunFacts Connection.
Import ServiceFacts Lifecycle Endpoints Derived HelperFacts ListingFacts.

#[local] Arguments exec_stmt : simpl never.

Section Blog.

Variable int_of_str : string -> option Z.

Lemma sanitize_cases limit :
  _sanitize_limit int_of_str limit = Ok None
  \/ exists n, _sanitize_limit int_of_str limit = Ok (Some n) /\ 0 < n <= 50.
Proof.
  unfold _sanitize_limit, builtin_int. destruct limit as [text|]; [|by left].
  destruct (int_of_str text) as [n|]; [|by left].
  destruct (Z.leb_spec n 0); [by left|]. right. eexists. split; [done|lia].
Qed.



End Blog.

Section Personality.

Variable Json : Type.
Variable json_loads : string -> option Json.
Variable empty_list : Json.

#[local] Abbreviation with_highlights :=
  (with_highlights Json json_loads empty_list).
#[local] Abbreviation list_tests := (list_tests Json json_loads empty_list).

Lemma with_highlights_other (r : row) k :
  k ≠ "highlights" -> with_highlights r !! k = Plain <$> r !! k.
Proof.
  intros Hk. unfold Endpoints.with_highlights. cbn zeta.
  destruct (truthy _); [destruct (Auth.get r "highlights") as [| |text|]|];
    try destruct (json_loads text);
    by rewrite lookup_insert_ne, lookup_fmap.
Qed.

Lemma with_highlights_cell (r : row) :
  with_highlights r !! "highlights" =
  Some (match r !! "highlights" with
        | Some (VStr text) =>
            if String.eqb text "" then Decoded empty_list
            else Decoded (default empty_list (json_loads text))
        | Some v => if truthy v then Plain v else Decoded empty_list
        | None => Decoded empty_list
        end).
Proof.
  unfold Endpoints.with_highlights, Auth.get. cbn zeta.
  destruct (r !! "highlights") as [[|z|text|b]|]; cbn [from_option id truthy].
  - by rewrite lookup_insert_eq.
  - destruct (negb (z =? 0)); by rewrite lookup_insert_eq.
  - destruct (String.eqb text ""); cbn [negb]; [by rewrite lookup_insert_eq|].
    destruct (json_loads text); by rewrite lookup_insert_eq.
  - destruct b; by rewrite lookup_insert_eq.
  - by rewrite lookup_insert_eq.
Qed.

(** The rows of [list_tests], one by one. *)
Lemma list_tests_rows w r w' listing :
  list_tests w = (r, w') -> r = Ok listing ->
  exists rows,
    fetch_all personality_query [] w = (Ok rows, w') /\
    length listing = length rows /\
    forall i row, rows !! i = Some row ->
      exists listed cell,
        listing !! i = Some listed /\
        (forall k, k ≠ "highlights" -> listed !! k = Plain <$> row !! k) /\
        listed !! "highlights" = Some cell /\
        match cell with
        | Decoded j =>
            j = empty_list \/
            exists text, row !! "highlights" = Some (VStr text) /\
                         json_loads text = Some j
        | Plain v =>
            row !! "highlights" = Some v /\ truthy v = true /\
            forall text, v ≠ VStr text
        end /\
        (forall text j, row !! "highlights" = Some (VStr text) -> text ≠ "" ->
           json_loads text = Some j -> cell = Decoded j) /\
        (forall text, row !! "highlights" = Some (VStr text) ->
           json_loads text = None -> cell = Decoded empty_list).
Proof.
  unfold Endpoints.list_tests, mbind, M_bind, bind.
  destruct (fetch_all personality_query [] w) as [[rows|e|] w1];
    [|by intros [= <- <-]..].
  intros [= <- <-] [= <-]. exists rows. split; [done|].
  split; [apply length_fmap|]. intros i row Hi.
  eexists (with_highlights row), _. split; [by rewrite list_lookup_fmap, Hi|].
  split; [intros k Hk; by apply with_highlights_other|].
  split; [apply with_highlights_cell|].
  destruct (row !! "highlights") as [[|z|text|b]|] eqn:Hh.
  - split; [by left|]. by split.
  - cbn [truthy]. destruct (Z.eqb_spec z 0); cbn [negb].
    + split; [by left|]. by split.
    + split; [|by split]. split; [done|].
      split; [by apply negb_true_iff, Z.eqb_neq|done].
  - destruct (String.eqb_spec text "") as [->|Hne].
    + split; [by left|]. split; [by intros t j [= <-]|done].
    + destruct (json_loads text) as [j|] eqn:Hl; cbn [from_option id].
      * split; [right; by exists text|]. split.
        -- intros t j' [= <-] _ Hl'. congruence.
        -- intros t [= <-] Hl'. congruence.
      * split; [by left|]. split; [|done].
        intros t j' [= <-] _ Hl'. congruence.
  - destruct b; cbn [truthy].
    + split; [|by split]. by split.
    + split; [by left|]. by split.
  - split; [by left|]. by split.
Qed.

(** [GET /api/personality-tests] has a single [except] clause. *)
Lemma personality_endpoint_run w :
  get_personality_tests Json json_loads empty_list w =
  match list_tests w with
  | (Ok rows, w1) => (Ok (Data rows), w1)
  | (Raise e, w1) =>
      (Ok (Failure 500 "خطای سرور"),
       add_log (LogException "Get Personality Tests Error: %s" e) w1)
  | (Hang, w1) => (Hang, w1)
  end.
Proof.
  unfold get_personality_tests, try_except, mbind, M_bind, bind.
  by destruct (list_tests w) as [[?|?|] ?].
Qed.


End Personality.

Import Examples Samples.




End ListingTheorems.

(* ===================================================================== *)
(** * services.py and main.py: health and set-up *)
(* ===================================================================== *)

Module HealthFacts.
Import Store Runtime Database Services Aux StoreFacts SeedFacts RunFacts.
Import Connection ServiceFacts Lifecycle Endpoints Derived HelperFacts.
Import ListingFacts.

#[local] Arguments exec_stmt : simpl never.

(** What comes out of a block under [self.connection()] comes out of the
    block or of the driver. *)
Lemma connection_raises_from {A} (P : exn -> Prop) (body : nat -> M A) w e w' :
  (forall c w0 e0 w1, body c w0 = (Raise e0, w1) -> P e0) ->
  connection body w = (Raise e, w') -> driver_error e \/ P e.
Proof.
  intros Hb. unfold connection, mbind, M_bind, bind, try_finally.
  destruct (get_pool w) as [[pl|e0|] w1] eqn:Hg;
    [|intros [= <- <-]; left; by eapply get_pool_raises|done].
  destruct (pool_acquire pl w1) as [[c|e0|] w2] eqn:Hacq;
    [|intros [= <- <-]; left; by eapply pool_acquire_raises|done].
  destruct (conn_ping c w2) as [[[]|e0|] w3] eqn:Hping.
  - destruct (body c w3) as [[a|e0|] wb] eqn:Hrun; [| |done].
    + destruct (pool_release pl c wb) as [[[]|e1|] wr] eqn:Hrel; [done| |done].
      intros [= <- <-]. left. by eapply pool_release_raises.
    + destruct (pool_release pl c wb) as [[[]|e1|] wr] eqn:Hrel; [| |done].
      * intros [= <- <-]. right. by eapply Hb.
      * intros [= <- <-]. left. by eapply pool_release_raises.
  - destruct (pool_release pl c w3) as [[[]|e1|] wr] eqn:Hrel; [| |done].
    + intros [= <- <-]. left. by eapply conn_ping_raises.
    + intros [= <- <-]. left. by eapply pool_release_raises.
  - done.
Qed.

Lemma connection_raises {A} (body : nat -> M A) w e w' :
  (forall c w0 e0 w1, body c w0 = (Raise e0, w1) -> driver_error e0) ->
  connection body w = (Raise e, w') -> driver_error e.
Proof.
  intros Hb Hrun.
  by destruct (connection_raises_from driver_error body w e w' Hb Hrun).
Qed.

Section Seed.

Variable Highlights : Type.
Variable json_dumps : Highlights -> string.
Variable SEED : list (SeedTest Highlights).

#[local] Abbreviation create_tables := (create_tables Highlights json_dumps SEED).

Lemma create_tables_raises w e w' :
  create_tables w = (Raise e, w') -> driver_error e.
Proof.
  apply connection_raises. intros c w0 e0 w1.
  assert (Hh : forall wx (l : log_record),
            (conn_rollback c;; log l;; ret false) wx = (Raise e0, w1) ->
            driver_error e0).
  { intros wx l. unfold mbind, M_bind, bind.
    destruct (conn_rollback c wx) as [[[]|e1|] wr] eqn:Hr; [done| |done].
    intros [= <- <-]. left. by eapply conn_rollback_raises. }
  unfold try_except. unfold mbind at 1 2 3 4, M_bind at 1 2 3 4.
  unfold bind at 1 2 3 4.
  destruct (conn_begin c w0) as [[[]|?|] wa] eqn:Hb; [| |done].
  - destruct (_initialize_schema _ _ _ wa) as [[[]|?|] wi]; [| |done].
    + destruct (conn_commit c wi) as [[[]|?|] w5]; [done| |done].
      by apply Hh.
    + by apply Hh.
  - by apply Hh.
Qed.

End Seed.

End HealthFacts.

Module HealthTheorems.
Import Store Runtime Database Services Aux StoreFacts SeedFacts RunFacts.
Import Connection Reconciler ServiceFacts Lifecycle Endpoints Derived.
Import HelperFacts ListingFacts HealthFacts.

#[local] Arguments exec_stmt : simpl never.
#[local] Arguments Aux.script_db : simpl never.

Section Health.

Variable utcnow_isoformat : string.
Variable getenv : string -> option string.


End Health.

Section Setup.

Variable Highlights : Type.
Variable json_dumps : Highlights -> string.
Variable SEED : list (SeedTest Highlights).

#[local] Abbreviation create_tables := (create_tables Highlights json_dumps SEED).
#[local] Abbreviation script_db := (script_db Highlights json_dumps SEED).
#[local] Abbreviation api_test_db := (api_test_db Highlights json_dumps SEED).


End Setup.

Import Examples Samples.



End HealthTheorems.

(* ===================================================================== *)
(** * services.py and main.py: the self-assessment submission *)
(* ===================================================================== *)

Module SubmissionFacts.
Import Store Runtime Database Services Aux StoreFacts RunFacts Connection.
Import ServiceFacts Lifecycle Endpoints Derived HelperFacts ListingFacts.
Import HealthFacts.

#[local] Arguments exec_stmt : simpl never.

Lemma neutral_raise {A} e : pool_neutral (@raise A e).
Proof. by intros w r w' [= <- <-]. Qed.

Lemma neutral_try_except {A} (m : M A) (handler : exn -> M A) :
  pool_neutral m -> (forall e, pool_neutral (handler e)) ->
  pool_neutral (try_except m handler).
Proof.
  intros Hm Hh w r w'. unfold try_except.
  destruct (m w) as [[a|e|] w1] eqn:H1.
  - intros [= <- <-]. by apply (Hm _ _ _ H1).
  - destruct (Hm _ _ _ H1) as (_ & Hp & Ha & Hr). intros H2.
    destruct (Hh e _ _ _ H2) as (? & Hp' & Ha' & Hr').
    split; [done|]. split; [congruence|]. split; congruence.
  - by destruct (Hm _ _ _ H1) as (? & _).
Qed.

Lemma neutral_begin c : pool_neutral (conn_begin c).
Proof.
  unfold conn_begin. apply neutral_bind; [by apply neutral_emit|].
  intros _. apply neutral_bind; [apply neutral_fallible|].
  intros _. by intros w r w' [= <- <-].
Qed.

Lemma neutral_rollback c : pool_neutral (conn_rollback c).
Proof.
  unfold conn_rollback. apply neutral_bind; [by apply neutral_emit|].
  intros _. apply neutral_bind; [by intros w r w' [= <- <-]|].
  intros _. apply neutral_fallible.
Qed.

(** A valid submission is a block under [self.connection()] that leaves the
    pool alone and fails with status 500, or with the error of a rollback
    that did not go through. *)
Lemma submit_answers_valid user_id answers :
  user_id ≠ 0 -> invalid_answers answers = false ->
  exists body : nat -> M Payload,
    submit_answers user_id answers = connection body /\
    (forall c, pool_neutral (body c)) /\
    (forall c w0 e0 w1, body c w0 = (Raise e0, w1) ->
       driver_error e0 \/ exists msg, e0 = ServiceError msg 500).
Proof.
  intros Hu Hv. unfold submit_answers.
  rewrite bool_decide_eq_false_2 by done. rewrite Hv.
  eexists. split; [reflexivity|]. split.
  - intros c. apply neutral_try_except.
    + apply neutral_bind; [apply neutral_begin|intros _].
      apply neutral_bind; [apply neutral_cursor_execute|intros r].
      apply neutral_bind; [apply neutral_cursor_execute|intros _].
      apply neutral_bind; [apply neutral_commit|intros _]. apply neutral_ret.
    + intros e. apply neutral_bind; [apply neutral_rollback|intros _].
      apply neutral_bind; [apply neutral_log|intros _]. apply neutral_raise.
  - intros c w0 e0 w1. unfold try_except.
    match goal with |- context [match ?m w0 with _ => _ end] =>
      destruct (m w0) as [[a|e|] wa] end; [done| |done].
    unfold mbind, M_bind, bind, log, raise.
    destruct (conn_rollback c wa) as [[[]|e1|] wr] eqn:Hr; [| |done].
    + intros [= <- <-]. right. by eexists.
    + intros [= <- <-]. left. left. by eapply conn_rollback_raises.
Qed.

(** How [submit_answers] ends, for every world and every fault plan. *)
Lemma submit_answers_cases user_id answers w r w' :
  pool_wf w -> submit_answers user_id answers w = (r, w') ->
  match r with
  | Ok payload =>
      user_id ≠ 0 /\ invalid_answers answers = false /\
      exists msg d1 r1 d2 r2,
        payload = {| success := true; message := msg;
                     assessmentId := Some (lastrowid r1) |} /\
        exec_stmt (w_db w) (q_ast insert_query) [VInt user_id] = Some (d1, r1) /\
        exec_stmt d1 (q_ast (update_query answers))
          (answers.*2 ++ [VInt (lastrowid r1)]) = Some (d2, r2) /\
        w_db w' = d2
  | Raise e =>
      w_db w' = w_db w /\
      (driver_error e \/
       exists msg code, e = ServiceError msg code /\
         (code = 401 /\ user_id = 0 /\ w' = w \/
          code = 400 /\ user_id ≠ 0 /\ invalid_answers answers = true /\ w' = w \/
          code = 500 /\ user_id ≠ 0 /\ invalid_answers answers = false))
  | Hang => w_db w' = w_db w
  end
  /\ (r ≠ Hang -> no_leak w w').
Proof.
  intros Hwf Hrun.
  destruct (decide (user_id = 0)) as [->|Hu].
  { destruct (submit_unauthorized answers w) as (msg & Hs).
    rewrite Hs in Hrun. injection Hrun as <- <-.
    split; [|by intros _; split; [|lia]].
    split; [done|]. right. exists msg, 401. split; [done|]. by left. }
  destruct (invalid_answers answers) eqn:Hv.
  { destruct (submit_invalid _ _ w Hu Hv) as (msg & Hs).
    rewrite Hs in Hrun. injection Hrun as <- <-.
    split; [|by intros _; split; [|lia]].
    split; [done|]. right. exists msg, 400. split; [done|]. right. by left. }
  destruct (submit_answers_valid _ _ Hu Hv) as (body & Hbody & Hn & Hraise).
  split.
  2:{ intros Hh. rewrite Hbody in Hrun.
      destruct (connection_balanced body (neutral_balanced _ Hn) 0%nat
                  w r w' Hwf Hrun Hh) as (? & _ & ?).
      by split. }
  destruct (entered w) as [[[pool c] w3]|] eqn:He.
  - destruct (submit_entered _ _ _ _ _ _ Hu Hv He)
      as (r0 & w0 & Hrun0 & _ & Hcase).
    rewrite Hrun0 in Hrun. injection Hrun as <- <-.
    destruct Hcase as [(msg & d1 & r1 & d2 & r2 & -> & H1 & H2 & H3)
                      |[(msg & -> & Hdb & _)|(-> & Hdb & _)]].
    + split; [done|]. split; [done|]. by exists msg, d1, r1, d2, r2.
    + split; [done|]. right. exists msg, 500. split; [done|].
      right. by right.
    + split; [done|]. left. by left.
  - rewrite Hbody in Hrun.
    destruct (not_entered body w He) as (r0 & w0 & Hrun0 & Hno & (Hdb & _) & _).
    rewrite Hrun0 in Hrun. injection Hrun as <- <-.
    destruct r0 as [a|e|]; [by destruct (Hno a)| |done].
    split; [done|].
    destruct (connection_raises_from _ body w e w0 Hraise Hrun0)
      as [?|[?|(msg & ->)]]; [by left..|].
    right. exists msg, 500. split; [done|]. right. by right.
Qed.

Lemma assign_lookup_nodup (kvs : list (string * value)) (r : row) k v :
  NoDup kvs.*1 -> (k, v) ∈ kvs -> assign kvs r !! k = Some v.
Proof.
  revert r. induction kvs as [|[k0 v0] kvs IH] using rev_ind; intros r Hnd Hin.
  { by apply elem_of_nil in Hin. }
  rewrite fmap_app in Hnd. apply NoDup_app in Hnd as (Hnd & Hfresh & _).
  rewrite assign_snoc. apply elem_of_app in Hin as [Hin|Hin].
  - rewrite lookup_insert_ne; [by apply IH|].
    intros <-. apply (Hfresh k0); [|by left].
    apply list_elem_of_fmap. by exists (k0, v).
  - apply list_elem_of_singleton in Hin as [= -> ->]. apply lookup_insert_eq.
Qed.

End SubmissionFacts.

Module SubmissionTheorems.
Import Store Runtime Database Services Aux StoreFacts RunFacts Connection.
Import ServiceFacts Lifecycle Endpoints Derived HelperFacts ListingFacts.
Import HealthFacts SubmissionFacts.

#[local] Arguments exec_stmt : simpl never.



Import Examples.



End SubmissionTheorems.

(* ===================================================================== *)
(** * database.py: what a successful reconciliation leaves *)
(* ===================================================================== *)

Module SchemaFacts.
Import Store Runtime Database Aux StoreFacts SeedFacts RunFacts Reconciler.
Import Derived.

#[local] Arguments exec_stmt : simpl never.
#[local] Arguments Aux.script_db : simpl never.

Lemma fmap_fixed {A} (f : A -> A) (l : list A) :
  f <$> l = l -> forall x, x ∈ l -> f x = x.
Proof.
  induction l as [|y l IH]; intros Heq x Hx; [by apply elem_of_nil in Hx|].
  injection Heq as Hy Hl. apply elem_of_cons in Hx as [->|Hx]; auto.
Qed.

Lemma insert_rows_lookup T cols groups :
  t_auto (insert_rows T cols groups) = t_auto T + Z.of_nat (length groups)
  /\ length (t_rows (insert_rows T cols groups))
     = (length (t_rows T) + length groups)%nat
  /\ forall i g, groups !! i = Some g ->
       exists Ti, t_cols Ti = t_cols T /\ t_auto Ti = t_auto T + Z.of_nat i /\
         t_rows (insert_rows T cols groups) !! (length (t_rows T) + i)%nat
         = Some (new_row Ti cols g).
Proof.
  revert T. induction groups as [|g0 groups IH]; intros T.
  { cbn. split; [lia|]. split; [lia|]. by intros i g. }
  change (insert_rows T cols (g0 :: groups))
    with (insert_rows (insert_row T cols g0) cols groups).
  destruct (IH (insert_row T cols g0)) as (Ha & Hl & Hi).
  cbn [insert_row t_auto t_rows t_cols] in *. rewrite length_app in *.
  cbn [length] in *. split; [lia|]. split; [lia|].
  intros [|i] g Hg.
  - injection Hg as <-. exists T. split; [done|]. split; [lia|].
    destruct (insert_rows_spec (insert_row T cols g0) cols groups)
      as (_ & rows' & -> & _).
    cbn [insert_row t_rows]. rewrite <- app_assoc, Nat.add_0_r.
    exact (list_lookup_middle (t_rows T) rows' (new_row T cols g0) _ eq_refl).
  - destruct (Hi i g Hg) as (Ti & Hc & Hau & Hrow).
    exists Ti. split; [done|]. split; [lia|].
    by replace (length (t_rows T) + S i)%nat
      with (length (t_rows T) + 1 + i)%nat by lia.
Qed.

(** Steps that neither create nor reshape the reference table. *)
Lemma has_col_cols T T' c : t_cols T = t_cols T' -> has_col T c = has_col T' c.
Proof. unfold has_col, col_names. by intros ->. Qed.

Section Seed.

Variable Highlights : Type.
Variable json_dumps : Highlights -> string.
Variable SEED : list (SeedTest Highlights).
Hypothesis seed_slugs_distinct : NoDup (seed_slug <$> SEED).

#[local] Abbreviation script_db := (script_db Highlights json_dumps SEED).
#[local] Abbreviation action_db := (action_db Highlights json_dumps SEED).
#[local] Abbreviation settled := (settled json_dumps SEED).
#[local] Abbreviation seed_table := (seed_table Highlights json_dumps SEED).
#[local] Abbreviation update_pass := (update_pass Highlights json_dumps SEED).
#[local] Abbreviation mutable_values := (mutable_values Highlights json_dumps).
#[local] Abbreviation insert_values := (insert_values Highlights json_dumps).

(** After a script has run, each of its steps is in place. *)
Lemma script_db_settles script d d' :
  well_ordered script = true -> script_db script d = Some d' ->
  Forall (fun a => settled a d') script.
Proof.
  revert d. induction script as [|a rest IH]; intros d Hwo Hrun; [done|].
  cbn in Hwo. apply andb_true_iff in Hwo as [Hwo Hrest].
  apply andb_true_iff in Hwo as [Hstep Hfollow].
  change (script_db (a :: rest) d)
    with (match action_db a d with
          | Some d1 => script_db rest d1
          | None => None
          end) in Hrun.
  destruct (action_db a d) as [d1|] eqn:Ha; [|done].
  constructor; [|by eapply IH].
  eapply settled_run; [|done..].
  by eapply settled_after.
Qed.

(** A table on which the seed step changes nothing holds the seed. *)
Lemma seed_settled_rows T :
  seed_table T = Some T ->
  (SEED ≠ [] -> t_rows T ≠ [])
  /\ forall r test, r ∈ t_rows T -> test ∈ SEED ->
       r !! "slug" = Some (VStr (seed_slug test)) ->
       forall j k v, update_cols !! j = Some k ->
         mutable_values test !! j = Some v -> r !! k = Some v.
Proof.
  intros Hs. destruct (decide (SEED = [])) as [He|Hne].
  { split; [done|]. intros r test _ Hin. rewrite He in Hin.
    by apply elem_of_nil in Hin. }
  rewrite seed_table_nonempty in Hs by done.
  destruct (t_rows T) as [|r0 rows] eqn:Hrows.
  { destruct (has_cols T insert_cols); [|done]. injection Hs as Hs.
    apply (f_equal (fun T => length (t_rows T))) in Hs.
    destruct (insert_rows_spec T insert_cols (insert_values <$> SEED))
      as (_ & rows' & Hr & Hall).
    rewrite Hr, Hrows in Hs. apply Forall2_length in Hall.
    rewrite length_fmap in Hall. cbn in Hs.
    destruct SEED; [done|]. cbn in Hall. lia. }
  split; [done|].
  destruct (has_cols T update_cols && has_col T "slug"); [|done].
  injection Hs as Hs. apply (f_equal t_rows) in Hs. cbn [t_rows] in Hs.
  rewrite Hrows in Hs.
  intros r test Hr Hin Hslug j k v Hk Hv.
  pose proof (fmap_fixed update_pass (r0 :: rows) Hs r Hr) as Hfix.
  rewrite update_pass_spec in Hfix.
  destruct (last_match Highlights SEED r) as [t|] eqn:Hm.
  - apply last_match_Some in Hm as [Hin' Hslug'].
    assert (t = test) as ->.
    { apply (seed_slug_inj _ _ seed_slugs_distinct); [done..|congruence]. }
    rewrite <- Hfix. by eapply assign_mutable.
  - by eapply last_match_None in Hm.
Qed.

(** A step that does not work on the reference table does the same
    whatever rows that table holds. *)
Lemma action_db_aside a d d1 T T' :
  match a with
  | Execute (CreateTable n _ _) => n ≠ PA
  | Execute (AlterAdd t _) => t ≠ PA
  | Execute _ => False
  | Info _ => True
  | ReconcileSeed => False
  end ->
  d !! PA = Some T -> t_cols T = t_cols T' ->
  action_db a d = Some d1 ->
  action_db a (<[PA := T']> d) = Some (<[PA := T']> d1) /\ d1 !! PA = Some T.
Proof.
  intros Ha HT Hcols.
  destruct a as [[n cols fks|t adds| | | |]|msg|]; try done; cbn.
  - unfold exec_stmt, create_table. rewrite lookup_insert_ne by done.
    destruct (d !! n) as [Tn|] eqn:Hn; cbn.
    + intros [= <-]. done.
    + assert (Hfk : forallb (fk_ok (<[PA := T']> d) cols) fks
                    = forallb (fk_ok d cols) fks).
      { induction fks as [|k fks IH]; [done|]. cbn [forallb]. rewrite IH.
        f_equal. unfold fk_ok. f_equal.
        destruct (decide (fk_table k = PA)) as [->|Hk].
        - rewrite lookup_insert_eq, HT. symmetry. by apply has_col_cols.
        - by rewrite lookup_insert_ne. }
      rewrite Hfk. destruct (forallb (fk_ok d cols) fks); [|done]. cbn.
      intros [= <-]. split; [|by rewrite lookup_insert_ne].
      f_equal. by apply insert_insert_ne.
  - unfold exec_stmt. rewrite lookup_insert_ne by done.
    destruct (d !! t) as [Tt|]; [|done]. cbn.
    destruct (add_columns Tt adds) as [Tt'|]; [|done]. cbn.
    intros [= <-]. split; [|by rewrite lookup_insert_ne].
    f_equal. by apply insert_insert_ne.
  - intros [= <-]. done.
Qed.

Lemma script_db_aside script d d1 T T' :
  Forall (fun a => match a with
                   | Execute (CreateTable n _ _) => n ≠ PA
                   | Execute (AlterAdd t _) => t ≠ PA
                   | Execute _ => False
                   | Info _ => True
                   | ReconcileSeed => False
                   end) script ->
  d !! PA = Some T -> t_cols T = t_cols T' ->
  script_db script d = Some d1 ->
  script_db script (<[PA := T']> d) = Some (<[PA := T']> d1).
Proof.
  revert d. induction script as [|a rest IH]; intros d Hall HT Hcols.
  { by intros [= <-]. }
  apply Forall_cons in Hall as [Ha Hall].
  change (script_db (a :: rest) d)
    with (match action_db a d with
          | Some d2 => script_db rest d2
          | None => None
          end).
  change (script_db (a :: rest) (<[PA := T']> d))
    with (match action_db a (<[PA := T']> d) with
          | Some d2 => script_db rest d2
          | None => None
          end).
  destruct (action_db a d) as [d2|] eqn:Hstep; [|done].
  destruct (action_db_aside _ _ _ _ _ Ha HT Hcols Hstep) as [-> HT2].
  by apply IH.
Qed.

(** The script on an empty store: the run up to the seed step leaves the
    reference table empty with its declared columns, and the steps after it
    go through. *)
Lemma fresh_reference_table :
  match script_db (take 17 schema_script) ∅ with
  | Some d0 => d0 !! PA
  | None => None
  end = Some (Table personality_assessments_cols [] 1).
Proof. vm_compute. reflexivity. Qed.

Lemma fresh_rest_runs :
  is_Some (match script_db (take 17 schema_script) ∅ with
           | Some d0 => script_db (drop 18 schema_script) d0
           | None => None
           end).
Proof. apply (bool_decide_unpack _). vm_compute. exact I. Qed.

Lemma rest_is_aside :
  Forall (fun a => match a with
                   | Execute (CreateTable n _ _) => n ≠ PA
                   | Execute (AlterAdd t _) => t ≠ PA
                   | Execute _ => False
                   | Info _ => True
                   | ReconcileSeed => False
                   end) (drop 18 schema_script).
Proof. cbn. repeat (apply Forall_cons; split; [done|]). apply Forall_nil. exact I. Qed.

Lemma fresh_script_seeds :
  exists d,
    script_db schema_script ∅ = Some d /\
    d !! PA = Some (insert_rows (Table personality_assessments_cols [] 1)
                      insert_cols (insert_values <$> SEED)).
Proof.
  pose proof fresh_reference_table as H0. pose proof fresh_rest_runs as H1.
  assert (Hsplit : schema_script
                   = take 17 schema_script ++ [ReconcileSeed]
                     ++ drop 18 schema_script) by reflexivity.
  rewrite Hsplit, script_db_app.
  destruct (script_db (take 17 schema_script) ∅) as [d0|]; [|done].
  cbn [mbind option_bind].
  destruct H1 as [d1 H1]. rewrite script_db_app.
  set (T0 := Table personality_assessments_cols [] 1) in *.
  change (script_db [ReconcileSeed] d0)
    with (match seed_db Highlights json_dumps SEED d0 with
          | Some d2 => Some d2
          | None => None
          end).
  rewrite seed_db_table, H0.
  assert (Hseed : seed_table T0
                  = Some (insert_rows T0 insert_cols (insert_values <$> SEED))).
  { destruct (decide (SEED = [])) as [He|Hne].
    - unfold Aux.seed_table. by rewrite He.
    - by rewrite seed_table_nonempty. }
  rewrite Hseed. cbn [mbind option_bind].
  exists (<[PA := insert_rows T0 insert_cols (insert_values <$> SEED)]> d1).
  split; [|apply lookup_insert_eq].
  eapply script_db_aside; [apply rest_is_aside|exact H0| |exact H1].
  symmetry. apply insert_rows_cols.
Qed.



End Seed.

End SchemaFacts.

Module SchemaTheorems.
Import Store Runtime Database Aux StoreFacts SeedFacts RunFacts Reconciler.
Import Derived SchemaFacts.

#[local] Arguments exec_stmt : simpl never.
#[local] Arguments Aux.script_db : simpl never.

Section Seed.

Variable Highlights : Type.
Variable json_dumps : Highlights -> string.
Variable SEED : list (SeedTest Highlights).
Hypothesis seed_slugs_distinct : NoDup (seed_slug <$> SEED).

#[local] Abbreviation create_tables := (create_tables Highlights json_dumps SEED).
#[local] Abbreviation mutable_values := (mutable_values Highlights json_dumps).




End Seed.

Import Examples.




End SchemaTheorems.
